(** * Token rotation in the peinture image services

    A shallow embedding of the token management system and of the retry
    wrapper that the three provider services share:

    - [src/services/hfService.ts]   (Hugging Face, [runWithTokenRetry]),
    - [src/services/msService.ts]   (Model Scope,  [runWithMsTokenRetry]),
    - the Gitee AI service          (Gitee,        [runWithGiteeTokenRetry]).

    The three files repeat the same code with different constants; the
    embedding keeps one definition per function, indexed by a [Provider],
    and gives the source names as instances at the end of the definitions.

    Modelling choices.
    - A JavaScript string is a [string] of 8-bit characters (code points
      below 256).
    - [localStorage] is a finite map from keys to strings, or absent
      ([typeof localStorage === 'undefined']).
    - [JSON.parse] and [JSON.stringify] are operations of a class [Json];
      the only facts used about them are the two laws of [JsonLaws].
    - [new Date()] reads the fields [now] (milliseconds since the epoch) and
      [timezoneOffset] (minutes, as [getTimezoneOffset] returns them) of the
      environment; they do not change while one call runs.
    - The caller's asynchronous operation is a function of the credential and
      of a state of its own; it returns or throws an object, and does not
      touch [localStorage].
    - The [exhausted] object is a finite map of its own properties; reading
      a name it does not own falls back to [Object.prototype]. *)

From Stdlib Require Import ZArith String Ascii List Bool Lia DecimalString.
From stdpp Require Import base gmap strings list.

Local Open Scope string_scope.
Local Open Scope Z_scope.

(** ** JavaScript strings *)

Module JsString.

(** [s.includes(sub)] *)
Fixpoint includes (s sub : string) : bool :=
  String.prefix sub s ||
  match s with
  | EmptyString => false
  | String _ s' => includes s' sub
  end.

(** [s.split(',')] *)
Fixpoint split (s : string) : list string :=
  match s with
  | EmptyString => [EmptyString]
  | String c s' =>
      if Ascii.eqb c ","%char then EmptyString :: split s'
      else match split s' with
           | [] => [String c EmptyString]
           | x :: xs => String c x :: xs
           end
  end.

(** White space and line terminators of ECMAScript below code point 256:
    TAB, LF, VT, FF, CR, SP and NBSP. *)
Definition isWhiteSpace (c : ascii) : bool :=
  let n := nat_of_ascii c in
  (Nat.eqb n 9 || Nat.eqb n 10 || Nat.eqb n 11 || Nat.eqb n 12 ||
   Nat.eqb n 13 || Nat.eqb n 32 || Nat.eqb n 160)%bool.

Fixpoint trimStart (s : string) : string :=
  match s with
  | EmptyString => EmptyString
  | String c s' => if isWhiteSpace c then trimStart s' else s
  end.

Fixpoint trimEnd (s : string) : string :=
  match s with
  | EmptyString => EmptyString
  | String c s' =>
      match trimEnd s' with
      | EmptyString => if isWhiteSpace c then EmptyString else String c EmptyString
      | r => String c r
      end
  end.

(** [s.trim()] *)
Definition trim (s : string) : string := trimEnd (trimStart s).

(** [l.join(',')] *)
Fixpoint join (l : list string) : string :=
  match l with
  | [] => EmptyString
  | [x] => x
  | x :: xs => x ++ String ","%char (join xs)
  end.

(** [!s] for a string. *)
Definition falsy (s : string) : bool := String.eqb s EmptyString.

(** [s.toLowerCase()] on the letters A to Z. *)
Definition lowerChar (c : ascii) : ascii :=
  let n := nat_of_ascii c in
  if (Nat.leb 65 n && Nat.leb n 90)%bool then ascii_of_nat (n + 32) else c.

Fixpoint toLowerCase (s : string) : string :=
  match s with
  | EmptyString => EmptyString
  | String c s' => String (lowerChar c) (toLowerCase s')
  end.

(** A substring test that ignores letter case. *)
Definition includesAnyCase (s sub : string) : bool :=
  includes (toLowerCase s) (toLowerCase sub).

(** [sub] occurs in [s], character for character. *)
Definition Substring (sub s : string) : Prop :=
  exists pre post, s = pre ++ sub ++ post.

End JsString.

(** ** Calendar day of an instant *)

Module JsDate.

Definition msPerDay : Z := 86400000.

(** Proleptic Gregorian (year, month, day) of a day number counted from
    1970-01-01. *)
Definition civil_from_days (days : Z) : Z * Z * Z :=
  let z := days + 719468 in
  let era := z / 146097 in
  let doe := z - era * 146097 in
  let yoe := (doe - doe / 1460 + doe / 36524 - doe / 146096) / 365 in
  let doy := doe - (365 * yoe + yoe / 4 - yoe / 100) in
  let mp := (5 * doy + 2) / 153 in
  let d := doy - (153 * mp + 2) / 5 + 1 in
  let m := if mp <? 10 then mp + 3 else mp - 9 in
  let y := yoe + era * 400 + (if m <=? 2 then 1 else 0) in
  (y, m, d).

Definition digit (n : Z) : ascii := ascii_of_nat (48 + Z.to_nat (n mod 10)).

Fixpoint digits (width : nat) (n : Z) (acc : string) : string :=
  match width with
  | O => acc
  | S w => digits w (n / 10) (String (digit n) acc)
  end.

(** Year field of [toISOString]: four digits, or a sign and six digits
    outside 0..9999. *)
Definition isoYear (y : Z) : string :=
  if (0 <=? y) && (y <=? 9999) then digits 4 y EmptyString
  else if y <? 0 then String "-"%char (digits 6 (- y) EmptyString)
  else String "+"%char (digits 6 y EmptyString).

(** [new Date(ms).toISOString().split('T')[0]] *)
Definition isoDate (ms : Z) : string :=
  let '(y, m, d) := civil_from_days (ms / msPerDay) in
  isoYear y ++ String "-"%char (digits 2 m (String "-"%char (digits 2 d EmptyString))).

End JsDate.

(** ** Data model *)

(** The three services. *)
Inductive Provider : Type := HuggingFace | ModelScope | Gitee.

(** [interface TokenStatusStore { date: string; exhausted: Record<string, boolean> }] *)
Record TokenStatusStore : Type := mkStore {
  date : string;
  exhausted : gmap string bool
}.

(** What [JSON.parse] can return, as far as [getTokenStatusStore] looks at
    it: [null] (reading [.date] throws), a value whose [.date] is not a
    string (numbers, strings, arrays, objects without a string [date]), or an
    object of the declared shape. *)
Inductive json : Type :=
| JNull
| JOther
| JStore (store : TokenStatusStore).

(** [JSON.parse] ([None]: it throws a SyntaxError) and [JSON.stringify].
    The record is a finite map, so [JSON_stringify] gives one text for the
    records that JavaScript writes with the same keys in another order; the
    statements below are about the record that is loaded, never about the
    equality of two stored texts. *)
Class Json : Type := {
  JSON_parse : string -> option json;
  JSON_stringify : TokenStatusStore -> string
}.

(** A stored record reads back as itself, and its text is not empty. *)
Class JsonLaws (J : Json) : Prop := {
  JSON_parse_stringify : forall store, JSON_parse (JSON_stringify store) = Some (JStore store);
  JSON_stringify_truthy : forall store, JSON_stringify store <> EmptyString
}.

(** The part of the browser the services read: [localStorage] ([None] when
    it is undefined) and the clock. *)
Record Env : Type := mkEnv {
  localStorage : option (gmap string string);
  now : Z;
  timezoneOffset : Z
}.

(** A thrown value: the fields the wrapper reads. [message] and [status] are
    [None] when undefined. *)
Record Error : Type := mkErr {
  message : option string;
  status : option Z
}.

(** [new Error(msg)] *)
Definition newError (msg : string) : Error := {| message := Some msg; status := None |}.

(** How a promise settles. *)
Inductive Outcome (T : Type) : Type :=
| Resolved (value : T)
| Rejected (error : Error).
Arguments Resolved {T} value.
Arguments Rejected {T} error.

(** The optional argument of [getTokens]. *)
Inductive RawInput : Type :=
| undefined
| null
| raw (s : string).

(** ** Constants of the three services *)

Definition TOKEN_STORAGE_KEY (p : Provider) : string :=
  match p with
  | HuggingFace => "huggingFaceToken"
  | ModelScope => "msToken"
  | Gitee => "giteeToken"
  end.

Definition TOKEN_STATUS_KEY (p : Provider) : string :=
  match p with
  | HuggingFace => "hf_token_status"
  | ModelScope => "ms_token_status"
  | Gitee => "gitee_token_status"
  end.

(** [QUOTA_ERROR_KEY] of hfService, and the messages thrown at the same place
    by the other two. *)
Definition QUOTA_ERROR_KEY (p : Provider) : string :=
  match p with
  | HuggingFace => "error_quota_exhausted"
  | ModelScope => "error_ms_token_exhausted"
  | Gitee => "error_gitee_token_exhausted"
  end.

(** Message thrown when no token is configured ([None]: the service runs the
    operation without a token). *)
Definition TOKEN_REQUIRED_KEY (p : Provider) : option string :=
  match p with
  | HuggingFace => None
  | ModelScope => Some "error_ms_token_required"
  | Gitee => Some "error_gitee_token_required"
  end.

(** ** Day of the rotation window *)

(** [new Date().toISOString().split('T')[0]] *)
Definition getUTCDatesString (e : Env) : string := JsDate.isoDate (now e).

(** [getBeijingDateString] of msService and of the Gitee service. *)
Definition getBeijingDateString (e : Env) : string :=
  let utc := now e + timezoneOffset e * 60000 in
  let nd := utc + 3600000 * 8 in
  JsDate.isoDate nd.

Definition getDateString (p : Provider) (e : Env) : string :=
  match p with
  | HuggingFace => getUTCDatesString e
  | ModelScope | Gitee => getBeijingDateString e
  end.

(** The calendar day at a fixed offset of [hours] from UTC. *)
Definition dayAtOffset (hours : Z) (e : Env) : string :=
  JsDate.isoDate (now e + hours * 3600000).

(** The offset each service documents for its window: UTC, and Beijing time
    (UTC+8). *)
Definition windowOffset (p : Provider) : Z :=
  match p with
  | HuggingFace => 0
  | ModelScope | Gitee => 8
  end.

(** ** Token store *)

Section TokenStore.
Context {J : Json}.

Definition defaultStore (p : Provider) (e : Env) : TokenStatusStore :=
  {| date := getDateString p e; exhausted := ∅ |}.

Definition getTokenStatusStore (p : Provider) (e : Env) : TokenStatusStore :=
  match localStorage e with
  | None => defaultStore p e
  | Some ls =>
      match ls !! TOKEN_STATUS_KEY p with
      | None => defaultStore p e
      | Some item =>
          if JsString.falsy item then defaultStore p e
          else
            match JSON_parse item with
            | None => defaultStore p e          (* SyntaxError, caught *)
            | Some JNull => defaultStore p e    (* TypeError on [store.date], caught *)
            | Some JOther => defaultStore p e   (* [undefined !== date] *)
            | Some (JStore store) =>
                if String.eqb (date store) (getDateString p e) then store
                else defaultStore p e
            end
      end
  end.

Definition saveTokenStatusStore (p : Provider) (store : TokenStatusStore) (e : Env) : Env :=
  match localStorage e with
  | None => e
  | Some ls =>
      {| localStorage := Some (<[TOKEN_STATUS_KEY p := JSON_stringify store]> ls);
         now := now e;
         timezoneOffset := timezoneOffset e |}
  end.

(** [getTokens], [getMsTokens], [getGiteeTokens] *)
Definition getTokens (p : Provider) (rawInput : RawInput) (e : Env) : list string :=
  let input :=
    match rawInput with
    | undefined =>
        match localStorage e with
        | Some ls => ls !! TOKEN_STORAGE_KEY p
        | None => Some EmptyString
        end
    | null => None
    | raw s => Some s
    end in
  match input with
  | None => []
  | Some input =>
      if JsString.falsy input then []
      else List.filter (fun t => Nat.ltb 0 (String.length t))
                  (map JsString.trim (JsString.split input))
  end.

(** The names a plain object inherits from [Object.prototype]. *)
Definition objectPrototype : list string :=
  ["constructor"; "hasOwnProperty"; "isPrototypeOf"; "propertyIsEnumerable";
   "toLocaleString"; "toString"; "valueOf"; "__proto__";
   "__defineGetter__"; "__defineSetter__"; "__lookupGetter__"; "__lookupSetter__"].

(** [store.exhausted[t]] as a condition: the own property if there is one,
    else the inherited one, which is a function or an object and counts as
    true, else [undefined]. *)
Definition isExhausted (store : TokenStatusStore) (t : string) : bool :=
  match exhausted store !! t with
  | Some b => b
  | None => existsb (String.eqb t) objectPrototype
  end.

(** [exhausted[token] = true]: an own property is written or created, except
    that without an own [__proto__] the assignment reaches the inherited
    setter, which ignores a value that is not an object. *)
Definition setExhausted (token : string) (m : gmap string bool) : gmap string bool :=
  match m !! token with
  | Some _ => <[token := true]> m
  | None => if String.eqb token "__proto__" then m else <[token := true]> m
  end.

Record TokenStats : Type := mkStats {
  total : nat;
  exhaustedCount : nat;
  active : nat
}.

(** [getTokenStats], [getMsTokenStats], [getGiteeTokenStats]; the field
    [exhausted] of the result is [exhaustedCount] here. *)
Definition getTokenStats (p : Provider) (rawInput : string) (e : Env) : TokenStats :=
  let tokens := getTokens p (raw rawInput) e in
  let store := getTokenStatusStore p e in
  let total := length tokens in
  let exhausted := length (List.filter (fun t => isExhausted store t) tokens) in
  {| total := total; exhaustedCount := exhausted; active := total - exhausted |}.

(** [x || null] for the result of [find]. *)
Definition orNull (x : option string) : option string :=
  match x with
  | Some t => if JsString.falsy t then None else Some t
  | None => None
  end.

Definition getNextAvailableToken (p : Provider) (e : Env) : option string :=
  let tokens := getTokens p undefined e in
  let store := getTokenStatusStore p e in
  orNull (List.find (fun t => negb (isExhausted store t)) tokens).

Definition markTokenExhausted (p : Provider) (token : string) (e : Env) : Env :=
  let store := getTokenStatusStore p e in
  let store := {| date := date store; exhausted := setExhausted token (exhausted store) |} in
  saveTokenStatusStore p store e.

(** The raw token list kept in [localStorage], if any. *)
Definition configured (p : Provider) (e : Env) : option string :=
  match localStorage e with
  | Some ls => ls !! TOKEN_STORAGE_KEY p
  | None => None
  end.

(** The configured tokens that are not marked exhausted today, in order:
    the list [getNextAvailableToken] takes the first element of. *)
Definition pendingTokens (p : Provider) (e : Env) : list string :=
  List.filter (fun t => negb (isExhausted (getTokenStatusStore p e) t))
              (getTokens p undefined e).

(** The names of the Model Scope and Gitee copies. *)
Definition getMsTokens : RawInput -> Env -> list string := getTokens ModelScope.
Definition getGiteeTokens : RawInput -> Env -> list string := getTokens Gitee.
Definition getMsTokenStats : string -> Env -> TokenStats := getTokenStats ModelScope.
Definition getGiteeTokenStats : string -> Env -> TokenStats := getTokenStats Gitee.

End TokenStore.

(** ** Quota classification *)

(** [error.message?.includes(sub)] *)
Definition messageIncludes (error : Error) (sub : string) : bool :=
  match message error with
  | Some m => JsString.includes m sub
  | None => false
  end.

(** [error.message === s] *)
Definition messageIs (error : Error) (s : string) : bool :=
  match message error with
  | Some m => String.eqb m s
  | None => false
  end.

(** [error.status === 429] *)
Definition statusIs429 (error : Error) : bool :=
  match status error with
  | Some n => n =? 429
  | None => false
  end.

(** The local [isQuotaError] of each wrapper. *)
Definition isQuotaError (p : Provider) (error : Error) : bool :=
  match p with
  | HuggingFace =>
      messageIs error (QUOTA_ERROR_KEY HuggingFace) ||
      messageIncludes error "429" ||
      statusIs429 error
  | ModelScope =>
      messageIncludes error "429" ||
      statusIs429 error ||
      messageIncludes error "quota" ||
      messageIncludes error "credit" ||
      messageIncludes error "Arrearage" ||
      messageIncludes error "Bill"
  | Gitee =>
      messageIncludes error "429" ||
      statusIs429 error ||
      messageIncludes error "quota" ||
      messageIncludes error "credit"
  end.

(** ** Retry wrapper *)

Section Executor.
Context {J : Json} {T S : Type}.

(** The caller's operation: it gets a token ([None] is [null]) and its own
    state, and settles. *)
Definition Operation : Type := option string -> S -> Outcome T * S.

(** What one call of the wrapper did: how its promise settled, the final
    value of [attempts], the tokens the operation was invoked with, in
    order, and the environment and operation state it left. *)
Record Run : Type := mkRun {
  outcome : Outcome T;
  attempts : nat;
  invoked : list (option string);
  envAfter : Env;
  stateAfter : S
}.

(** The [while (attempts < maxAttempts)] loop and the [throw] after it.
    [budget] is [maxAttempts - attempts]. The environment is the one of the
    start of the call and changes by the marks of the wrapper only: the clock
    stands still and nothing else writes to [localStorage] while the
    operation is awaited ([retryLoopLive] below is the loop without these
    two assumptions). *)
Fixpoint retryLoop (p : Provider) (operation : Operation) (budget : nat)
    (attempts : nat) (lastError : option Error) (invoked : list (option string))
    (e : Env) (s : S) : Run :=
  match budget with
  | O =>
      let thrown :=
        match lastError with
        | Some error => error
        | None => newError "error_api_connection"
        end in
      mkRun (Rejected thrown) attempts invoked e s
  | Datatypes.S budget' =>
      let attempts := Datatypes.S attempts in
      match getNextAvailableToken p e with
      | None => mkRun (Rejected (newError (QUOTA_ERROR_KEY p))) attempts invoked e s
      | Some token =>
          let invoked := (invoked ++ [Some token])%list in
          match operation (Some token) s with
          | (Resolved value, s') => mkRun (Resolved value) attempts invoked e s'
          | (Rejected error, s') =>
              if isQuotaError p error && negb (JsString.falsy token)
              then retryLoop p operation budget' attempts (Some error) invoked
                             (markTokenExhausted p token e) s'
              else mkRun (Rejected error) attempts invoked e s'
          end
      end
  end.

(** The body shared by [runWithTokenRetry], [runWithMsTokenRetry] and
    [runWithGiteeTokenRetry]. *)
Definition runWithRetry (p : Provider) (operation : Operation) (e : Env) (s : S) : Run :=
  let tokens := getTokens p undefined e in
  if Nat.eqb (length tokens) 0 then
    match TOKEN_REQUIRED_KEY p with
    | None =>
        let '(r, s') := operation None s in
        mkRun r 0 [None] e s'
    | Some msg => mkRun (Rejected (newError msg)) 0 [] e s
    end
  else
    let maxAttempts := (length tokens + 1)%nat in
    retryLoop p operation maxAttempts 0 None [] e s.

(** The operation throws a quota error whenever it is given token [t]. *)
Definition quotaFails (p : Provider) (operation : Operation) (t : string) : Prop :=
  forall s, exists error s',
    operation (Some t) s = (Rejected error, s') /\ isQuotaError p error = true.

(** The operation returns [value] whenever it is given token [t]. *)
Definition succeedsWith (operation : Operation) (t : string) (value : T) : Prop :=
  forall s, exists s', operation (Some t) s = (Resolved value, s').

Definition runWithTokenRetry : Operation -> Env -> S -> Run := runWithRetry HuggingFace.
Definition runWithMsTokenRetry : Operation -> Env -> S -> Run := runWithRetry ModelScope.
Definition runWithGiteeTokenRetry : Operation -> Env -> S -> Run := runWithRetry Gitee.

End Executor.

Arguments Operation T S : clear implicits.
Arguments Run T S : clear implicits.

(** ** The wrapper while time passes *)

Section LiveExecutor.
Context {J : Json} {T S : Type}.

(** An operation during which the world goes on: it gets the environment at
    the time it is started, and gives the environment at the time it
    settles. The clock has moved by then, and another page may have written
    to [localStorage]. *)
Definition LiveOperation : Type := option string -> Env -> S -> Outcome T * Env * S.

(** The loop of the three wrappers, as [retryLoop], with every read of the
    clock and of [localStorage] made in the environment of its own time:
    [getNextAvailableToken] before the operation, [markTokenExhausted] after
    it has settled. *)
Fixpoint retryLoopLive (p : Provider) (operation : LiveOperation) (budget : nat)
    (attempts : nat) (lastError : option Error) (invoked : list (option string))
    (e : Env) (s : S) : Run T S :=
  match budget with
  | O =>
      let thrown :=
        match lastError with
        | Some error => error
        | None => newError "error_api_connection"
        end in
      mkRun (Rejected thrown) attempts invoked e s
  | Datatypes.S budget' =>
      let attempts := Datatypes.S attempts in
      match getNextAvailableToken p e with
      | None => mkRun (Rejected (newError (QUOTA_ERROR_KEY p))) attempts invoked e s
      | Some token =>
          let invoked := (invoked ++ [Some token])%list in
          match operation (Some token) e s with
          | (Resolved value, e', s') => mkRun (Resolved value) attempts invoked e' s'
          | (Rejected error, e', s') =>
              if isQuotaError p error && negb (JsString.falsy token)
              then retryLoopLive p operation budget' attempts (Some error) invoked
                                 (markTokenExhausted p token e') s'
              else mkRun (Rejected error) attempts invoked e' s'
          end
      end
  end.

Definition runWithRetryLive (p : Provider) (operation : LiveOperation) (e : Env) (s : S)
    : Run T S :=
  let tokens := getTokens p undefined e in
  if Nat.eqb (length tokens) 0 then
    match TOKEN_REQUIRED_KEY p with
    | None =>
        let '(r, e', s') := operation None e s in
        mkRun r 0 [None] e' s'
    | Some msg => mkRun (Rejected (newError msg)) 0 [] e s
    end
  else
    let maxAttempts := (length tokens + 1)%nat in
    retryLoopLive p operation maxAttempts 0 None [] e s.

(** An operation during which nothing changes. *)
Definition frozen (operation : Operation T S) : LiveOperation :=
  fun token e s => let '(r, s') := operation token s in (r, e, s').

(** The environment in which an operation settled. *)
Definition settledEnv (r : Outcome T * Env * S) : Env := snd (fst r).

(** Nothing else writes to [localStorage] while the operation runs. *)
Definition keepsStorage (operation : LiveOperation) : Prop :=
  forall token e s, localStorage (settledEnv (operation token e s)) = localStorage e.

(** The operation settles on the day [day] of the service. *)
Definition settlesOn (p : Provider) (operation : LiveOperation) (day : string) : Prop :=
  forall token e s, getDateString p (settledEnv (operation token e s)) = day.

End LiveExecutor.

Arguments LiveOperation T S : clear implicits.


(** ** An instance of [Json]

    A codec that meets [JsonLaws]: a record is written as the binary digits
    of its code as a countable value. It stands in for the browser's JSON
    where an example has to be evaluated. *)

Module BitJson.

Fixpoint bits (p : positive) : string :=
  match p with
  | xH => "."
  | xO q => String "0"%char (bits q)
  | xI q => String "1"%char (bits q)
  end.

Fixpoint unbits (s : string) : option positive :=
  match s with
  | EmptyString => None
  | String c s' =>
      if Ascii.eqb c "."%char then
        (if String.eqb s' EmptyString then Some xH else None)
      else if Ascii.eqb c "0"%char then xO <$> unbits s'
      else if Ascii.eqb c "1"%char then xI <$> unbits s'
      else None
  end.

Definition stringify (store : TokenStatusStore) : string :=
  bits (encode (date store, exhausted store)).

Definition parse (s : string) : option json :=
  if String.eqb s "null" then Some JNull
  else
    match unbits s with
    | Some p =>
        match decode p with
        | Some (d, ex) => Some (JStore (mkStore d ex))
        | None => None
        end
    | None => None
    end.

#[export] Instance codec : Json := {| JSON_parse := parse; JSON_stringify := stringify |}.

End BitJson.

(** ** Image sizes *)

Record Dimensions : Type := mkDimensions {
  width : Z;
  height : Z
}.

(** [getZImageDimensions] of hfService. The argument is the text of the
    ratio; a text that is none of the seven cases takes the [default]
    branch. *)
Definition getZImageDimensions (ratio : string) (enableHD : bool) : Dimensions :=
  if enableHD then
    if String.eqb ratio "16:9" then {| width := 2048; height := 1152 |}
    else if String.eqb ratio "4:3" then {| width := 2048; height := 1536 |}
    else if String.eqb ratio "3:2" then {| width := 1920; height := 1280 |}
    else if String.eqb ratio "9:16" then {| width := 1152; height := 2048 |}
    else if String.eqb ratio "3:4" then {| width := 1536; height := 2048 |}
    else if String.eqb ratio "2:3" then {| width := 1280; height := 1920 |}
    else {| width := 2048; height := 2048 |}
  else
    if String.eqb ratio "16:9" then {| width := 1024; height := 576 |}
    else if String.eqb ratio "4:3" then {| width := 1024; height := 768 |}
    else if String.eqb ratio "3:2" then {| width := 960; height := 640 |}
    else if String.eqb ratio "9:16" then {| width := 576; height := 1024 |}
    else if String.eqb ratio "3:4" then {| width := 768; height := 1024 |}
    else if String.eqb ratio "2:3" then {| width := 640; height := 960 |}
    else {| width := 1024; height := 1024 |}.

(** [getDimensions] of msService and of the Gitee service (the two copies are
    the same text). *)
Definition getDimensions (ratio : string) (enableHD : bool) : Dimensions :=
  if enableHD then
    if String.eqb ratio "16:9" then {| width := 2048; height := 1152 |}
    else if String.eqb ratio "4:3" then {| width := 2048; height := 1536 |}
    else if String.eqb ratio "3:2" then {| width := 1920; height := 1280 |}
    else if String.eqb ratio "9:16" then {| width := 1152; height := 2048 |}
    else if String.eqb ratio "3:4" then {| width := 1536; height := 2048 |}
    else if String.eqb ratio "2:3" then {| width := 1280; height := 1920 |}
    else {| width := 2048; height := 2048 |}
  else
    if String.eqb ratio "16:9" then {| width := 1024; height := 576 |}
    else if String.eqb ratio "4:3" then {| width := 1024; height := 768 |}
    else if String.eqb ratio "3:2" then {| width := 960; height := 640 |}
    else if String.eqb ratio "9:16" then {| width := 576; height := 1024 |}
    else if String.eqb ratio "3:4" then {| width := 768; height := 1024 |}
    else if String.eqb ratio "2:3" then {| width := 640; height := 960 |}
    else {| width := 1024; height := 1024 |}.

(** The seven ratios the tables name, with their two numbers. *)
Definition namedRatios : list (string * Z * Z) :=
  [("16:9", 16, 9); ("4:3", 4, 3); ("3:2", 3, 2); ("9:16", 9, 16);
   ("3:4", 3, 4); ("2:3", 2, 3); ("1:1", 1, 1)].

(** ** Request headers *)

(** [getAuthHeaders] of hfService. *)
Definition getAuthHeaders (token : option string) : gmap string string :=
  let headers : gmap string string := {[ "Content-Type" := "application/json" ]} in
  match token with
  | Some t =>
      if JsString.falsy t then headers
      else <[ "Authorization" := "Bearer " ++ t ]> headers
  | None => headers
  end.

(** ** Server-sent events *)

Module JsText.

(** [s.split(sep)] for a separator of one character. *)
Fixpoint splitOn (sep : ascii) (s : string) : list string :=
  match s with
  | EmptyString => [EmptyString]
  | String c s' =>
      if Ascii.eqb c sep then EmptyString :: splitOn sep s'
      else match splitOn sep s' with
           | [] => [String c EmptyString]
           | x :: xs => String c x :: xs
           end
  end.

(** [s.startsWith(pre)] *)
Definition startsWith (s pre : string) : bool := String.prefix pre s.

(** [s.substring(n)] *)
Fixpoint substringFrom (n : nat) (s : string) : string :=
  match n, s with
  | O, _ => s
  | Datatypes.S n', String _ s' => substringFrom n' s'
  | Datatypes.S _, EmptyString => EmptyString
  end.

(** The line feed. *)
Definition LF : ascii := ascii_of_nat 10.

(** [lines.join('\n')] *)
Fixpoint joinLines (lines : list string) : string :=
  match lines with
  | [] => EmptyString
  | [x] => x
  | x :: xs => x ++ String LF (joinLines xs)
  end.

End JsText.

(** What [extractCompleteEventData] does: it returns a value ([None] is
    [null]) or throws. *)
Inductive Extracted (V : Type) : Type :=
| Returned (data : option V)
| Thrown (error : Error).
Arguments Returned {V} data.
Arguments Thrown {V} error.

Section Sse.
Context {V : Type}.

(** [JSON.parse] on the text of a data line ([None]: it throws). *)
Variable parse : string -> option V.

(** The name on an [event:] line. *)
Definition eventName (line : string) : string :=
  JsString.trim (JsText.substringFrom 6 line).

(** The [for (const line of lines)] loop of [extractCompleteEventData]. *)
Fixpoint extractLoop (isCompleteEvent : bool) (lines : list string) : Extracted V :=
  match lines with
  | [] => Returned None
  | line :: rest =>
      if JsText.startsWith line "event:" then
        if String.eqb (eventName line) "complete" then extractLoop true rest
        else if String.eqb (eventName line) "error" then
          Thrown (newError (QUOTA_ERROR_KEY HuggingFace))
        else extractLoop false rest
      else if JsText.startsWith line "data:" && isCompleteEvent then
        let jsonData := JsString.trim (JsText.substringFrom 5 line) in
        match parse jsonData with
        | Some data => Returned (Some data)
        | None => Returned None
        end
      else extractLoop isCompleteEvent rest
  end.

Definition extractCompleteEventData (sseStream : string) : Extracted V :=
  let lines := JsText.splitOn JsText.LF sseStream in
  extractLoop false lines.

End Sse.

(** A line that is an [event:] line naming [complete] or [error]. *)
Definition decisiveEvent (line : string) : bool :=
  JsText.startsWith line "event:" &&
  (String.eqb (eventName line) "complete" || String.eqb (eventName line) "error").

(** An [event:] line naming [error]. *)
Definition errorEvent (line : string) : bool :=
  JsText.startsWith line "event:" && String.eqb (eventName line) "error".

(** An [event:] line naming [complete]. *)
Definition completeEvent (line : string) : bool :=
  JsText.startsWith line "event:" && String.eqb (eventName line) "complete".

(** A [data:] line (one that is not an [event:] line). *)
Definition dataLine (line : string) : bool :=
  negb (JsText.startsWith line "event:") && JsText.startsWith line "data:".

(** ** Calls of the Hugging Face spaces *)

(** What a call of a space needs from outside the services: the two requests
    (the POST that gives an event id and the GET that gives the stream, each
    able to throw), [JSON.parse] on the data line, the test [!data], and the
    making of the result from the data (the reads [data[0].url] and the like,
    which throw on data of another shape). *)
Record Space (V R S : Type) : Type := mkSpace {
  parseData : string -> option V;
  truthyData : V -> bool;
  postCall : gmap string string -> S -> Outcome string * S;
  getResult : gmap string string -> string -> S -> Outcome string * S;
  buildResult : V -> Outcome R
}.
Arguments mkSpace {V R S} _ _ _ _ _.
Arguments parseData {V R S} _ _.
Arguments truthyData {V R S} _ _.
Arguments postCall {V R S} _ _ _.
Arguments getResult {V R S} _ _ _ _.
Arguments buildResult {V R S} _ _.

Section Spaces.
Context {J : Json} {V R S : Type}.
Variable space : Space V R S.

(** The [try] block shared by [generateZImage], [generateQwenImage],
    [generateOvisImage] and [upscaler]. *)
Definition spaceCall (token : option string) (s : S) : Outcome R * S :=
  match postCall space (getAuthHeaders token) s with
  | (Rejected error, s1) => (Rejected error, s1)
  | (Resolved event_id, s1) =>
      match getResult space (getAuthHeaders token) event_id s1 with
      | (Rejected error, s2) => (Rejected error, s2)
      | (Resolved result, s2) =>
          match extractCompleteEventData (parseData space) result with
          | Thrown error => (Rejected error, s2)
          | Returned None => (Rejected (newError "error_invalid_response"), s2)
          | Returned (Some data) =>
              if truthyData space data then (buildResult space data, s2)
              else (Rejected (newError "error_invalid_response"), s2)
          end
      end
  end.

(** The operation of the three generators: [catch (error) { throw error }]. *)
Definition generateOperation : Operation R S := spaceCall.

(** The operation of [upscaler]:
    [catch (error) { throw new Error("error_upscale_failed") }]. *)
Definition upscalerOperation : Operation R S :=
  fun token s =>
    match spaceCall token s with
    | (Resolved value, s') => (Resolved value, s')
    | (Rejected _, s') => (Rejected (newError "error_upscale_failed"), s')
    end.

(** [generateZImage], [generateQwenImage], [generateOvisImage], each on its
    own space. *)
Definition generateZImage : Env -> S -> Run R S := runWithTokenRetry generateOperation.
Definition generateQwenImage : Env -> S -> Run R S := runWithTokenRetry generateOperation.
Definition generateOvisImage : Env -> S -> Run R S := runWithTokenRetry generateOperation.

Definition upscaler : Env -> S -> Run R S := runWithTokenRetry upscalerOperation.

End Spaces.

(** ** Calls of the Model Scope and Gitee services *)

(** The part of a [fetch] response the services read: [response.ok],
    [response.status], and what [response.json()] settles to: it throws, or
    gives the JSON value [null] ([None]), or gives a value whose properties
    can be read. *)
Record Response (B : Type) : Type := mkResponse {
  ok : bool;
  status_code : nat;
  json_body : Outcome (option B)
}.
Arguments mkResponse {B} _ _ _.
Arguments ok {B} _.
Arguments status_code {B} _.
Arguments json_body {B} _.

(** The decimal text of a number, as a template literal writes it. *)
Definition decimal (n : nat) : string := NilZero.string_of_uint (Nat.to_uint n).

(** [x] as a condition, for a string that may be undefined. *)
Definition truthyText (x : option string) : option string :=
  match x with
  | Some t => if JsString.falsy t then None else Some t
  | None => None
  end.

(** The TypeError thrown by reading a property of [null]. The message is the
    one of V8; the other engines word it differently, none of them with 429
    or with one of the words the wrappers look for. *)
Definition nullPropertyError (property : string) : Error :=
  newError ("Cannot read properties of null (reading '" ++ property ++ "')").

(** What the two lines
    [const errData = await response.json().catch(() => ({}))] and
    [throw new Error(errData.message || `<prefix><status>`)] throw: a body
    that cannot be read counts as the empty object, and reading [message] of
    the body [null] throws a TypeError instead. *)
Definition apiError {B : Type} (prefix : string) (messageOf : B -> option string)
    (response : Response B) : Error :=
  match json_body response with
  | Resolved None => nullPropertyError "message"
  | Resolved (Some errData) =>
      match truthyText (messageOf errData) with
      | Some m => newError m
      | None => newError (prefix ++ decimal (status_code response))
      end
  | Rejected _ => newError (prefix ++ decimal (status_code response))
  end.

(** [`Bearer ${token}`] is written with the token the wrapper passes; the two
    wrappers never pass [null]. *)
Definition tokenText (token : option string) : string :=
  match token with
  | Some t => t
  | None => "null"
  end.

(** The fields of a [GeneratedImage] that come from the call ([id] and
    [timestamp] come from [generateUUID] and the clock). *)
Record GeneratedImage : Type := mkImage {
  url : string;
  model : string;
  prompt : string;
  aspectRatio : string;
  seed : Z;
  steps : Z;
  provider : string
}.

(** Body of the answer to the POST of [generateMSImage]. *)
Record SubmitBody : Type := mkSubmitBody {
  submit_message : option string;
  task_id : option string
}.

(** Body of the answer to a task check: [task_status], and
    [output_images?.[0]]. *)
Record TaskStatus : Type := mkTaskStatus {
  task_status : option string;
  output_image : option string
}.

(** The JSON body of the POST of [generateMSImage]. *)
Record MsRequest : Type := mkMsRequest {
  ms_prompt : string;
  ms_model : string;
  ms_size : string;
  ms_seed : Z;
  ms_steps : Z
}.

(** The two requests of [generateMSImage], each able to throw. *)
Record MsApi (S : Type) : Type := mkMsApi {
  submitTask : MsRequest -> string -> S -> Outcome (Response SubmitBody) * S;
  fetchTask : string -> string -> S -> Outcome (Response TaskStatus) * S
}.
Arguments mkMsApi {S} _ _.
Arguments submitTask {S} _ _ _ _.
Arguments fetchTask {S} _ _ _ _.

(** What the polling loop did: how it ended, the number of task checks, and
    the time slept in milliseconds. *)
Record Polling (S : Type) : Type := mkPolling {
  polled : Outcome string;
  checks : nat;
  slept : Z;
  pollState : S
}.
Arguments mkPolling {S} _ _ _ _.
Arguments polled {S} _.
Arguments checks {S} _.
Arguments slept {S} _.
Arguments pollState {S} _.

Section ModelScope.
Context {J : Json} {S : Type}.
Variable api : MsApi S.

Definition checkTaskStatus (taskId token : string) (s : S)
    : Outcome (option TaskStatus) * S :=
  match fetchTask api taskId token s with
  | (Rejected error, s') => (Rejected error, s')
  | (Resolved response, s') =>
      if negb (ok response) then
        (Rejected (newError ("Model Scope Task Check Error: " ++ decimal (status_code response))), s')
      else (json_body response, s')
  end.

(** The [while (attempts < maxAttempts)] loop of [generateMSImage] and the
    [throw] after it; [budget] is [maxAttempts - attempts]. It returns the
    image url. *)
Fixpoint pollLoop (budget : nat) (checks : nat) (slept : Z) (taskId token : string) (s : S)
    : Polling S :=
  match budget with
  | O => mkPolling (Rejected (newError "error_api_connection")) checks slept s
  | Datatypes.S budget' =>
      let slept := slept + 2000 in
      let checks := Datatypes.S checks in
      match checkTaskStatus taskId token s with
      | (Rejected error, s') => mkPolling (Rejected error) checks slept s'
      | (Resolved None, s') =>
          mkPolling (Rejected (nullPropertyError "task_status")) checks slept s'
      | (Resolved (Some taskStatus), s') =>
          if bool_decide (task_status taskStatus = Some "SUCCEED") then
            match truthyText (output_image taskStatus) with
            | None => mkPolling (Rejected (newError "error_invalid_response")) checks slept s'
            | Some imageUrl => mkPolling (Resolved imageUrl) checks slept s'
            end
          else if bool_decide (task_status taskStatus = Some "FAILED")
                  || bool_decide (task_status taskStatus = Some "CANCELED") then
            mkPolling (Rejected (newError "error_invalid_response")) checks slept s'
          else pollLoop budget' checks slept taskId token s'
      end
  end.

(** The operation of [generateMSImage], for the request and the image fields
    computed before the wrapper is called. *)
Definition msOperation (request : MsRequest) (image : string -> GeneratedImage)
    : Operation GeneratedImage S :=
  fun token s =>
    match submitTask api request (tokenText token) s with
    | (Rejected error, s1) => (Rejected error, s1)
    | (Resolved response, s1) =>
        if negb (ok response) then
          (Rejected (apiError "Model Scope API Error: " submit_message response), s1)
        else
          match json_body response with
          | Rejected error => (Rejected error, s1)
          | Resolved None => (Rejected (nullPropertyError "task_id"), s1)
          | Resolved (Some initialData) =>
              match truthyText (task_id initialData) with
              | None => (Rejected (newError "error_invalid_response"), s1)
              | Some taskId =>
                  let maxAttempts := 60%nat in
                  let polling := pollLoop maxAttempts 0 0 taskId (tokenText token) s1 in
                  match polled polling with
                  | Resolved imageUrl => (Resolved (image imageUrl), pollState polling)
                  | Rejected error => (Rejected error, pollState polling)
                  end
              end
          end
    end.

(** [generateMSImage]; [random] is the value drawn for a missing seed. *)
Definition generateMSImage (model prompt aspectRatio : string) (seed : option Z)
    (steps : option Z) (enableHD : bool) (random : Z) : Env -> S -> Run GeneratedImage S :=
  let d := getDimensions aspectRatio enableHD in
  let finalSeed := default random seed in
  let finalSteps := default 9 steps in
  let sizeString :=
    NilZero.string_of_int (Z.to_int (width d)) ++ "x" ++
    NilZero.string_of_int (Z.to_int (height d)) in
  runWithMsTokenRetry
    (msOperation
       {| ms_prompt := prompt; ms_model := model; ms_size := sizeString;
          ms_seed := finalSeed; ms_steps := finalSteps |}
       (fun imageUrl =>
          {| url := imageUrl; model := model; prompt := prompt;
             aspectRatio := aspectRatio; seed := finalSeed; steps := finalSteps;
             provider := "modelscope" |})).

End ModelScope.

(** One entry of [data.data] in the answer of the Gitee service. *)
Record GiteeImage : Type := mkGiteeImage {
  b64_json : option string;
  image_type : option string
}.

(** Body of the answer to the POST of [generateGiteeImage]: [message], and
    [data.data[0]] when [data.data] and [data.data[0]] are there. *)
Record GiteeBody : Type := mkGiteeBody {
  gitee_message : option string;
  first_image : option GiteeImage
}.

(** The JSON body of the POST of [generateGiteeImage]. *)
Record GiteeRequest : Type := mkGiteeRequest {
  gitee_prompt : string;
  gitee_model : string;
  gitee_width : Z;
  gitee_height : Z;
  gitee_seed : Z;
  num_inference_steps : Z
}.

Section GiteeService.
Context {J : Json} {S : Type}.

(** The request of [generateGiteeImage], able to throw. *)
Variable postImage : GiteeRequest -> string -> S -> Outcome (Response GiteeBody) * S.

(** The operation of [generateGiteeImage]. *)
Definition giteeOperation (request : GiteeRequest) (image : string -> GeneratedImage)
    : Operation GeneratedImage S :=
  fun token s =>
    match postImage request (tokenText token) s with
    | (Rejected error, s') => (Rejected error, s')
    | (Resolved response, s') =>
        if negb (ok response) then
          (Rejected (apiError "Gitee AI API Error: " gitee_message response), s')
        else
          match json_body response with
          | Rejected error => (Rejected error, s')
          | Resolved None => (Rejected (nullPropertyError "data"), s')
          | Resolved (Some data) =>
              match first_image data with
              | None => (Rejected (newError "error_invalid_response"), s')
              | Some img =>
                  match truthyText (b64_json img) with
                  | None => (Rejected (newError "error_invalid_response"), s')
                  | Some base64Image =>
                      let mimeType := default "image/png" (truthyText (image_type img)) in
                      let imageUrl := "data:" ++ mimeType ++ ";base64," ++ base64Image in
                      (Resolved (image imageUrl), s')
                  end
              end
          end
    end.

(** [generateGiteeImage]; [random] is the value drawn for a missing seed. *)
Definition generateGiteeImage (model prompt aspectRatio : string) (seed : option Z)
    (steps : option Z) (enableHD : bool) (random : Z) : Env -> S -> Run GeneratedImage S :=
  let d := getDimensions aspectRatio enableHD in
  let finalSeed := default random seed in
  let finalSteps := default 9 steps in
  runWithGiteeTokenRetry
    (giteeOperation
       {| gitee_prompt := prompt; gitee_model := model;
          gitee_width := width d; gitee_height := height d;
          gitee_seed := finalSeed; num_inference_steps := finalSteps |}
       (fun imageUrl =>
          {| url := imageUrl; model := model; prompt := prompt;
             aspectRatio := aspectRatio; seed := finalSeed; steps := finalSteps;
             provider := "gitee" |})).

End GiteeService.

(** Body of the answer to a chat completion: [choices?.[0]?.message?.content]. *)
Record ChatBody : Type := mkChatBody {
  content : option string
}.

Section Prompts.
Context {J : Json} {S : Type}.

(** The chat request, able to throw; it gets the token text and the prompt. *)
Variable chat : string -> string -> S -> Outcome (Response ChatBody) * S.

(** The [try] block shared by [optimizePromptMS] and [optimizePromptGitee]. *)
Definition optimizeOperation (originalPrompt : string) : Operation string S :=
  fun token s =>
    match chat (tokenText token) originalPrompt s with
    | (Rejected error, s') => (Rejected error, s')
    | (Resolved response, s') =>
        if negb (ok response) then
          (Rejected (newError "error_prompt_optimization_failed"), s')
        else
          match json_body response with
          | Rejected error => (Rejected error, s')
          | Resolved None => (Rejected (nullPropertyError "choices"), s')
          | Resolved (Some data) =>
              match truthyText (content data) with
              | Some text => (Resolved text, s')
              | None => (Resolved originalPrompt, s')
              end
          end
    end.

Definition optimizePromptMS (originalPrompt : string) : Env -> S -> Run string S :=
  runWithMsTokenRetry (optimizeOperation originalPrompt).

Definition optimizePromptGitee (originalPrompt : string) : Env -> S -> Run string S :=
  runWithGiteeTokenRetry (optimizeOperation originalPrompt).

End Prompts.

(** ** Vocabulary of the statements *)

(** The words each wrapper looks for in an error message, besides 429. *)
Definition keywords (p : Provider) : list string :=
  match p with
  | HuggingFace => []
  | ModelScope => ["quota"; "credit"; "Arrearage"; "Bill"]
  | Gitee => ["quota"; "credit"]
  end.

(** A string that does not start with white space. *)
Definition startsClean (s : string) : bool :=
  match s with
  | EmptyString => true
  | String c _ => negb (JsString.isWhiteSpace c)
  end.

(** A string of white space only. *)
Fixpoint allWhiteSpace (s : string) : bool :=
  match s with
  | EmptyString => true
  | String c s' => JsString.isWhiteSpace c && allWhiteSpace s'
  end.

(** A string that does not end with white space. *)
Fixpoint endsClean (s : string) : bool :=
  match s with
  | EmptyString => true
  | String c s' =>
      match s' with
      | EmptyString => negb (JsString.isWhiteSpace c)
      | String _ _ => endsClean s'
      end
  end.

(** [token] is [field] without the white space at its two ends: the field is
    white space, then the token, then white space, and the token neither
    starts nor ends with white space. *)
Definition Trimmed (field token : string) : Prop :=
  exists pre post,
    field = pre ++ token ++ post /\
    allWhiteSpace pre = true /\ allWhiteSpace post = true /\
    startsClean token = true /\ endsClean token = true.

(** A token that [getTokens] returns unchanged: not empty, without a comma,
    and with a first and a last character that are not white space. *)
Definition wellFormedToken (t : string) : bool :=
  negb (JsString.falsy t) && negb (JsString.includes t ",") &&
  startsClean t && endsClean t.

(** The situations in which nothing usable is persisted for the current
    day. *)
Inductive Unusable {J : Json} (p : Provider) (e : Env) : Prop :=
| no_storage :
    localStorage e = None -> Unusable p e
| no_item ls :
    localStorage e = Some ls -> ls !! TOKEN_STATUS_KEY p = None -> Unusable p e
| empty_item ls :
    localStorage e = Some ls -> ls !! TOKEN_STATUS_KEY p = Some EmptyString -> Unusable p e
| not_json ls item :
    localStorage e = Some ls -> ls !! TOKEN_STATUS_KEY p = Some item ->
    JSON_parse item = None -> Unusable p e
| not_a_record ls item :
    localStorage e = Some ls -> ls !! TOKEN_STATUS_KEY p = Some item ->
    JSON_parse item = Some JNull \/ JSON_parse item = Some JOther -> Unusable p e
| other_day ls item store :
    localStorage e = Some ls -> ls !! TOKEN_STATUS_KEY p = Some item ->
    JSON_parse item = Some (JStore store) -> date store <> getDateString p e ->
    Unusable p e.

(** The lines of a stream. *)
Definition streamLines (text : string) : list string := JsText.splitOn JsText.LF text.

(** A stream whose first complete or error event is an error event. *)
Definition errorStream (text : string) : Prop :=
  exists pre event post,
    streamLines text = (pre ++ event :: post)%list /\
    (forall l, In l pre -> decisiveEvent l = false) /\
    errorEvent event = true.

(** A stream whose first complete or error event is a complete event followed
    at once by a data line holding [payload]. *)
Definition completeStream (text payload : string) : Prop :=
  exists pre event data post,
    streamLines text = (pre ++ event :: data :: post)%list /\
    (forall l, In l pre -> decisiveEvent l = false) /\
    completeEvent event = true /\
    dataLine data = true /\
    JsString.trim (JsText.substringFrom 5 data) = payload.

(** A stream with no complete event and no error event. *)
Definition idleStream (text : string) : Prop :=
  forall l, In l (streamLines text) -> decisiveEvent l = false.

(** The space answers the two requests made with [token] with the stream
    [text], whatever happened before. *)
Definition answersWith {V R S : Type} (space : Space V R S) (token : string) (text : string)
    : Prop :=
  forall s, exists event_id s1 s2,
    postCall space (getAuthHeaders (Some token)) s = (Resolved event_id, s1) /\
    getResult space (getAuthHeaders (Some token)) event_id s1 = (Resolved text, s2).

(** A task status other than SUCCEED, FAILED and CANCELED: the task is still
    pending or running. *)
Definition unsettled (taskStatus : TaskStatus) : bool :=
  negb (bool_decide (task_status taskStatus = Some "SUCCEED")) &&
  negb (bool_decide (task_status taskStatus = Some "FAILED")) &&
  negb (bool_decide (task_status taskStatus = Some "CANCELED")).

(** [n] task checks in a row, from state [s] to state [s'], all answered with
    an unsettled status. *)
Inductive unsettledChecks {S : Type} (api : MsApi S) (taskId token : string)
    : nat -> S -> S -> Prop :=
| unsettled_none s : unsettledChecks api taskId token 0 s s
| unsettled_more n s s1 s2 taskStatus :
    checkTaskStatus api taskId token s = (Resolved (Some taskStatus), s1) ->
    unsettled taskStatus = true ->
    unsettledChecks api taskId token n s1 s2 ->
    unsettledChecks api taskId token (Datatypes.S n) s s2.

(** A string of commas and white space only. *)
Fixpoint blank (s : string) : bool :=
  match s with
  | EmptyString => true
  | String c s' => (Ascii.eqb c ","%char || JsString.isWhiteSpace c) && blank s'
  end.

(** The messages that the services build from an HTTP status are quota
    errors exactly for the status 429. *)
Definition statusMessagesAgree (status : nat) : bool :=
  Bool.eqb (isQuotaError ModelScope
              (newError ("Model Scope Task Check Error: " ++ decimal status)))
           (Nat.eqb status 429) &&
  Bool.eqb (isQuotaError ModelScope
              (newError ("Model Scope API Error: " ++ decimal status)))
           (Nat.eqb status 429) &&
  Bool.eqb (isQuotaError Gitee
              (newError ("Gitee AI API Error: " ++ decimal status)))
           (Nat.eqb status 429).

(** ** Sample inputs *)

Module Sample.

(** 2026-11-02T18:00:00Z, which is 02:00 on 2026-11-03 in Beijing. *)
Definition evening : Z := 1793642400000.

(** A browser in the UTC zone holding the token list [cfg] of provider [p]
    and no status record. *)
Definition browser (p : Provider) (cfg : string) : Env :=
  {| localStorage := Some {[ TOKEN_STORAGE_KEY p := cfg ]};
     now := evening;
     timezoneOffset := 0 |}.

(** A page rendered where [localStorage] is undefined. *)
Definition server : Env :=
  {| localStorage := None; now := evening; timezoneOffset := 0 |}.

(** The record written on 2026-11-02 after token A ran out. *)
Definition yesterdayRecord : TokenStatusStore :=
  {| date := "2026-11-02"; exhausted := {[ "A" := true ]} |}.

(** A browser in Beijing ([getTimezoneOffset()] is -480) holding the single
    Model Scope token A and [yesterdayRecord]. *)
Definition beijingBrowser {J : Json} : Env :=
  {| localStorage := Some (<[ "ms_token_status" := JSON_stringify yesterdayRecord ]>
                            {[ "msToken" := "A" ]});
     now := evening;
     timezoneOffset := -480 |}.

(** A browser holding a status item that is not JSON. *)
Definition garbled : Env :=
  {| localStorage := Some {[ "hf_token_status" := "{date:" ]};
     now := evening;
     timezoneOffset := 0 |}.

(** A browser set to Beijing time at the same instant, holding one Model
    Scope token and no status record. *)
Definition beijingFresh : Env :=
  {| localStorage := Some {[ "msToken" := "A" ]};
     now := evening;
     timezoneOffset := -480 |}.

(** Every call is answered with HTTP 429. *)
Definition rateLimited : Operation string unit :=
  fun _ s => (Rejected {| message := Some "Model Scope API Error: 429"; status := Some 429 |}, s).

(** Only token [good] is accepted; the others are answered with HTTP 429. *)
Definition onlyAccepts (good : string) : Operation string unit :=
  fun token s =>
    match token with
    | Some t =>
        if String.eqb t good then (Resolved "image", s)
        else (Rejected (newError "Model Scope API Error: 429"), s)
    | None => (Rejected (newError "error_api_connection"), s)
    end.

(** The response never has the expected shape. *)
Definition malformed : Operation string unit :=
  fun _ s => (Rejected (newError "error_invalid_response"), s).

End Sample.

(** ** Sample services *)

Module Scenario.

(** A stream that ends with an error event. *)
Definition failedStream : string :=
  JsText.joinLines ["event: heartbeat"; "data: null"; "event: error"; "data: null"].

(** A stream that ends with a complete event and its data. *)
Definition doneStream : string :=
  JsText.joinLines ["event: generating"; "data: null"; "event: complete";
                    "data: [{url: 'https://space/file.png'}]"].

(** A stream cut before any complete or error event. *)
Definition cutStream : string :=
  JsText.joinLines ["event: heartbeat"; "data: null"].

(** A space that answers token [t1] with [failedStream], token [t3] with
    [cutStream] and every other caller with [doneStream]; the payload of a
    data line is read if it starts with a bracket. *)
Definition space : Space string string unit :=
  {| parseData := fun payload => if String.prefix "[" payload then Some payload else None;
     truthyData := fun _ => true;
     postCall := fun _ s => (Resolved "e1", s);
     getResult := fun headers _ s =>
       match headers !! "Authorization" with
       | Some auth =>
           if String.eqb auth "Bearer t1" then (Resolved failedStream, s)
           else if String.eqb auth "Bearer t3" then (Resolved cutStream, s)
           else (Resolved doneStream, s)
       | None => (Resolved doneStream, s)
       end;
     buildResult := fun data => Resolved data |}.

(** A Model Scope service whose state counts the task checks; the task
    succeeds at the check number [readyAt] (never, if [readyAt] is 0), with
    an image when [withImage] is set. *)
Definition modelScope (readyAt : nat) (withImage : bool) : MsApi nat :=
  {| submitTask := fun _ _ n =>
       (Resolved {| ok := true; status_code := 200;
                    json_body := Resolved (Some {| submit_message := None;
                                                   task_id := Some "task-1" |}) |}, n);
     fetchTask := fun _ _ n =>
       (Resolved {| ok := true; status_code := 200;
                    json_body :=
                      Resolved (Some {| task_status :=
                                          Some (if Nat.eqb (Datatypes.S n) readyAt
                                                then "SUCCEED" else "RUNNING");
                                        output_image :=
                                          if withImage then Some "https://ms/image.png"
                                          else None |}) |}, Datatypes.S n) |}.

(** A Model Scope service that answers every task check with status 503. *)
Definition unavailable : MsApi nat :=
  {| submitTask := fun _ _ n =>
       (Resolved {| ok := true; status_code := 200;
                    json_body := Resolved (Some {| submit_message := None;
                                                   task_id := Some "task-1" |}) |}, n);
     fetchTask := fun _ _ n =>
       (Resolved {| ok := false; status_code := 503;
                    json_body := Rejected (newError "Unexpected token") |}, n) |}.

(** An answer with status 429 and a message in its body. *)
Definition throttled : Response SubmitBody :=
  {| ok := false; status_code := 429;
     json_body := Resolved (Some {| submit_message := Some "Too many requests";
                                    task_id := None |}) |}.

(** An answer with status 429 and a body that cannot be read. *)
Definition throttledNoBody : Response SubmitBody :=
  {| ok := false; status_code := 429; json_body := Rejected (newError "Unexpected token") |}.

(** An answer with status 429 and the body [null]. *)
Definition throttledNull : Response SubmitBody :=
  {| ok := false; status_code := 429; json_body := Resolved None |}.

(** A chat service that answers with status 429. *)
Definition busyChat : string -> string -> unit -> Outcome (Response ChatBody) * unit :=
  fun _ _ s =>
    (Resolved {| ok := false; status_code := 429;
                 json_body := Resolved (Some {| content := None |}) |}, s).

(** A browser in the UTC zone holding the Hugging Face tokens [cfg] and the
    Model Scope and Gitee token [t]. *)
Definition allServices (cfg : string) : Env :=
  {| localStorage := Some (<[ "huggingFaceToken" := cfg ]>
                             (<[ "msToken" := "t" ]> {[ "giteeToken" := "t" ]}));
     now := Sample.evening;
     timezoneOffset := 0 |}.

(** Every call is answered with HTTP 429 after a while: the operation
    settles at a fixed instant of the same evening, in a browser set to UTC,
    and leaves [localStorage] as it found it. *)
Definition slowRateLimited : LiveOperation string unit :=
  fun _ e s =>
    (Rejected (newError "Model Scope API Error: 429"),
     {| localStorage := localStorage e; now := Sample.evening + 5000; timezoneOffset := 0 |},
     s).

(** Every call is answered with HTTP 429, and the call made with token [b]
    settles a day after it was started. *)
Definition overMidnight : LiveOperation string unit :=
  fun token e s =>
    (Rejected (newError "Model Scope API Error: 429"),
     if bool_decide (token = Some "b")
     then {| localStorage := localStorage e; now := now e + 86400000;
             timezoneOffset := timezoneOffset e |}
     else e,
     s).

End Scenario.

(** * Properties *)

(** ** Strings *)

Module JsStringFacts.
Import JsString.

Lemma prefix_spec (a s : string) :
  String.prefix a s = true <-> exists post, s = a ++ post.
Proof.
  revert a; induction s as [|c s IH]; intros [|b a]; simpl.
  - split; [exists EmptyString; reflexivity | reflexivity].
  - split; [discriminate | intros [post H]; discriminate].
  - split; [exists (String c s); reflexivity | reflexivity].
  - destruct (ascii_dec b c) as [->|Hne].
    + rewrite IH. split; intros [post H]; exists post.
      * now rewrite H.
      * now injection H.
    + split; [discriminate | intros [post H]; injection H; intros; subst; contradiction].
Qed.

(** [includes] is the substring relation. *)
Lemma includes_spec (s sub : string) :
  includes s sub = true <-> exists pre post, s = pre ++ sub ++ post.
Proof.
  induction s as [|c s IH]; cbn [includes].
  - rewrite orb_false_r, prefix_spec. split.
    + intros [post H]. exists EmptyString, post. exact H.
    + intros [[|b pre] [post H]]; [exists post; exact H | discriminate].
  - rewrite orb_true_iff, prefix_spec, IH. split.
    + intros [[post H] | [pre [post H]]].
      * exists EmptyString, post. exact H.
      * exists (String c pre), post. simpl. now rewrite H.
    + intros [[|b pre] [post H]].
      * left. exists post. exact H.
      * right. simpl in H. injection H as _ H. exists pre, post. exact H.
Qed.

Lemma includes_comma_cons (c : ascii) (s : string) :
  includes (String c s) "," = false ->
  Ascii.eqb c ","%char = false /\ includes s "," = false.
Proof.
  simpl. intros H. apply orb_false_elim in H as [H1 H2]. split; [|exact H2].
  destruct (ascii_dec "," c) as [<-|Hne]; [destruct s; discriminate|].
  apply Ascii.eqb_neq. congruence.
Qed.

Lemma split_not_nil (s : string) : split s <> [].
Proof.
  induction s as [|c s IH]; simpl; [discriminate|].
  destruct (Ascii.eqb c ","); [discriminate|].
  destruct (split s); [contradiction | discriminate].
Qed.

(** A string without a comma is one field. *)
Lemma split_no_comma (x : string) :
  includes x "," = false -> split x = [x].
Proof.
  induction x as [|c x IH]; intros H; [reflexivity|].
  apply includes_comma_cons in H as [Hc Hx]. simpl. rewrite Hc, (IH Hx). reflexivity.
Qed.

Lemma split_field_comma (x rest : string) :
  includes x "," = false ->
  split (x ++ String ","%char rest) = x :: split rest.
Proof.
  induction x as [|c x IH]; intros H; [reflexivity|].
  apply includes_comma_cons in H as [Hc Hx]. simpl. rewrite Hc, (IH Hx). reflexivity.
Qed.

(** [split] undoes [join] on comma-free fields. *)
Lemma split_join (l : list string) :
  l <> [] ->
  Forall (fun t => includes t "," = false) l ->
  split (join l) = l.
Proof.
  induction l as [|x l IH]; intros Hne Hall; [contradiction|].
  inversion Hall as [|? ? Hx Hl]; subst.
  destruct l as [|y l].
  - simpl. now apply split_no_comma.
  - change (join (x :: y :: l)) with (x ++ String ","%char (join (y :: l))).
    rewrite split_field_comma by exact Hx.
    rewrite IH; [reflexivity | discriminate | exact Hl].
Qed.

Lemma join_empty (l : list string) :
  Forall (fun t => t <> EmptyString) l -> join l = EmptyString -> l = [].
Proof.
  destruct l as [|x l]; [reflexivity|].
  intros Hall H. inversion Hall as [|? ? Hx _]; subst.
  destruct l as [|y l]; simpl in H; [contradiction|].
  destruct x; [contradiction | discriminate].
Qed.

Lemma falsy_spec (s : string) : falsy s = true <-> s = EmptyString.
Proof. unfold falsy. apply String.eqb_eq. Qed.

Lemma falsy_false (s : string) : falsy s = false <-> s <> EmptyString.
Proof. unfold falsy. apply String.eqb_neq. Qed.

Lemma length_pos (s : string) : Nat.ltb 0 (String.length s) = negb (falsy s).
Proof. destruct s; reflexivity. Qed.

End JsStringFacts.

(** ** Trimming and splitting *)

Module TokenListFacts.
Import JsString.

Lemma no_comma_cons (c : ascii) (s : string) :
  Ascii.eqb c ","%char = false -> includes s "," = false ->
  includes (String c s) "," = false.
Proof.
  intros Hc Hs. cbn [includes]. rewrite Hs, orb_false_r.
  destruct (String.prefix "," (String c s)) eqn:Hp; [|reflexivity].
  apply JsStringFacts.prefix_spec in Hp as [post Hp]. simpl in Hp.
  injection Hp as -> _. discriminate.
Qed.

Lemma split_pieces_no_comma (s : string) :
  Forall (fun x => includes x "," = false) (split s).
Proof.
  induction s as [|c s IH]; simpl; [repeat constructor|].
  destruct (Ascii.eqb c ",") eqn:Hc; [constructor; [reflexivity | exact IH]|].
  destruct (split s) as [|x xs]; [repeat constructor; now apply no_comma_cons|].
  inversion IH as [|? ? Hx Hxs]; subst. constructor; [|exact Hxs].
  now apply no_comma_cons.
Qed.

Lemma trimStart_no_comma (s : string) :
  includes s "," = false -> includes (trimStart s) "," = false.
Proof.
  induction s as [|c s IH]; intros H; [reflexivity|].
  simpl. destruct (isWhiteSpace c); [|exact H].
  apply IH. now apply JsStringFacts.includes_comma_cons in H.
Qed.

Lemma trimEnd_no_comma (s : string) :
  includes s "," = false -> includes (trimEnd s) "," = false.
Proof.
  induction s as [|c s IH]; intros H; [reflexivity|].
  apply JsStringFacts.includes_comma_cons in H as [Hc Hs]. specialize (IH Hs).
  simpl. destruct (trimEnd s) as [|d r].
  - destruct (isWhiteSpace c); [reflexivity | now apply no_comma_cons].
  - now apply no_comma_cons.
Qed.

Lemma trimStart_clean (s : string) : startsClean (trimStart s) = true.
Proof.
  induction s as [|c s IH]; [reflexivity|].
  simpl. destruct (isWhiteSpace c) eqn:Hc; [exact IH | simpl; now rewrite Hc].
Qed.

Lemma trimStart_id (s : string) : startsClean s = true -> trimStart s = s.
Proof.
  destruct s as [|c s]; [reflexivity|]. simpl. intros H.
  apply negb_true_iff in H. now rewrite H.
Qed.

Lemma trimEnd_clean (s : string) : startsClean s = true -> startsClean (trimEnd s) = true.
Proof.
  destruct s as [|c s]; [reflexivity|]. simpl. intros H.
  destruct (trimEnd s); [|exact H].
  apply negb_true_iff in H. rewrite H. simpl. now rewrite H.
Qed.

Lemma trimEnd_idem (s : string) : trimEnd (trimEnd s) = trimEnd s.
Proof.
  induction s as [|c s IH]; [reflexivity|].
  simpl. destruct (trimEnd s) as [|d r] eqn:Hr.
  - destruct (isWhiteSpace c) eqn:Hc; [reflexivity|]. simpl. now rewrite Hc.
  - change (trimEnd (String c (String d r)))
      with (match trimEnd (String d r) with
            | EmptyString => if isWhiteSpace c then EmptyString else String c EmptyString
            | String d' r' => String c (String d' r')
            end).
    now rewrite IH.
Qed.

(** Trimming twice is trimming once. *)
Lemma trim_idem (s : string) : trim (trim s) = trim s.
Proof.
  unfold trim.
  rewrite (trimStart_id (trimEnd (trimStart s))).
  - apply trimEnd_idem.
  - apply trimEnd_clean, trimStart_clean.
Qed.

Lemma trim_no_comma (s : string) :
  includes s "," = false -> includes (trim s) "," = false.
Proof. intros H. unfold trim. now apply trimEnd_no_comma, trimStart_no_comma. Qed.

Lemma trim_allWhiteSpace (s : string) : allWhiteSpace s = true -> trim s = EmptyString.
Proof.
  unfold trim. induction s as [|c s IH]; [reflexivity|].
  simpl. intros H. apply andb_true_iff in H as [Hc Hs]. rewrite Hc. now apply IH.
Qed.

Lemma split_blank (s : string) :
  blank s = true -> Forall (fun x => allWhiteSpace x = true) (split s).
Proof.
  induction s as [|c s IH]; simpl; [repeat constructor|].
  intros H. apply andb_true_iff in H as [Hc Hs]. specialize (IH Hs).
  destruct (Ascii.eqb c ",") eqn:Hcomma; [constructor; [reflexivity | exact IH]|].
  simpl in Hc.
  destruct (split s) as [|x xs]; [repeat constructor; simpl; now rewrite Hc|].
  inversion IH as [|? ? Hx Hxs]; subst. constructor; [|exact Hxs].
  simpl. now rewrite Hc, Hx.
Qed.

Lemma trimStart_split (s : string) :
  exists pre, s = pre ++ trimStart s /\ allWhiteSpace pre = true.
Proof.
  induction s as [|c s (pre & Hs & Hp)]; [now exists EmptyString|].
  simpl. destruct (isWhiteSpace c) eqn:Hc.
  - exists (String c pre). split.
    + change (String c pre ++ trimStart s) with (String c (pre ++ trimStart s)).
      now rewrite <- Hs.
    + simpl. now rewrite Hc, Hp.
  - now exists EmptyString.
Qed.

Lemma trimEnd_split (s : string) :
  exists post, s = trimEnd s ++ post /\ allWhiteSpace post = true.
Proof.
  induction s as [|c s (post & Hs & Hp)]; [now exists EmptyString|].
  simpl. destruct (trimEnd s) as [|d r] eqn:Ht.
  - change (EmptyString ++ post) with post in Hs. subst post.
    destruct (isWhiteSpace c) eqn:Hc.
    + exists (String c s). split; [reflexivity|]. simpl. now rewrite Hc, Hp.
    + exists s. split; [reflexivity | exact Hp].
  - exists post. split; [|exact Hp].
    change (String c (String d r) ++ post) with (String c (String d r ++ post)).
    now rewrite <- Hs.
Qed.

Lemma trimEnd_endsClean (s : string) : endsClean (trimEnd s) = true.
Proof.
  induction s as [|c s IH]; [reflexivity|].
  simpl. destruct (trimEnd s) as [|d r] eqn:Ht.
  - destruct (isWhiteSpace c) eqn:Hc; [reflexivity|]. simpl. now rewrite Hc.
  - exact IH.
Qed.

Lemma trimEnd_id (s : string) : endsClean s = true -> trimEnd s = s.
Proof.
  induction s as [|c s IH]; [reflexivity|].
  destruct s as [|d r].
  - simpl. intros H. apply negb_true_iff in H. now rewrite H.
  - intros H.
    change (trimEnd (String c (String d r)))
      with (match trimEnd (String d r) with
            | EmptyString => if isWhiteSpace c then EmptyString else String c EmptyString
            | String d' r' => String c (String d' r')
            end).
    now rewrite (IH H).
Qed.

Lemma trim_id (t : string) :
  startsClean t = true -> endsClean t = true -> trim t = t.
Proof. intros H1 H2. unfold trim. rewrite (trimStart_id t H1). now apply trimEnd_id. Qed.

Lemma append_assoc (a b c : string) : (a ++ b) ++ c = a ++ (b ++ c).
Proof.
  induction a as [|x a IH]; [reflexivity|].
  change (String x ((a ++ b) ++ c) = String x (a ++ (b ++ c))). now rewrite IH.
Qed.

Lemma allWhiteSpace_app (a b : string) :
  allWhiteSpace (a ++ b) = allWhiteSpace a && allWhiteSpace b.
Proof.
  induction a as [|x a IH]; [reflexivity|].
  change (allWhiteSpace (String x (a ++ b)) = allWhiteSpace (String x a) && allWhiteSpace b).
  simpl. now rewrite IH, andb_assoc.
Qed.

(** [trim] removes the white space at both ends and nothing else. *)
Lemma trim_Trimmed (s : string) : Trimmed s (trim s).
Proof.
  destruct (trimStart_split s) as (pre & Hs & Hpre).
  destruct (trimEnd_split (trimStart s)) as (post & Ht & Hpost).
  exists pre, post. unfold trim. split; [|split; [exact Hpre|split; [exact Hpost|split]]].
  - now rewrite <- Ht.
  - apply trimEnd_clean, trimStart_clean.
  - apply trimEnd_endsClean.
Qed.

Lemma trim_empty (s : string) : falsy (trim s) = allWhiteSpace s.
Proof.
  destruct (allWhiteSpace s) eqn:H.
  - now rewrite (trim_allWhiteSpace s H).
  - apply JsStringFacts.falsy_false. intros He.
    destruct (trim_Trimmed s) as (pre & post & Hs & Hpre & Hpost & _).
    rewrite He in Hs. change (EmptyString ++ post) with post in Hs.
    rewrite Hs, allWhiteSpace_app, Hpre, Hpost in H. discriminate.
Qed.

(** Splitting on commas loses nothing: the fields joined with commas are the
    text again. *)
Lemma join_split (s : string) : join (split s) = s.
Proof.
  induction s as [|c s IH]; [reflexivity|].
  simpl. destruct (Ascii.eqb c ",") eqn:Hc.
  - apply Ascii.eqb_eq in Hc. subst c.
    destruct (split s) as [|x xs] eqn:Hs; [now apply JsStringFacts.split_not_nil in Hs|].
    change (join (EmptyString :: x :: xs)) with (String "," (join (x :: xs))).
    now rewrite IH.
  - destruct (split s) as [|x xs] eqn:Hs; [now apply JsStringFacts.split_not_nil in Hs|].
    destruct xs as [|y ys].
    + simpl in IH. simpl. now rewrite IH.
    + change (join (String c x :: y :: ys)) with (String c (x ++ String "," (join (y :: ys)))).
      change (join (x :: y :: ys)) with (x ++ String "," (join (y :: ys))) in IH.
      now rewrite IH.
Qed.

(** The entries kept are the fields that are not white space only, each
    without the white space at its two ends, in the order of the fields. *)
Lemma tokens_of_fields (fields : list string) :
  Forall2 Trimmed
    (List.filter (fun f => negb (allWhiteSpace f)) fields)
    (List.filter (fun t => Nat.ltb 0 (String.length t)) (map trim fields)).
Proof.
  induction fields as [|f fields IH]; [constructor|].
  simpl. rewrite JsStringFacts.length_pos, trim_empty.
  destruct (allWhiteSpace f); simpl; [exact IH|].
  constructor; [apply trim_Trimmed | exact IH].
Qed.

End TokenListFacts.

(** ** Dates *)

Example isoDate_epoch : JsDate.isoDate 0 = "1970-01-01".
Proof. reflexivity. Qed.

Example isoDate_before_epoch : JsDate.isoDate (-1) = "1969-12-31".
Proof. reflexivity. Qed.

Example isoDate_leap_day : JsDate.isoDate 951868799000 = "2000-02-29".
Proof. reflexivity. Qed.

Example isoDate_evening : JsDate.isoDate Sample.evening = "2026-11-02".
Proof. reflexivity. Qed.

Example trim_both_ends : JsString.trim "  a b  " = "a b".
Proof. reflexivity. Qed.

Example split_keeps_empty_fields : JsString.split "a,,b," = ["a"; ""; "b"; ""].
Proof. reflexivity. Qed.

(** ** Token store *)

Section StoreFacts.
Context {J : Json}.

Lemma key_disjoint (p q : Provider) : TOKEN_STATUS_KEY q <> TOKEN_STORAGE_KEY p.
Proof. destruct p, q; discriminate. Qed.

Lemma getDateString_save (p q : Provider) (store : TokenStatusStore) (e : Env) :
  getDateString p (saveTokenStatusStore q store e) = getDateString p e.
Proof. unfold saveTokenStatusStore. destruct (localStorage e); reflexivity. Qed.

Lemma getTokens_save (p q : Provider) (ri : RawInput) (store : TokenStatusStore) (e : Env) :
  getTokens p ri (saveTokenStatusStore q store e) = getTokens p ri e.
Proof.
  unfold getTokens, saveTokenStatusStore.
  destruct ri; try reflexivity.
  destruct (localStorage e) as [ls|] eqn:Hls; simpl; [|now rewrite Hls].
  rewrite lookup_insert_ne by apply key_disjoint. reflexivity.
Qed.

Lemma getTokens_mark (p q : Provider) (ri : RawInput) (t : string) (e : Env) :
  getTokens p ri (markTokenExhausted q t e) = getTokens p ri e.
Proof. apply getTokens_save. Qed.

Lemma getDateString_mark (p q : Provider) (t : string) (e : Env) :
  getDateString p (markTokenExhausted q t e) = getDateString p e.
Proof. apply getDateString_save. Qed.

(** Every token of the parsed list is a non-empty string. *)
Lemma getTokens_truthy (p : Provider) (ri : RawInput) (e : Env) (t : string) :
  In t (getTokens p ri e) -> JsString.falsy t = false.
Proof.
  unfold getTokens.
  destruct (match ri with
            | undefined => _
            | null => None
            | raw s => Some s
            end) as [input|]; [|intros []].
  destruct (JsString.falsy input); [intros []|].
  intros H. apply filter_In in H as [_ H].
  rewrite JsStringFacts.length_pos in H. now apply negb_true_iff.
Qed.

(** Tokens are read from [localStorage]: a non-empty list means it exists. *)
Lemma getTokens_available (p : Provider) (e : Env) :
  getTokens p undefined e <> [] -> exists ls, localStorage e = Some ls.
Proof.
  unfold getTokens. destruct (localStorage e) as [ls|]; [eauto|].
  simpl. intros H. contradiction.
Qed.

(** Whatever is persisted, the record that is loaded carries the current
    day. *)
Lemma load_date (p : Provider) (e : Env) :
  date (getTokenStatusStore p e) = getDateString p e.
Proof.
  unfold getTokenStatusStore.
  destruct (localStorage e) as [ls|]; [|reflexivity].
  destruct (ls !! TOKEN_STATUS_KEY p) as [item|]; [|reflexivity].
  destruct (JsString.falsy item); [reflexivity|].
  destruct (JSON_parse item) as [[| |store]|]; try reflexivity.
  destruct (String.eqb (date store) (getDateString p e)) eqn:Hd; [|reflexivity].
  now apply String.eqb_eq.
Qed.

Context {JL : JsonLaws J}.

(** A record saved for the current day is the record loaded next. *)
Lemma load_save (p : Provider) (store : TokenStatusStore) (e : Env) :
  localStorage e <> None ->
  date store = getDateString p e ->
  getTokenStatusStore p (saveTokenStatusStore p store e) = store.
Proof.
  intros Hls Hd.
  unfold getTokenStatusStore at 1.
  rewrite getDateString_save. unfold saveTokenStatusStore.
  destruct (localStorage e) as [ls|]; [|contradiction]. simpl.
  rewrite lookup_insert_eq.
  pose proof (JSON_stringify_truthy store) as Hne.
  apply JsStringFacts.falsy_false in Hne. rewrite Hne.
  rewrite JSON_parse_stringify.
  apply String.eqb_eq in Hd. rewrite Hd. reflexivity.
Qed.

Lemma load_mark (p : Provider) (t : string) (e : Env) :
  localStorage e <> None ->
  getTokenStatusStore p (markTokenExhausted p t e) =
  {| date := date (getTokenStatusStore p e);
     exhausted := setExhausted t (exhausted (getTokenStatusStore p e)) |}.
Proof.
  intros Hls. unfold markTokenExhausted.
  apply load_save; [exact Hls|]. simpl. apply load_date.
Qed.

(** Reading after [exhausted[t] = true]. *)
Lemma isExhausted_set (t x : string) (m : gmap string bool) :
  match setExhausted t m !! x with
  | Some b => b
  | None => existsb (String.eqb x) objectPrototype
  end =
  String.eqb x t ||
  match m !! x with
  | Some b => b
  | None => existsb (String.eqb x) objectPrototype
  end.
Proof.
  unfold setExhausted.
  destruct (String.eqb x t) eqn:Hx.
  - apply String.eqb_eq in Hx. subst x.
    destruct (m !! t) as [b|] eqn:Hm.
    + now rewrite lookup_insert_eq.
    + destruct (String.eqb t "__proto__") eqn:Hproto.
      * apply String.eqb_eq in Hproto. subst t. now rewrite Hm.
      * now rewrite lookup_insert_eq.
  - apply String.eqb_neq in Hx.
    destruct (m !! t) as [b|]; [|destruct (String.eqb t "__proto__")];
      rewrite ?lookup_insert_ne by congruence; reflexivity.
Qed.

(** A second [exhausted[t] = true] changes nothing. *)
Lemma setExhausted_idem (t : string) (m : gmap string bool) :
  setExhausted t (setExhausted t m) = setExhausted t m.
Proof.
  assert (Hins : setExhausted t (<[t := true]> m) = <[t := true]> m).
  { unfold setExhausted. rewrite lookup_insert_eq. apply insert_insert_eq. }
  unfold setExhausted at 2 3.
  destruct (m !! t) as [b|] eqn:Hm; [exact Hins|].
  destruct (String.eqb t "__proto__") eqn:Hproto; [|exact Hins].
  unfold setExhausted. now rewrite Hm, Hproto.
Qed.

(** Marking [t] adds [t] to the exhausted tokens and changes no other. *)
Lemma isExhausted_mark (p : Provider) (t x : string) (e : Env) :
  localStorage e <> None ->
  isExhausted (getTokenStatusStore p (markTokenExhausted p t e)) x =
  String.eqb x t || isExhausted (getTokenStatusStore p e) x.
Proof.
  intros Hls. rewrite load_mark by exact Hls. unfold isExhausted. simpl.
  apply isExhausted_set.
Qed.

Lemma localStorage_mark (p : Provider) (t : string) (e : Env) :
  localStorage e <> None -> localStorage (markTokenExhausted p t e) <> None.
Proof.
  unfold markTokenExhausted, saveTokenStatusStore.
  destruct (localStorage e); [discriminate | contradiction].
Qed.

End StoreFacts.

(** ** Selection *)

Section SelectionFacts.
Context {J : Json}.

Lemma find_head_filter {A : Type} (f : A -> bool) (l : list A) :
  List.find f l = head (List.filter f l).
Proof.
  induction l as [|x l IH]; [reflexivity|].
  simpl. destruct (f x); [reflexivity | exact IH].
Qed.

(** [getNextAvailableToken] returns the first pending token. *)
Lemma next_pending (p : Provider) (e : Env) :
  getNextAvailableToken p e = head (pendingTokens p e).
Proof.
  unfold getNextAvailableToken, pendingTokens.
  rewrite find_head_filter.
  destruct (List.filter _ _) as [|t l] eqn:Hf; [reflexivity|].
  simpl. assert (Hin : In t (getTokens p undefined e)).
  { eapply proj1. apply filter_In. rewrite Hf. now left. }
  now rewrite (getTokens_truthy _ _ _ _ Hin).
Qed.

Lemma filter_filter_and {A : Type} (f g : A -> bool) (l : list A) :
  List.filter (fun x => f x && g x) l = List.filter f (List.filter g l).
Proof.
  induction l as [|x l IH]; [reflexivity|].
  simpl. destruct (g x); simpl; destruct (f x); simpl; rewrite ?IH; reflexivity.
Qed.

Lemma filter_all {A : Type} (f : A -> bool) (l : list A) :
  (forall x, In x l -> f x = true) -> List.filter f l = l.
Proof.
  induction l as [|x l IH]; intros H; [reflexivity|].
  simpl. rewrite (H x) by now left. f_equal. apply IH. intros y Hy. apply H. now right.
Qed.

Lemma filter_none {A : Type} (f : A -> bool) (l : list A) :
  (forall x, In x l -> f x = false) -> List.filter f l = [].
Proof.
  induction l as [|x l IH]; intros H; [reflexivity|].
  simpl. rewrite (H x) by now left. apply IH. intros y Hy. apply H. now right.
Qed.

(** Removing a token that does not occur changes nothing. *)
Lemma filter_neq_notin (t : string) (l : list string) :
  ~ In t l -> List.filter (fun x => negb (String.eqb x t)) l = l.
Proof.
  intros H. apply filter_all. intros x Hx. apply negb_true_iff, String.eqb_neq.
  intros ->. contradiction.
Qed.

Lemma filter_length_le {A : Type} (f : A -> bool) (l : list A) :
  (length (List.filter f l) <= length l)%nat.
Proof.
  induction l as [|x l IH]; simpl; [lia|]. destruct (f x); simpl; lia.
Qed.

Context {JL : JsonLaws J}.

(** Marking [t] removes every occurrence of [t] from the pending tokens and
    nothing else. *)
Lemma pending_mark (p : Provider) (t : string) (e : Env) :
  localStorage e <> None ->
  pendingTokens p (markTokenExhausted p t e) =
  List.filter (fun x => negb (String.eqb x t)) (pendingTokens p e).
Proof.
  intros Hls. unfold pendingTokens. rewrite getTokens_mark.
  rewrite <- filter_filter_and. apply filter_ext. intros x.
  rewrite isExhausted_mark by exact Hls. now rewrite negb_orb.
Qed.

End SelectionFacts.

(** ** Retry loop *)

Section LoopFacts.
Context {J : Json} {T S : Type}.
Variable p : Provider.
Variable operation : Operation T S.

Lemma loop_none (budget a : nat) (last : option Error) (inv : list (option string))
    (e : Env) (s : S) :
  pendingTokens p e = [] ->
  retryLoop p operation (Datatypes.S budget) a last inv e s =
  mkRun (Rejected (newError (QUOTA_ERROR_KEY p))) (Datatypes.S a) inv e s.
Proof. intros H. simpl. rewrite next_pending, H. reflexivity. Qed.

Lemma loop_resolved (budget a : nat) (last : option Error) (inv : list (option string))
    (e : Env) (s s' : S) (t : string) (rest : list string) (value : T) :
  pendingTokens p e = t :: rest ->
  operation (Some t) s = (Resolved value, s') ->
  retryLoop p operation (Datatypes.S budget) a last inv e s =
  mkRun (Resolved value) (Datatypes.S a) (inv ++ [Some t])%list e s'.
Proof. intros H Hop. simpl. rewrite next_pending, H. simpl. rewrite Hop. reflexivity. Qed.

Lemma loop_quota (budget a : nat) (last : option Error) (inv : list (option string))
    (e : Env) (s s' : S) (t : string) (rest : list string) (error : Error) :
  pendingTokens p e = t :: rest ->
  operation (Some t) s = (Rejected error, s') ->
  isQuotaError p error = true ->
  retryLoop p operation (Datatypes.S budget) a last inv e s =
  retryLoop p operation budget (Datatypes.S a) (Some error) (inv ++ [Some t])%list
            (markTokenExhausted p t e) s'.
Proof.
  intros H Hop Hq. simpl. rewrite next_pending, H. simpl. rewrite Hop, Hq.
  assert (Hin : In t (getTokens p undefined e)).
  { eapply proj1. apply filter_In. unfold pendingTokens in H. rewrite H. now left. }
  rewrite (getTokens_truthy _ _ _ _ Hin). reflexivity.
Qed.

Lemma loop_hard (budget a : nat) (last : option Error) (inv : list (option string))
    (e : Env) (s s' : S) (t : string) (rest : list string) (error : Error) :
  pendingTokens p e = t :: rest ->
  operation (Some t) s = (Rejected error, s') ->
  isQuotaError p error = false ->
  retryLoop p operation (Datatypes.S budget) a last inv e s =
  mkRun (Rejected error) (Datatypes.S a) (inv ++ [Some t])%list e s'.
Proof. intros H Hop Hq. simpl. rewrite next_pending, H. simpl. rewrite Hop, Hq. reflexivity. Qed.

(** Each turn of the loop adds one to [attempts] and at most one invocation:
    the loop makes at most [budget] of either. *)
Lemma loop_bounded (budget a : nat) (last : option Error) (inv : list (option string))
    (e : Env) (s : S) :
  let r := retryLoop p operation budget a last inv e s in
  (attempts r <= a + budget)%nat /\
  (length (invoked r) <= length inv + budget)%nat /\
  (length (invoked r) + a <= attempts r + length inv)%nat.
Proof.
  revert a last inv e s. induction budget as [|b IH]; intros a last inv e s; cbv zeta.
  - simpl. lia.
  - cbn [retryLoop].
    destruct (getNextAvailableToken p e) as [t|]; [|simpl; lia].
    destruct (operation (Some t) s) as [[v|err] s'].
    + simpl. rewrite length_app. simpl. lia.
    + destruct (isQuotaError p err && negb (JsString.falsy t)).
      * specialize (IH (Datatypes.S a) (Some err) (inv ++ [Some t])%list
                       (markTokenExhausted p t e) s').
        cbv zeta in IH. rewrite length_app in IH. cbn [List.length] in IH. lia.
      * simpl. rewrite length_app. simpl. lia.
Qed.

Context {JL : JsonLaws J}.

(** When every pending token makes the operation throw a quota error, the
    loop marks them one after the other and then finds none left. *)
Lemma loop_all_quota (n : nat) :
  forall (budget a : nat) (last : option Error) (inv : list (option string)) (e : Env) (s : S),
  localStorage e <> None ->
  (forall t, In t (pendingTokens p e) -> quotaFails p operation t) ->
  (length (pendingTokens p e) <= n)%nat ->
  (n < budget)%nat ->
  let r := retryLoop p operation budget a last inv e s in
  outcome r = Rejected (newError (QUOTA_ERROR_KEY p)) /\
  pendingTokens p (envAfter r) = [] /\
  getTokens p undefined (envAfter r) = getTokens p undefined e /\
  (attempts r <= a + 1 + length (pendingTokens p e))%nat /\
  (NoDup (pendingTokens p e) ->
   attempts r = (a + 1 + length (pendingTokens p e))%nat /\
   invoked r = (inv ++ map Some (pendingTokens p e))%list).
Proof.
  induction n as [|n IH]; intros budget a last inv e s Hls Hq Hlen Hb;
    (destruct budget as [|b]; [lia|]);
    destruct (pendingTokens p e) as [|t rest] eqn:Hp; simpl in Hlen; try lia.
  - rewrite loop_none by exact Hp. simpl. rewrite Hp.
    repeat split; try reflexivity; try lia. now rewrite app_nil_r.
  - rewrite loop_none by exact Hp. simpl. rewrite Hp.
    repeat split; try reflexivity; try lia. now rewrite app_nil_r.
  - destruct (Hq t (or_introl eq_refl) s) as (err & s' & Hop & Herr).
    rewrite (loop_quota _ _ _ _ _ _ _ _ _ _ Hp Hop Herr).
    pose proof (pending_mark p t e Hls) as Hp'. rewrite Hp in Hp'. simpl in Hp'.
    rewrite String.eqb_refl in Hp'. simpl in Hp'.
    pose proof (filter_length_le (fun x => negb (String.eqb x t)) rest) as Hle.
    destruct (IH b (Datatypes.S a) (Some err) (inv ++ [Some t])%list
                 (markTokenExhausted p t e) s') as (Ho & Hpe & Htk & Hat & Hnd).
    + now apply localStorage_mark.
    + intros u Hu. apply Hq. right. rewrite Hp' in Hu. now apply filter_In in Hu.
    + rewrite Hp'. lia.
    + lia.
    + rewrite Hp' in Hat, Hnd. rewrite getTokens_mark in Htk.
      split; [exact Ho|]. split; [exact Hpe|]. split; [exact Htk|].
      split; [simpl; lia|].
      intros Hno. apply NoDup_cons in Hno as [Hnotin Hno].
      rewrite list_elem_of_In in Hnotin.
      rewrite (filter_neq_notin _ _ Hnotin) in Hnd.
      destruct (Hnd Hno) as [Ha Hi]. split; [simpl; lia|].
      rewrite Hi. simpl. now rewrite <- app_assoc.
Qed.

End LoopFacts.

Section PrefixFacts.
Context {J : Json} {JL : JsonLaws J} {T S : Type}.
Variable p : Provider.
Variable operation : Operation T S.

Lemma filter_app_cons (f : string -> bool) (pre post : list string) (t : string) :
  f t = true ->
  List.filter f (pre ++ t :: post) = (List.filter f pre ++ t :: List.filter f post)%list.
Proof. intros H. rewrite List.filter_app. simpl. now rewrite H. Qed.

(** When the pending tokens before [t] make the operation throw quota errors
    and [t] makes it return, the loop marks the former and returns at [t]. *)
Lemma loop_quota_prefix (n : nat) :
  forall (budget a : nat) (last : option Error) (inv : list (option string)) (e : Env) (s : S)
         (pre post : list string) (t : string) (value : T),
  localStorage e <> None ->
  pendingTokens p e = (pre ++ t :: post)%list ->
  (forall u, In u pre -> quotaFails p operation u) ->
  succeedsWith operation t value ->
  (length pre <= n)%nat ->
  (n < budget)%nat ->
  let r := retryLoop p operation budget a last inv e s in
  outcome r = Resolved value /\
  getTokens p undefined (envAfter r) = getTokens p undefined e /\
  (forall x, isExhausted (getTokenStatusStore p (envAfter r)) x = true <->
             In x pre \/ isExhausted (getTokenStatusStore p e) x = true) /\
  (attempts r <= a + length pre + 1)%nat /\
  (NoDup pre ->
   attempts r = (a + length pre + 1)%nat /\
   invoked r = (inv ++ map Some (pre ++ [t]))%list).
Proof.
  induction n as [|n IH]; intros budget a last inv e s pre post t value Hls Hp Hq Hs Hlen Hb;
    (destruct budget as [|b]; [lia|]);
    destruct pre as [|u pre]; simpl in Hlen; try lia.
  - destruct (Hs s) as [s' Hop]. simpl in Hp.
    rewrite (loop_resolved _ _ _ _ _ _ _ _ _ _ _ _ Hp Hop). simpl.
    repeat split; try tauto; lia.
  - destruct (Hs s) as [s' Hop]. simpl in Hp.
    rewrite (loop_resolved _ _ _ _ _ _ _ _ _ _ _ _ Hp Hop). simpl.
    repeat split; try tauto; lia.
  - destruct (Hq u (or_introl eq_refl) s) as (err & s' & Hop & Herr).
    simpl in Hp.
    rewrite (loop_quota _ _ _ _ _ _ _ _ _ _ _ _ Hp Hop Herr).
    assert (Htu : negb (String.eqb t u) = true).
    { apply negb_true_iff, String.eqb_neq. intros ->.
      destruct (Hs s) as [s'' Hop']. congruence. }
    pose proof (pending_mark p u e Hls) as Hp'. rewrite Hp in Hp'. simpl in Hp'.
    rewrite String.eqb_refl in Hp'. simpl in Hp'.
    rewrite (filter_app_cons _ _ _ _ Htu) in Hp'.
    set (keep := fun x => negb (String.eqb x u)) in *.
    pose proof (filter_length_le keep pre) as Hle.
    destruct (IH b (Datatypes.S a) (Some err) (inv ++ [Some u])%list
                 (markTokenExhausted p u e) s' (List.filter keep pre)
                 (List.filter keep post) t value) as (Ho & Htk & Hex & Hat & Hnd).
    + now apply localStorage_mark.
    + exact Hp'.
    + intros x Hx. apply Hq. right. now apply filter_In in Hx.
    + exact Hs.
    + lia.
    + lia.
    + rewrite getTokens_mark in Htk.
      split; [exact Ho|]. split; [exact Htk|]. split; [|split].
      * intros x. rewrite Hex, isExhausted_mark by exact Hls.
        rewrite filter_In, orb_true_iff, String.eqb_eq. unfold keep.
        rewrite negb_true_iff, String.eqb_neq. simpl.
        destruct (String.string_dec x u) as [->|Hne]; [tauto|].
        split; [intros [[H _]|[H|H]] | intros [[H|H]|H]]; try tauto; congruence.
      * simpl. lia.
      * intros Hno. apply NoDup_cons in Hno as [Hnotin Hno].
        rewrite list_elem_of_In in Hnotin.
        unfold keep in Hnd. rewrite (filter_neq_notin _ _ Hnotin) in Hnd.
        destruct (Hnd Hno) as [Ha Hi]. split; [simpl; lia|].
        rewrite Hi. simpl. now rewrite <- app_assoc.
Qed.

End PrefixFacts.

(** ** The wrapper *)

Section RunFacts.
Context {J : Json} {T S : Type}.
Variable p : Provider.
Variable operation : Operation T S.

(** The explicit argument of [getTokens] is read instead of [localStorage]. *)
Lemma getTokens_raw (cfg : string) (e e' : Env) :
  getTokens p (raw cfg) e = getTokens p (raw cfg) e'.
Proof. reflexivity. Qed.

Lemma getTokens_configured (cfg : string) (e : Env) :
  configured p e = Some cfg ->
  getTokens p (raw cfg) e = getTokens p undefined e.
Proof.
  unfold configured, getTokens. destruct (localStorage e) as [ls|]; [|discriminate].
  now intros ->.
Qed.

Lemma run_nonempty (e : Env) (s : S) :
  getTokens p undefined e <> [] ->
  runWithRetry p operation e s =
  retryLoop p operation (length (getTokens p undefined e) + 1) 0 None [] e s.
Proof.
  intros H. unfold runWithRetry.
  destruct (getTokens p undefined e); [contradiction | reflexivity].
Qed.

Lemma pending_fresh (e : Env) :
  (forall t, In t (getTokens p undefined e) ->
             isExhausted (getTokenStatusStore p e) t = false) ->
  pendingTokens p e = getTokens p undefined e.
Proof.
  intros H. apply filter_all. intros t Ht. now rewrite (H t Ht).
Qed.

Lemma pending_nil_all_exhausted (e : Env) :
  pendingTokens p e = [] ->
  List.filter (isExhausted (getTokenStatusStore p e)) (getTokens p undefined e) =
  getTokens p undefined e.
Proof.
  unfold pendingTokens. intros H. apply filter_all. intros t Ht.
  destruct (isExhausted (getTokenStatusStore p e) t) eqn:Hex; [reflexivity|].
  assert (In t []) as [].
  rewrite <- H. apply filter_In. now rewrite Hex.
Qed.

Lemma pending_subset (e : Env) (t : string) :
  In t (pendingTokens p e) -> In t (getTokens p undefined e).
Proof. unfold pendingTokens. intros H. now apply filter_In in H. Qed.

Context {JL : JsonLaws J}.

(** A run on a non-empty list, with an operation that always throws a quota
    error: it ends with the exhausted error and every configured token
    marked; with pairwise distinct pending tokens the counts are exact. *)
Lemma run_all_quota (e : Env) (s : S) (cfg : string) :
  configured p e = Some cfg ->
  getTokens p undefined e <> [] ->
  (forall t, quotaFails p operation t) ->
  let r := runWithRetry p operation e s in
  outcome r = Rejected (newError (QUOTA_ERROR_KEY p)) /\
  exhaustedCount (getTokenStats p cfg (envAfter r)) = length (getTokens p undefined e) /\
  (attempts r <= length (pendingTokens p e) + 1)%nat /\
  (NoDup (pendingTokens p e) ->
   attempts r = (length (pendingTokens p e) + 1)%nat /\
   invoked r = map Some (pendingTokens p e)).
Proof.
  intros Hcfg Hne Hq. cbv zeta. rewrite (run_nonempty e s Hne).
  destruct (getTokens_available p e Hne) as [ls Hls].
  assert (Hlen : (length (pendingTokens p e) <= length (getTokens p undefined e))%nat)
    by apply filter_length_le.
  destruct (loop_all_quota p operation (length (getTokens p undefined e))
              (length (getTokens p undefined e) + 1) 0 None [] e s)
    as (Ho & Hpe & Htk & Hat & Hnd); try lia.
  { congruence. }
  { intros t _. apply Hq. }
  split; [exact Ho|]. split; [|split; [simpl in Hat; lia|]].
  - unfold getTokenStats. cbn [exhaustedCount].
    rewrite (getTokens_raw cfg _ e), (getTokens_configured cfg e Hcfg).
    apply pending_nil_all_exhausted in Hpe. rewrite Htk in Hpe.
    f_equal. exact Hpe.
  - intros Hno. destruct (Hnd Hno) as [Ha Hi]. split; [simpl in Ha; lia | exact Hi].
Qed.

(** A run in which the pending tokens before [t] throw quota errors and [t]
    succeeds. *)
Lemma run_quota_prefix (e : Env) (s : S) (pre post : list string) (t : string) (value : T) :
  pendingTokens p e = (pre ++ t :: post)%list ->
  (forall u, In u pre -> quotaFails p operation u) ->
  succeedsWith operation t value ->
  let r := runWithRetry p operation e s in
  outcome r = Resolved value /\
  getTokens p undefined (envAfter r) = getTokens p undefined e /\
  (forall x, isExhausted (getTokenStatusStore p (envAfter r)) x = true <->
             In x pre \/ isExhausted (getTokenStatusStore p e) x = true) /\
  (attempts r <= length pre + 1)%nat /\
  (NoDup pre ->
   attempts r = (length pre + 1)%nat /\ invoked r = map Some (pre ++ [t])).
Proof.
  intros Hp Hq Hs. cbv zeta.
  assert (Hne : getTokens p undefined e <> []).
  { intros H. unfold pendingTokens in Hp. rewrite H in Hp. destruct pre; discriminate. }
  rewrite (run_nonempty e s Hne).
  destruct (getTokens_available p e Hne) as [ls Hls].
  assert (Hlen : (length (pendingTokens p e) <= length (getTokens p undefined e))%nat)
    by apply filter_length_le.
  rewrite Hp, length_app in Hlen. simpl in Hlen.
  assert (Hav : localStorage e <> None) by congruence.
  exact (loop_quota_prefix p operation (length pre)
           (length (getTokens p undefined e) + 1) 0 None [] e s pre post t value
           Hav Hp Hq Hs (Nat.le_refl _) ltac:(lia)).
Qed.

End RunFacts.

(** ** The bit-string codec meets the laws *)

Lemma unbits_bits (q : positive) : BitJson.unbits (BitJson.bits q) = Some q.
Proof.
  induction q as [q IH|q IH|]; simpl; [now rewrite IH | now rewrite IH | reflexivity].
Qed.

Lemma bits_not_null (q : positive) : String.eqb (BitJson.bits q) "null" = false.
Proof. destruct q; reflexivity. Qed.

Lemma BitJson_laws : JsonLaws BitJson.codec.
Proof.
  split; intros [d ex]; simpl.
  - unfold BitJson.parse, BitJson.stringify. rewrite bits_not_null, unbits_bits.
    simpl. now rewrite decode_encode.
  - unfold BitJson.stringify. destruct (encode _); discriminate.
Qed.

(** ** Quota classification *)

Lemma messageIncludes_spec (error : Error) (sub : string) :
  messageIncludes error sub = true <->
  exists m, message error = Some m /\ JsString.Substring sub m.
Proof.
  unfold messageIncludes, JsString.Substring. destruct (message error) as [m|].
  - rewrite JsStringFacts.includes_spec. split.
    + intros H. exists m. split; [reflexivity | exact H].
    + intros (m' & Hm & H). now injection Hm as ->.
  - split; [discriminate | intros (m & Hm & _); discriminate].
Qed.

Lemma messageIs_spec (error : Error) (s : string) :
  messageIs error s = true <-> message error = Some s.
Proof.
  unfold messageIs. destruct (message error) as [m|].
  - rewrite String.eqb_eq. split; congruence.
  - split; discriminate.
Qed.

Lemma statusIs429_spec (error : Error) :
  statusIs429 error = true <-> status error = Some 429.
Proof.
  unfold statusIs429. destruct (status error) as [n|].
  - rewrite Z.eqb_eq. split; congruence.
  - split; discriminate.
Qed.

Lemma keyword_cons (P : string -> string -> Prop) (k : string) (l : list string) :
  (exists kw m, In kw (k :: l) /\ P kw m) <->
  (exists m, P k m) \/ (exists kw m, In kw l /\ P kw m).
Proof.
  split.
  - intros (kw & m & [<-|Hin] & H); [left; eauto | right; eauto].
  - intros [(m & H)|(kw & m & Hin & H)]; [exists k, m | exists kw, m]; simpl; auto.
Qed.

Lemma keyword_nil (P : string -> string -> Prop) :
  (exists kw m, In kw [] /\ P kw m) <-> False.
Proof. split; [intros (kw & m & [] & _) | intros []]. Qed.

(** C4, as amended: the classifier of each wrapper answers [true] exactly
    when the status is the number 429, or the message contains 429, or the
    message contains one of the wrapper's keywords, each compared character
    for character (so in the casing the keyword is written in); for
    Hugging Face the message may also be equal to [error_quota_exhausted]. *)
Theorem isQuotaError_exact (p : Provider) (error : Error) :
  isQuotaError p error = true <->
  status error = Some 429 \/
  (exists m, message error = Some m /\ JsString.Substring "429" m) \/
  (exists kw m, In kw (keywords p) /\ message error = Some m /\ JsString.Substring kw m) \/
  (p = HuggingFace /\ message error = Some "error_quota_exhausted").
Proof.
  destruct p; unfold isQuotaError, keywords;
    rewrite ?orb_true_iff, ?messageIncludes_spec, ?messageIs_spec, ?statusIs429_spec,
            ?keyword_cons, ?keyword_nil; simpl.
  - tauto.
  - split; [tauto | intros [H|[H|[H|[H _]]]]; [tauto | tauto | tauto | discriminate]].
  - split; [tauto | intros [H|[H|[H|[H _]]]]; [tauto | tauto | tauto | discriminate]].
Qed.

(** C4, as stated, fails: the message "Quota exceeded" contains the Model
    Scope keyword "quota" when letter case is ignored, and the classifier
    answers [false]. *)
Lemma isQuotaError_case_sensitive :
  In "quota" (keywords ModelScope) /\
  JsString.includesAnyCase "Quota exceeded" "quota" = true /\
  isQuotaError ModelScope (newError "Quota exceeded") = false /\
  isQuotaError Gitee (newError "Quota exceeded") = false.
Proof. repeat split; [now left | reflexivity..]. Qed.

(** ** The claims about the wrapper *)

Section WrapperClaims.
Context {J : Json} {T S : Type}.

(** C5: for every provider, every environment (so every configured list, of
    length N) and every operation, a call of the wrapper ends after at most
    N+1 turns of its loop: [attempts] ends at N+1 at most, and the operation
    is invoked at most N+1 times. The wrapper is a total function of the
    operation, so it returns whenever each invocation of the operation
    does. *)
Theorem runWithRetry_bounded (p : Provider) (operation : Operation T S) (e : Env) (s : S) :
  (attempts (runWithRetry p operation e s) <= length (getTokens p undefined e) + 1)%nat /\
  (length (invoked (runWithRetry p operation e s)) <= length (getTokens p undefined e) + 1)%nat.
Proof.
  unfold runWithRetry.
  destruct (Nat.eqb (length (getTokens p undefined e)) 0).
  - destruct (TOKEN_REQUIRED_KEY p); [simpl; lia|].
    destruct (operation None s). simpl. lia.
  - pose proof (loop_bounded p operation (length (getTokens p undefined e) + 1)
                  0 None [] e s) as H.
    cbv zeta in H. simpl in H. lia.
Qed.

(** C3: when the list is not empty and the first invocation of the operation
    (with the token [t] selected first) throws an error that is not
    classified as a quota error, the wrapper throws that same error, having
    made one attempt and one invocation, and leaves [localStorage] (hence
    the exhaustion record) as it was. *)
Theorem hard_failure_aborts (p : Provider) (operation : Operation T S) (e : Env) (s s' : S)
    (t : string) (error : Error) :
  getTokens p undefined e <> [] ->
  getNextAvailableToken p e = Some t ->
  operation (Some t) s = (Rejected error, s') ->
  isQuotaError p error = false ->
  outcome (runWithRetry p operation e s) = Rejected error /\
  attempts (runWithRetry p operation e s) = 1%nat /\
  invoked (runWithRetry p operation e s) = [Some t] /\
  envAfter (runWithRetry p operation e s) = e.
Proof.
  intros Hne Hnext Hop Hq. rewrite (run_nonempty p operation e s Hne).
  rewrite Nat.add_1_r. rewrite next_pending in Hnext.
  destruct (pendingTokens p e) as [|t' rest] eqn:Hp; [discriminate|].
  injection Hnext as ->.
  rewrite (loop_hard p operation _ _ _ _ _ _ _ _ _ _ Hp Hop Hq). simpl. auto.
Qed.

(** C6: with no token configured, the Model Scope and Gitee wrappers throw
    their token-required error without invoking the operation, and the
    Hugging Face wrapper invokes the operation once with [null] and settles
    as it does; [localStorage] is left as it was. *)
Theorem no_token_configured (p : Provider) (operation : Operation T S) (e : Env) (s : S) :
  getTokens p undefined e = [] ->
  envAfter (runWithRetry p operation e s) = e /\
  match p with
  | HuggingFace =>
      invoked (runWithRetry p operation e s) = [None] /\
      (outcome (runWithRetry p operation e s), stateAfter (runWithRetry p operation e s)) =
      operation None s
  | ModelScope =>
      invoked (runWithRetry p operation e s) = [] /\
      outcome (runWithRetry p operation e s) = Rejected (newError "error_ms_token_required")
  | Gitee =>
      invoked (runWithRetry p operation e s) = [] /\
      outcome (runWithRetry p operation e s) = Rejected (newError "error_gitee_token_required")
  end.
Proof.
  intros H. unfold runWithRetry. rewrite H. simpl.
  destruct p; simpl; [destruct (operation None s)|..]; simpl; auto.
Qed.

Context {JL : JsonLaws J}.

(** C1, as amended: for N >= 1 configured tokens that are pairwise distinct
    and of which none is marked exhausted for the current day, and an
    operation that throws a quota error at every invocation, the wrapper
    makes N+1 attempts (N invocations, one per token in order, then a
    selection that finds no token) and throws the exhausted error; after
    that [getTokenStats] counts N exhausted tokens. *)
Theorem all_quota_exhausts (p : Provider) (operation : Operation T S) (e : Env) (s : S)
    (cfg : string) :
  configured p e = Some cfg ->
  getTokens p undefined e <> [] ->
  NoDup (getTokens p undefined e) ->
  (forall t, In t (getTokens p undefined e) ->
             isExhausted (getTokenStatusStore p e) t = false) ->
  (forall t, quotaFails p operation t) ->
  attempts (runWithRetry p operation e s) = (length (getTokens p undefined e) + 1)%nat /\
  invoked (runWithRetry p operation e s) = map Some (getTokens p undefined e) /\
  outcome (runWithRetry p operation e s) = Rejected (newError (QUOTA_ERROR_KEY p)) /\
  exhaustedCount (getTokenStats p cfg (envAfter (runWithRetry p operation e s))) =
  length (getTokens p undefined e).
Proof.
  intros Hcfg Hne Hnd Hfresh Hq.
  destruct (run_all_quota p operation e s cfg Hcfg Hne Hq) as (Ho & Hst & _ & Hex).
  rewrite (pending_fresh p e Hfresh) in Hex. destruct (Hex Hnd) as [Ha Hi]. auto.
Qed.

(** C2, as amended: for configured tokens that are pairwise distinct and of
    which none is marked exhausted for the current day, when the k-th token
    makes the operation return [value] and every token before it makes the
    operation throw a quota error, the wrapper returns [value] after k
    attempts, having invoked the operation with the first k tokens in order,
    and the tokens marked exhausted are the k-1 tokens before the k-th. *)
Theorem kth_token_succeeds (p : Provider) (operation : Operation T S) (e : Env) (s : S)
    (cfg : string) (k : nat) (t : string) (value : T) :
  configured p e = Some cfg ->
  NoDup (getTokens p undefined e) ->
  (forall u, In u (getTokens p undefined e) ->
             isExhausted (getTokenStatusStore p e) u = false) ->
  (1 <= k)%nat ->
  nth_error (getTokens p undefined e) (k - 1) = Some t ->
  (forall u, In u (firstn (k - 1) (getTokens p undefined e)) -> quotaFails p operation u) ->
  succeedsWith operation t value ->
  outcome (runWithRetry p operation e s) = Resolved value /\
  attempts (runWithRetry p operation e s) = k /\
  invoked (runWithRetry p operation e s) = map Some (firstn k (getTokens p undefined e)) /\
  List.filter (isExhausted (getTokenStatusStore p (envAfter (runWithRetry p operation e s))))
              (getTokens p undefined e) = firstn (k - 1) (getTokens p undefined e) /\
  exhaustedCount (getTokenStats p cfg (envAfter (runWithRetry p operation e s))) = (k - 1)%nat.
Proof.
  intros Hcfg Hnd Hfresh Hk Hnth Hpre Hs.
  destruct (nth_error_split _ _ Hnth) as (pre & post & Htok & Hlen).
  assert (Hfirst : firstn (k - 1) (getTokens p undefined e) = pre).
  { rewrite Htok, <- Hlen. apply take_app_length. }
  assert (Hfirstk : firstn k (getTokens p undefined e) = (pre ++ [t])%list).
  { rewrite Htok. replace k with (length (pre ++ [t])) by (rewrite length_app; simpl; lia).
    change (t :: post) with ([t] ++ post)%list. rewrite app_assoc. apply take_app_length. }
  rewrite Hfirst in *. rewrite Hfirstk.
  assert (Hp : pendingTokens p e = (pre ++ t :: post)%list).
  { rewrite (pending_fresh p e Hfresh). exact Htok. }
  assert (Hndpre : NoDup pre).
  { rewrite Htok in Hnd. now apply NoDup_app in Hnd as (H & _ & _). }
  destruct (run_quota_prefix p operation e s pre post t value Hp Hpre Hs)
    as (Ho & Htk & Hex & _ & Hcount).
  destruct (Hcount Hndpre) as [Ha Hi].
  assert (Hmarked :
    List.filter (isExhausted (getTokenStatusStore p (envAfter (runWithRetry p operation e s))))
                (getTokens p undefined e) = pre).
  { rewrite Htok, List.filter_app, filter_all, filter_none; [apply app_nil_r | |].
    - intros x Hx. apply not_true_is_false. rewrite Hex. intros [Hin|Hin].
      + rewrite Htok in Hnd. apply NoDup_app in Hnd as (_ & Hdis & _).
        apply (Hdis x); now apply list_elem_of_In.
      + rewrite Hfresh in Hin; [discriminate|]. rewrite Htok. apply in_or_app. now right.
    - intros x Hx. apply Hex. now left. }
  split; [exact Ho|]. split; [lia|]. split; [exact Hi|]. split; [exact Hmarked|].
  unfold getTokenStats. cbn [exhaustedCount].
  rewrite (getTokens_raw p cfg _ e), (getTokens_configured p cfg e Hcfg).
  transitivity (length pre); [|lia]. f_equal. exact Hmarked.
Qed.

End WrapperClaims.

(** ** The claims about the store *)

Section StoreClaims.
Context {J : Json}.

Lemma wellFormedToken_spec (t : string) :
  wellFormedToken t = true ->
  t <> EmptyString /\ JsString.includes t "," = false /\ JsString.trim t = t.
Proof.
  unfold wellFormedToken. rewrite !andb_true_iff, !negb_true_iff.
  intros [[[H1 H2] H3] H4]. split; [|split].
  - now apply JsStringFacts.falsy_false.
  - exact H2.
  - now apply TokenListFacts.trim_id.
Qed.

(** Well-formed tokens joined by commas are parsed back as they were. *)
Lemma getTokens_join (p : Provider) (e : Env) (l : list string) :
  Forall (fun t => wellFormedToken t = true) l ->
  getTokens p (raw (JsString.join l)) e = l.
Proof.
  intros Hall. unfold getTokens.
  destruct l as [|x l]; [reflexivity|].
  assert (Hne : Forall (fun t => t <> EmptyString) (x :: l)).
  { eapply List.Forall_impl; [|exact Hall]. intros t Ht. now apply wellFormedToken_spec in Ht. }
  assert (Hcomma : Forall (fun t => JsString.includes t "," = false) (x :: l)).
  { eapply List.Forall_impl; [|exact Hall]. intros t Ht. now apply wellFormedToken_spec in Ht. }
  destruct (JsString.falsy (JsString.join (x :: l))) eqn:Hf.
  - apply JsStringFacts.falsy_spec in Hf. now apply JsStringFacts.join_empty in Hf.
  - rewrite JsStringFacts.split_join by (discriminate || exact Hcomma).
    rewrite (map_ext_in _ (fun t => t)).
    + rewrite map_id. apply filter_all. intros t Ht.
      rewrite JsStringFacts.length_pos. apply negb_true_iff, JsStringFacts.falsy_false.
      rewrite List.Forall_forall in Hne. now apply Hne.
    + intros t Ht. rewrite List.Forall_forall in Hall.
      now apply wellFormedToken_spec, Hall.
Qed.

(** A record of another day is not used. *)
Lemma load_other_day (p : Provider) (e : Env) (ls : gmap string string)
    (item : string) (store : TokenStatusStore) :
  localStorage e = Some ls ->
  ls !! TOKEN_STATUS_KEY p = Some item ->
  JSON_parse item = Some (JStore store) ->
  date store <> getDateString p e ->
  getTokenStatusStore p e = defaultStore p e.
Proof.
  intros Hls Hitem Hparse Hd. unfold getTokenStatusStore. rewrite Hls, Hitem, Hparse.
  apply String.eqb_neq in Hd. rewrite Hd. now destruct (JsString.falsy item).
Qed.

(** The Hugging Face day is the UTC day, and the day of the other two is the
    Beijing day when the browser's own zone is UTC. *)
Lemma getDateString_offset (p : Provider) (e : Env) :
  p = HuggingFace \/ timezoneOffset e = 0 ->
  getDateString p e = dayAtOffset (windowOffset p) e.
Proof.
  unfold getDateString, getUTCDatesString, getBeijingDateString, dayAtOffset.
  intros [->|Hz]; [simpl; f_equal; lia|].
  destruct p; simpl; rewrite ?Hz; f_equal; lia.
Qed.

Lemma load_unusable (p : Provider) (e : Env) :
  Unusable p e ->
  getTokenStatusStore p e = {| date := getDateString p e; exhausted := ∅ |}.
Proof.
  intros [Hls | ls Hls Hitem | ls Hls Hitem | ls item Hls Hitem Hparse
          | ls item Hls Hitem [Hparse|Hparse] | ls item store Hls Hitem Hparse Hd].
  - unfold getTokenStatusStore. now rewrite Hls.
  - unfold getTokenStatusStore. now rewrite Hls, Hitem.
  - unfold getTokenStatusStore. now rewrite Hls, Hitem.
  - unfold getTokenStatusStore. rewrite Hls, Hitem, Hparse. now destruct (JsString.falsy item).
  - unfold getTokenStatusStore. rewrite Hls, Hitem, Hparse. now destruct (JsString.falsy item).
  - unfold getTokenStatusStore. rewrite Hls, Hitem, Hparse. now destruct (JsString.falsy item).
  - exact (load_other_day p e ls item store Hls Hitem Hparse Hd).
Qed.

(** Loading has two outcomes only: the fresh record, in the situations of
    [Unusable], or the record persisted under the day key of this load. *)
Lemma load_cases (p : Provider) (e : Env) :
  Unusable p e \/
  exists ls item,
    localStorage e = Some ls /\ ls !! TOKEN_STATUS_KEY p = Some item /\
    JSON_parse item = Some (JStore (getTokenStatusStore p e)) /\
    date (getTokenStatusStore p e) = getDateString p e.
Proof.
  destruct (localStorage e) as [ls|] eqn:Hls; [|left; now apply no_storage].
  destruct (ls !! TOKEN_STATUS_KEY p) as [item|] eqn:Hitem;
    [|left; now apply (no_item p e ls)].
  destruct (JSON_parse item) as [[| |store]|] eqn:Hparse.
  - left. apply (not_a_record p e ls item); auto.
  - left. apply (not_a_record p e ls item); auto.
  - destruct (String.eqb (date store) (getDateString p e)) eqn:Hd.
    + destruct (JsString.falsy item) eqn:Hf.
      * apply JsStringFacts.falsy_spec in Hf. subst item.
        left. now apply (empty_item p e ls).
      * right. exists ls, item.
        assert (Hload : getTokenStatusStore p e = store).
        { unfold getTokenStatusStore. now rewrite Hls, Hitem, Hf, Hparse, Hd. }
        rewrite Hload. apply String.eqb_eq in Hd. auto.
    + left. apply (other_day p e ls item store); auto. now apply String.eqb_neq.
  - left. now apply (not_json p e ls item).
Qed.

(** C10: loading is total and has two outcomes only, the fresh record or the
    record persisted under the day key of this load. When [localStorage] is
    undefined, or holds no status item, or an item that is empty, that is not
    JSON, that is not a record, or that is a record of another day, the
    record loaded is the fresh one: no exhausted token, and as its day the
    UTC date of the instant for Hugging Face, and for Model Scope and Gitee
    the UTC date of the instant moved by 480 minutes plus the browser's own
    offset. That day is the day of the service's window (UTC, UTC+8) for
    Hugging Face and in a browser set to UTC; in a browser set to Beijing
    time the fresh record of Model Scope and Gitee carries the UTC day, not
    the UTC+8 day. *)
Theorem load_defaults (p : Provider) (e : Env) :
  (Unusable p e \/
   exists ls item,
     localStorage e = Some ls /\ ls !! TOKEN_STATUS_KEY p = Some item /\
     JSON_parse item = Some (JStore (getTokenStatusStore p e))) /\
  (Unusable p e ->
   getTokenStatusStore p e =
     {| date := JsDate.isoDate (now e + match p with
                                        | HuggingFace => 0
                                        | ModelScope | Gitee => (timezoneOffset e + 480) * 60000
                                        end);
        exhausted := ∅ |}) /\
  (p = HuggingFace \/ timezoneOffset e = 0 ->
   date (getTokenStatusStore p e) = JsDate.isoDate (now e + windowOffset p * 3600000)) /\
  (p <> HuggingFace -> timezoneOffset e = -480 ->
   date (getTokenStatusStore p e) = JsDate.isoDate (now e)).
Proof.
  assert (Hkey : getDateString p e =
                 JsDate.isoDate (now e + match p with
                                         | HuggingFace => 0
                                         | ModelScope | Gitee => (timezoneOffset e + 480) * 60000
                                         end)).
  { destruct p; unfold getDateString, getUTCDatesString, getBeijingDateString;
      f_equal; lia. }
  split; [|split; [|split]].
  - destruct (load_cases p e) as [H|(ls & item & H1 & H2 & H3 & _)]; [now left|].
    right. now exists ls, item.
  - intros Hun. rewrite (load_unusable p e Hun). now rewrite Hkey.
  - intros Hp. rewrite load_date, Hkey. f_equal.
    destruct Hp as [->|Hz]; [reflexivity|]. rewrite Hz. destruct p; simpl; lia.
  - intros Hp Hz. rewrite load_date, Hkey. f_equal. rewrite Hz.
    destruct p; [congruence| |]; lia.
Qed.

Context {JL : JsonLaws J}.

(** C8: [getTokens] splits its input at the commas (the input is its fields
    joined by commas, and no field holds a comma), drops the fields that are
    white space only, and gives every other field without the white space at
    its two ends, in the order of the fields and with their repetitions; it
    returns well-formed tokens joined by commas unchanged, so [a,a,b] gives
    a, a, b; and with that list configured and b not marked, marking a makes
    [getNextAvailableToken] return b. *)
Theorem getTokens_keeps_duplicates (p : Provider) (e : Env) :
  (forall cfg, exists fields,
     JsString.join fields = cfg /\
     Forall (fun f => JsString.includes f "," = false) fields /\
     Forall2 Trimmed (List.filter (fun f => negb (allWhiteSpace f)) fields)
                     (getTokens p (raw cfg) e)) /\
  (forall l, Forall (fun t => wellFormedToken t = true) l ->
     getTokens p (raw (JsString.join l)) e = l) /\
  getTokens p (raw "a,a,b") e = ["a"; "a"; "b"] /\
  getTokens p (raw " a ,, a,  ,b ") e = ["a"; "a"; "b"] /\
  (configured p e = Some "a,a,b" ->
   isExhausted (getTokenStatusStore p e) "b" = false ->
   getNextAvailableToken p (markTokenExhausted p "a" e) = Some "b").
Proof.
  split; [|split; [|split; [|split]]].
  - intros cfg. exists (JsString.split cfg).
    split; [apply TokenListFacts.join_split|].
    split; [apply TokenListFacts.split_pieces_no_comma|].
    unfold getTokens. destruct (JsString.falsy cfg) eqn:Hf.
    + apply JsStringFacts.falsy_spec in Hf. subst cfg. constructor.
    + apply TokenListFacts.tokens_of_fields.
  - apply getTokens_join.
  - reflexivity.
  - reflexivity.
  - intros Hcfg Hb.
    assert (Htok : getTokens p undefined e = ["a"; "a"; "b"]).
    { rewrite <- (getTokens_configured p "a,a,b" e Hcfg). reflexivity. }
    assert (Hls : localStorage e <> None).
    { unfold configured in Hcfg. destruct (localStorage e); [discriminate | discriminate]. }
    rewrite next_pending, pending_mark by exact Hls.
    unfold pendingTokens. rewrite Htok. simpl. rewrite Hb. simpl.
    destruct (isExhausted (getTokenStatusStore p e) "a"); reflexivity.
Qed.

(** C9: for a credential [c], one of the configured tokens (and more
    generally wherever [localStorage] exists, as it does when a token is
    configured), the record loaded after [markTokenExhausted c] reads [c] as
    exhausted, and owns the entry [c: true] unless [c] is [__proto__]; and a
    second [markTokenExhausted c] changes nothing, in every environment. *)
Theorem mark_roundtrip (p : Provider) (c : string) (e : Env) :
  In c (getTokens p undefined e) \/ localStorage e <> None ->
  isExhausted (getTokenStatusStore p (markTokenExhausted p c e)) c = true /\
  (c <> "__proto__" ->
   exhausted (getTokenStatusStore p (markTokenExhausted p c e)) !! c = Some true) /\
  markTokenExhausted p c (markTokenExhausted p c e) = markTokenExhausted p c e.
Proof.
  intros Hc.
  assert (Hls : localStorage e <> None).
  { destruct Hc as [Hin|Hls]; [|exact Hls].
    assert (Hne : getTokens p undefined e <> []) by (intros H; now rewrite H in Hin).
    destruct (getTokens_available p e Hne) as [ls Hls]. congruence. }
  split; [|split].
  - rewrite isExhausted_mark by exact Hls. now rewrite String.eqb_refl.
  - intros Hne. rewrite load_mark by exact Hls. simpl. unfold setExhausted.
    apply String.eqb_neq in Hne. rewrite Hne.
    destruct (exhausted (getTokenStatusStore p e) !! c); apply lookup_insert_eq.
  - assert (exists ls, localStorage e = Some ls) as [ls Hls']
      by (destruct (localStorage e); [eauto | congruence]).
    unfold markTokenExhausted at 1. rewrite load_mark by exact Hls. simpl.
    rewrite setExhausted_idem.
    unfold markTokenExhausted, saveTokenStatusStore. rewrite Hls'. simpl.
    now rewrite insert_insert_eq.
Qed.

(** C7 at a failing input: in a browser set to Beijing time, at 02:00 on
    2026-11-03 there (18:00 UTC on 2026-11-02), [getBeijingDateString] gives
    2026-11-02, so the record written on 2026-11-02 with token A exhausted is
    still the one loaded, and [getNextAvailableToken] finds no token, although
    the day at UTC+8 is 2026-11-03. *)
Theorem beijing_day_is_utc_day :
  dayAtOffset (windowOffset ModelScope) Sample.beijingBrowser = "2026-11-03" /\
  date Sample.yesterdayRecord = "2026-11-02" /\
  getDateString ModelScope Sample.beijingBrowser = "2026-11-02" /\
  getTokenStatusStore ModelScope Sample.beijingBrowser = Sample.yesterdayRecord /\
  getTokens ModelScope undefined Sample.beijingBrowser = ["A"] /\
  getNextAvailableToken ModelScope Sample.beijingBrowser = None.
Proof.
  assert (Hload : getTokenStatusStore ModelScope Sample.beijingBrowser = Sample.yesterdayRecord).
  { unfold getTokenStatusStore, Sample.beijingBrowser. simpl.
    rewrite lookup_insert_eq.
    pose proof (JSON_stringify_truthy Sample.yesterdayRecord) as Hne.
    apply JsStringFacts.falsy_false in Hne. rewrite Hne.
    rewrite JSON_parse_stringify. reflexivity. }
  assert (Htok : getTokens ModelScope undefined Sample.beijingBrowser = ["A"]).
  { unfold getTokens, Sample.beijingBrowser. simpl.
    rewrite lookup_insert_ne by discriminate. reflexivity. }
  repeat split; try reflexivity; try assumption.
  unfold getNextAvailableToken. rewrite Hload, Htok. reflexivity.
Qed.

End StoreClaims.

(** ** The claims at sample inputs *)

Section Samples.
Local Existing Instance BitJson.codec.
Local Existing Instance BitJson_laws.

Lemma rateLimited_quotaFails (p : Provider) (t : string) :
  quotaFails p Sample.rateLimited t.
Proof. intros s. exists {| message := Some "Model Scope API Error: 429"; status := Some 429 |}, s.
  split; [reflexivity | now destruct p]. Qed.

Lemma onlyAccepts_quotaFails (p : Provider) (good t : string) :
  t <> good -> quotaFails p (Sample.onlyAccepts good) t.
Proof.
  intros Hne s. exists (newError "Model Scope API Error: 429"), s.
  unfold Sample.onlyAccepts. apply String.eqb_neq in Hne. rewrite Hne.
  split; [reflexivity | now destruct p].
Qed.

Lemma onlyAccepts_succeeds (good : string) :
  succeedsWith (Sample.onlyAccepts good) good "image".
Proof. intros s. exists s. unfold Sample.onlyAccepts. now rewrite String.eqb_refl. Qed.

Lemma NoDup_abc : NoDup ["a"; "b"; "c"].
Proof. compute_done. Qed.

Lemma NoDup_ab : NoDup ["a"; "b"].
Proof. compute_done. Qed.

(** C1, as stated, fails: with the list [a,a,b] (N = 3) and an operation that
    always throws a quota error, the Model Scope wrapper makes 3 attempts,
    not 4. *)
Lemma all_quota_duplicates :
  getTokens ModelScope undefined (Sample.browser ModelScope "a,a,b") = ["a"; "a"; "b"] /\
  (forall t, quotaFails ModelScope Sample.rateLimited t) /\
  attempts (runWithMsTokenRetry Sample.rateLimited (Sample.browser ModelScope "a,a,b") tt)
  = 3%nat /\
  invoked (runWithMsTokenRetry Sample.rateLimited (Sample.browser ModelScope "a,a,b") tt)
  = [Some "a"; Some "b"].
Proof.
  split; [reflexivity|]. split; [apply rateLimited_quotaFails|].
  split; vm_compute; reflexivity.
Qed.

(** C2, as stated, fails: with the list [a,a,b], where the third token b
    succeeds and the two before it throw quota errors, the Model Scope
    wrapper returns after 2 attempts, not 3. *)
Lemma third_token_duplicates :
  nth_error (getTokens ModelScope undefined (Sample.browser ModelScope "a,a,b")) (3 - 1)
  = Some "b" /\
  (forall u, In u (firstn (3 - 1) (getTokens ModelScope undefined
                                     (Sample.browser ModelScope "a,a,b"))) ->
             quotaFails ModelScope (Sample.onlyAccepts "b") u) /\
  succeedsWith (Sample.onlyAccepts "b") "b" "image" /\
  outcome (runWithMsTokenRetry (Sample.onlyAccepts "b") (Sample.browser ModelScope "a,a,b") tt)
  = Resolved "image" /\
  attempts (runWithMsTokenRetry (Sample.onlyAccepts "b") (Sample.browser ModelScope "a,a,b") tt)
  = 2%nat.
Proof.
  split; [reflexivity|]. split; [|split; [apply onlyAccepts_succeeds|]].
  - intros u Hu. apply onlyAccepts_quotaFails.
    change (In u ["a"; "a"]) in Hu. destruct Hu as [<-|[<-|[]]]; discriminate.
  - split; vm_compute; reflexivity.
Qed.

Lemma all_quota_exhausts_witness :
  attempts (runWithRetry ModelScope Sample.rateLimited (Sample.browser ModelScope "a,b") tt)
  = (length (getTokens ModelScope undefined (Sample.browser ModelScope "a,b")) + 1)%nat /\
  invoked (runWithRetry ModelScope Sample.rateLimited (Sample.browser ModelScope "a,b") tt)
  = map Some (getTokens ModelScope undefined (Sample.browser ModelScope "a,b")) /\
  outcome (runWithRetry ModelScope Sample.rateLimited (Sample.browser ModelScope "a,b") tt)
  = Rejected (newError (QUOTA_ERROR_KEY ModelScope)) /\
  exhaustedCount (getTokenStats ModelScope "a,b"
                    (envAfter (runWithRetry ModelScope Sample.rateLimited
                                 (Sample.browser ModelScope "a,b") tt)))
  = length (getTokens ModelScope undefined (Sample.browser ModelScope "a,b")).
Proof.
  apply (all_quota_exhausts ModelScope Sample.rateLimited
           (Sample.browser ModelScope "a,b") tt "a,b").
  - reflexivity.
  - discriminate.
  - exact NoDup_ab.
  - intros t Ht. change (In t ["a"; "b"]) in Ht.
    destruct Ht as [<-|[<-|[]]]; reflexivity.
  - apply rateLimited_quotaFails.
Defined.

Lemma kth_token_succeeds_witness :
  outcome (runWithRetry ModelScope (Sample.onlyAccepts "b")
             (Sample.browser ModelScope "a,b,c") tt) = Resolved "image" /\
  attempts (runWithRetry ModelScope (Sample.onlyAccepts "b")
              (Sample.browser ModelScope "a,b,c") tt) = 2%nat /\
  invoked (runWithRetry ModelScope (Sample.onlyAccepts "b")
             (Sample.browser ModelScope "a,b,c") tt)
  = map Some (firstn 2 (getTokens ModelScope undefined (Sample.browser ModelScope "a,b,c"))) /\
  List.filter (isExhausted (getTokenStatusStore ModelScope
                 (envAfter (runWithRetry ModelScope (Sample.onlyAccepts "b")
                              (Sample.browser ModelScope "a,b,c") tt))))
              (getTokens ModelScope undefined (Sample.browser ModelScope "a,b,c"))
  = firstn (2 - 1) (getTokens ModelScope undefined (Sample.browser ModelScope "a,b,c")) /\
  exhaustedCount (getTokenStats ModelScope "a,b,c"
                    (envAfter (runWithRetry ModelScope (Sample.onlyAccepts "b")
                                 (Sample.browser ModelScope "a,b,c") tt))) = (2 - 1)%nat.
Proof.
  apply (kth_token_succeeds ModelScope (Sample.onlyAccepts "b")
           (Sample.browser ModelScope "a,b,c") tt "a,b,c" 2 "b" "image").
  - reflexivity.
  - exact NoDup_abc.
  - intros u Hu. change (In u ["a"; "b"; "c"]) in Hu.
    destruct Hu as [<-|[<-|[<-|[]]]]; reflexivity.
  - lia.
  - reflexivity.
  - intros u Hu. apply onlyAccepts_quotaFails.
    change (In u ["a"]) in Hu. destruct Hu as [<-|[]]. discriminate.
  - apply onlyAccepts_succeeds.
Defined.

Lemma hard_failure_aborts_witness :
  outcome (runWithRetry HuggingFace Sample.malformed (Sample.browser HuggingFace "a,b") tt)
  = Rejected (newError "error_invalid_response") /\
  attempts (runWithRetry HuggingFace Sample.malformed (Sample.browser HuggingFace "a,b") tt)
  = 1%nat /\
  invoked (runWithRetry HuggingFace Sample.malformed (Sample.browser HuggingFace "a,b") tt)
  = [Some "a"] /\
  envAfter (runWithRetry HuggingFace Sample.malformed (Sample.browser HuggingFace "a,b") tt)
  = Sample.browser HuggingFace "a,b".
Proof.
  apply (hard_failure_aborts HuggingFace Sample.malformed
           (Sample.browser HuggingFace "a,b") tt tt "a" (newError "error_invalid_response")).
  - discriminate.
  - reflexivity.
  - reflexivity.
  - reflexivity.
Defined.

Lemma no_token_configured_witness :
  envAfter (runWithRetry ModelScope Sample.malformed Sample.server tt) = Sample.server /\
  invoked (runWithRetry ModelScope Sample.malformed Sample.server tt) = [] /\
  outcome (runWithRetry ModelScope Sample.malformed Sample.server tt)
  = Rejected (newError "error_ms_token_required").
Proof.
  apply (no_token_configured ModelScope Sample.malformed Sample.server tt).
  reflexivity.
Defined.

Lemma load_defaults_witness :
  getTokenStatusStore ModelScope Sample.beijingFresh
  = {| date := "2026-11-02"; exhausted := ∅ |} /\
  JsDate.isoDate (now Sample.beijingFresh + windowOffset ModelScope * 3600000) = "2026-11-03" /\
  getTokenStatusStore HuggingFace Sample.garbled
  = {| date := "2026-11-02"; exhausted := ∅ |}.
Proof.
  destruct (load_defaults ModelScope Sample.beijingFresh) as (_ & H & _).
  destruct (load_defaults HuggingFace Sample.garbled) as (_ & H' & _).
  split; [|split].
  - apply H. apply (no_item ModelScope Sample.beijingFresh {[ "msToken" := "A" ]});
      reflexivity.
  - reflexivity.
  - apply H'.
    apply (not_json HuggingFace Sample.garbled {[ "hf_token_status" := "{date:" ]} "{date:");
      reflexivity.
Defined.

Lemma getTokens_keeps_duplicates_witness :
  getNextAvailableToken ModelScope
    (markTokenExhausted ModelScope "a" (Sample.browser ModelScope "a,a,b")) = Some "b".
Proof.
  apply (getTokens_keeps_duplicates ModelScope (Sample.browser ModelScope "a,a,b"));
    reflexivity.
Defined.

Lemma mark_roundtrip_witness :
  isExhausted (getTokenStatusStore Gitee
                 (markTokenExhausted Gitee "a" (Sample.browser Gitee "a,b"))) "a" = true /\
  exhausted (getTokenStatusStore Gitee
               (markTokenExhausted Gitee "a" (Sample.browser Gitee "a,b"))) !! "a"
  = Some true /\
  markTokenExhausted Gitee "a" (markTokenExhausted Gitee "a" (Sample.browser Gitee "a,b"))
  = markTokenExhausted Gitee "a" (Sample.browser Gitee "a,b").
Proof.
  destruct (mark_roundtrip Gitee "a" (Sample.browser Gitee "a,b")) as (H1 & H2 & H3).
  - left. left. reflexivity.
  - split; [exact H1|]. split; [apply H2; discriminate | exact H3].
Defined.

Lemma beijing_day_is_utc_day_witness :
  getNextAvailableToken ModelScope (Sample.beijingBrowser (J := BitJson.codec)) = None.
Proof. apply (beijing_day_is_utc_day (J := BitJson.codec) (JL := BitJson_laws)). Defined.

End Samples.

(** * Further properties of the token store and of the wrapper *)

Section StoreMore.
Context {J : Json}.

Lemma filter_complement_length {A : Type} (f : A -> bool) (l : list A) :
  (length (List.filter f l) + length (List.filter (fun x => negb (f x)) l))%nat = length l.
Proof.
  induction l as [|x l IH]; [reflexivity|].
  simpl. destruct (f x); simpl; lia.
Qed.

(** [getTokenStats] splits the configured tokens into the exhausted and the
    active ones: [active] counts the tokens not marked exhausted, and
    [total = exhausted + active]. *)
Theorem getTokenStats_partition (p : Provider) (cfg : string) (e : Env) :
  total (getTokenStats p cfg e) = length (getTokens p (raw cfg) e) /\
  total (getTokenStats p cfg e) =
    (exhaustedCount (getTokenStats p cfg e) + active (getTokenStats p cfg e))%nat /\
  active (getTokenStats p cfg e) =
    length (List.filter (fun t => negb (isExhausted (getTokenStatusStore p e) t))
                        (getTokens p (raw cfg) e)).
Proof.
  unfold getTokenStats. cbn [total exhaustedCount active].
  pose proof (filter_complement_length
                (fun t => isExhausted (getTokenStatusStore p e) t)
                (getTokens p (raw cfg) e)) as H.
  cbv beta in H. repeat split; lia.
Qed.

Lemma find_first {A : Type} (f : A -> bool) (l : list A) (x : A) :
  List.find f l = Some x <->
  exists pre post, l = (pre ++ x :: post)%list /\ f x = true /\
                   forall u, In u pre -> f u = false.
Proof.
  induction l as [|y l IH]; simpl.
  - split; [discriminate | intros (pre & post & H & _)]. destruct pre; discriminate.
  - destruct (f y) eqn:Hy.
    + split.
      * intros [= ->]. exists [], l. repeat split; [exact Hy | intros u []].
      * intros (pre & post & H & Hx & Hpre). destruct pre as [|z pre].
        -- now injection H as ->.
        -- injection H as <- _. rewrite (Hpre y) in Hy; [discriminate | now left].
    + rewrite IH. split.
      * intros (pre & post & -> & Hx & Hpre). exists (y :: pre), post.
        repeat split; [exact Hx|]. intros u [<-|Hu]; [exact Hy | now apply Hpre].
      * intros (pre & post & H & Hx & Hpre). destruct pre as [|z pre].
        -- injection H as -> _. congruence.
        -- injection H as <- ->. exists pre, post. repeat split; [exact Hx|].
           intros u Hu. apply Hpre. now right.
Qed.

Lemma find_none_iff {A : Type} (f : A -> bool) (l : list A) :
  List.find f l = None <-> forall u, In u l -> f u = false.
Proof.
  split; [apply List.find_none|].
  induction l as [|y l IH]; intros H; [reflexivity|].
  simpl. rewrite (H y) by now left. apply IH. intros u Hu. apply H. now right.
Qed.

(** [getNextAvailableToken] returns the first configured token that is not
    marked exhausted: every token before it in the list is marked; it returns
    [null] exactly when every configured token is marked (or none is
    configured). *)
Theorem getNextAvailableToken_first (p : Provider) (e : Env) :
  (forall t, getNextAvailableToken p e = Some t <->
     exists pre post,
       getTokens p undefined e = (pre ++ t :: post)%list /\
       isExhausted (getTokenStatusStore p e) t = false /\
       forall u, In u pre -> isExhausted (getTokenStatusStore p e) u = true) /\
  (getNextAvailableToken p e = None <->
     forall u, In u (getTokens p undefined e) ->
               isExhausted (getTokenStatusStore p e) u = true).
Proof.
  assert (Hor : getNextAvailableToken p e =
                List.find (fun t => negb (isExhausted (getTokenStatusStore p e) t))
                          (getTokens p undefined e)).
  { rewrite next_pending, find_head_filter. reflexivity. }
  rewrite Hor. split.
  - intros t. rewrite find_first. split.
    + intros (pre & post & H & Ht & Hpre). exists pre, post.
      split; [exact H|]. split; [now apply negb_true_iff|].
      intros u Hu. apply negb_false_iff. now apply Hpre.
    + intros (pre & post & H & Ht & Hpre). exists pre, post.
      split; [exact H|]. split; [now apply negb_true_iff|].
      intros u Hu. apply negb_false_iff. now apply Hpre.
  - rewrite find_none_iff. split; intros H u Hu.
    + apply negb_false_iff. now apply H.
    + apply negb_false_iff. now apply H.
Qed.

Lemma status_key_inj (p q : Provider) : p <> q -> TOKEN_STATUS_KEY p <> TOKEN_STATUS_KEY q.
Proof. destruct p, q; intros H; try contradiction; discriminate. Qed.

Lemma load_save_other (p q : Provider) (store : TokenStatusStore) (e : Env) :
  p <> q ->
  getTokenStatusStore q (saveTokenStatusStore p store e) = getTokenStatusStore q e.
Proof.
  intros Hpq. unfold getTokenStatusStore at 1.
  rewrite getDateString_save. unfold defaultStore. rewrite getDateString_save.
  unfold getTokenStatusStore, defaultStore, saveTokenStatusStore.
  destruct (localStorage e) as [ls|] eqn:Hls; simpl; [|now rewrite Hls].
  rewrite lookup_insert_ne by now apply status_key_inj. reflexivity.
Qed.

(** Marking a token of one service leaves the other services as they were:
    their record, their token list, the token they select next and their
    statistics. *)
Theorem markTokenExhausted_other_provider (p q : Provider) (t cfg : string) (e : Env) :
  p <> q ->
  getTokenStatusStore q (markTokenExhausted p t e) = getTokenStatusStore q e /\
  getTokens q undefined (markTokenExhausted p t e) = getTokens q undefined e /\
  getNextAvailableToken q (markTokenExhausted p t e) = getNextAvailableToken q e /\
  getTokenStats q cfg (markTokenExhausted p t e) = getTokenStats q cfg e.
Proof.
  intros Hpq.
  assert (Hload : getTokenStatusStore q (markTokenExhausted p t e) = getTokenStatusStore q e)
    by (apply load_save_other; exact Hpq).
  split; [exact Hload|]. split; [apply getTokens_mark|]. split.
  - unfold getNextAvailableToken. now rewrite Hload, getTokens_mark.
  - unfold getTokenStats. now rewrite Hload.
Qed.

End StoreMore.

Section StoreMoreLaws.
Context {J : Json} {JL : JsonLaws J}.

(** Once a token is marked, the selection does not return it again (as long
    as the day key is the same), and the marks of the other tokens are as
    before. *)
Theorem marked_token_not_selected (p : Provider) (t : string) (e : Env) :
  localStorage e <> None ->
  getNextAvailableToken p (markTokenExhausted p t e) <> Some t /\
  (forall u, u <> t ->
     isExhausted (getTokenStatusStore p (markTokenExhausted p t e)) u =
     isExhausted (getTokenStatusStore p e) u) /\
  getNextAvailableToken p (markTokenExhausted p t e) =
    head (List.filter (fun x => negb (String.eqb x t)) (pendingTokens p e)).
Proof.
  intros Hls. split; [|split].
  - rewrite next_pending, pending_mark by exact Hls.
    destruct (List.filter _ _) as [|x l] eqn:Hf; [discriminate|].
    simpl. intros [= ->].
    assert (Hin : In t (List.filter (fun x => negb (String.eqb x t)) (pendingTokens p e)))
      by (rewrite Hf; now left).
    apply filter_In in Hin as [_ Hin]. rewrite String.eqb_refl in Hin. discriminate.
  - intros u Hu. rewrite isExhausted_mark by exact Hls.
    apply String.eqb_neq in Hu. now rewrite Hu.
  - now rewrite next_pending, pending_mark.
Qed.

Lemma setExhausted_lookup_ne (a b : string) (m : gmap string bool) :
  a <> b -> setExhausted a m !! b = m !! b.
Proof.
  intros Hab. unfold setExhausted.
  destruct (m !! a); [|destruct (String.eqb a "__proto__")];
    rewrite ?lookup_insert_ne by exact Hab; reflexivity.
Qed.

Lemma setExhausted_comm (a b : string) (m : gmap string bool) :
  setExhausted a (setExhausted b m) = setExhausted b (setExhausted a m).
Proof.
  destruct (String.string_dec a b) as [->|Hab]; [reflexivity|].
  unfold setExhausted at 1 3.
  rewrite (setExhausted_lookup_ne b a) by congruence.
  rewrite (setExhausted_lookup_ne a b) by exact Hab.
  unfold setExhausted.
  destruct (m !! a), (m !! b);
    [| destruct (String.eqb b "__proto__") | destruct (String.eqb a "__proto__")
     | destruct (String.eqb a "__proto__"), (String.eqb b "__proto__")];
    try reflexivity; apply insert_insert_ne; congruence.
Qed.

Lemma mark_env (p : Provider) (t : string) (e : Env) (ls : gmap string string) :
  localStorage e = Some ls ->
  markTokenExhausted p t e =
  {| localStorage :=
       Some (<[TOKEN_STATUS_KEY p :=
                 JSON_stringify
                   {| date := date (getTokenStatusStore p e);
                      exhausted := setExhausted t (exhausted (getTokenStatusStore p e)) |}]> ls);
     now := now e;
     timezoneOffset := timezoneOffset e |}.
Proof. intros Hls. unfold markTokenExhausted, saveTokenStatusStore. now rewrite Hls. Qed.

Lemma load_mark_other (p q : Provider) (t : string) (e : Env) :
  p <> q ->
  getTokenStatusStore q (markTokenExhausted p t e) = getTokenStatusStore q e.
Proof. intros Hpq. unfold markTokenExhausted. now apply load_save_other. Qed.

Lemma mark_no_storage (p : Provider) (t : string) (e : Env) :
  localStorage e = None -> markTokenExhausted p t e = e.
Proof.
  intros Hls. unfold markTokenExhausted, saveTokenStatusStore. rewrite Hls.
  destruct e; simpl in *. now rewrite Hls.
Qed.

(** The record a service loads after two marks does not depend on the order
    of the marks. *)
Lemma load_marks_swap (p q r : Provider) (a b : string) (e : Env) :
  getTokenStatusStore r (markTokenExhausted p a (markTokenExhausted q b e)) =
  getTokenStatusStore r (markTokenExhausted q b (markTokenExhausted p a e)).
Proof.
  destruct (localStorage e) as [ls|] eqn:Hls;
    [|now rewrite !mark_no_storage by (rewrite ?mark_no_storage; exact Hls)].
  assert (Hav : localStorage e <> None) by congruence.
  assert (Hp : r = p \/ p <> r) by (destruct p, r; (now left) || (right; discriminate)).
  assert (Hq : r = q \/ q <> r) by (destruct q, r; (now left) || (right; discriminate)).
  destruct Hp as [->|Hp], Hq as [<-|Hq].
  - rewrite !load_mark by (try apply localStorage_mark; exact Hav). simpl.
    now rewrite setExhausted_comm.
  - rewrite (load_mark_other q p) by exact Hq.
    rewrite !load_mark by (try apply localStorage_mark; exact Hav).
    now rewrite (load_mark_other q p) by exact Hq.
  - rewrite (load_mark_other p r) by exact Hp.
    rewrite !load_mark by (try apply localStorage_mark; exact Hav).
    now rewrite (load_mark_other p r) by exact Hp.
  - now rewrite !load_mark_other by assumption.
Qed.

(** The order of two marks, of one service or of two, cannot be observed:
    every service loads the same record after them (the same day and the
    same marked tokens), selects the same next token and reports the same
    statistics. The statement is about what is loaded, not about the text in
    [localStorage], where the keys stand in the order of the marks. *)
Theorem markTokenExhausted_comm (p q r : Provider) (a b cfg : string) (e : Env) :
  getTokenStatusStore r (markTokenExhausted p a (markTokenExhausted q b e)) =
  getTokenStatusStore r (markTokenExhausted q b (markTokenExhausted p a e)) /\
  (forall t,
     isExhausted (getTokenStatusStore r (markTokenExhausted p a (markTokenExhausted q b e))) t =
     isExhausted (getTokenStatusStore r (markTokenExhausted q b (markTokenExhausted p a e))) t) /\
  getNextAvailableToken r (markTokenExhausted p a (markTokenExhausted q b e)) =
  getNextAvailableToken r (markTokenExhausted q b (markTokenExhausted p a e)) /\
  getTokenStats r cfg (markTokenExhausted p a (markTokenExhausted q b e)) =
  getTokenStats r cfg (markTokenExhausted q b (markTokenExhausted p a e)).
Proof.
  pose proof (load_marks_swap p q r a b e) as H.
  split; [exact H|]. split; [intros t; now rewrite H|]. split.
  - unfold getNextAvailableToken. now rewrite H, !getTokens_mark.
  - unfold getTokenStats. now rewrite H, !getTokens_mark.
Qed.

Lemma filter_mark_count (f : string -> bool) (t : string) (l : list string) :
  f t = false ->
  length (List.filter (fun x => String.eqb x t || f x) l) =
  (length (List.filter f l) + count_occ String.string_dec l t)%nat.
Proof.
  intros Ht. induction l as [|x l IH]; [reflexivity|].
  simpl. destruct (String.string_dec x t) as [->|Hne].
  - rewrite String.eqb_refl, Ht. simpl. lia.
  - apply String.eqb_neq in Hne. rewrite Hne. simpl. destruct (f x); simpl; lia.
Qed.

(** Marking a token that was not marked raises the exhausted count of
    [getTokenStats] by the number of times the token is written in the list,
    and lowers the active count by as much. *)
Theorem getTokenStats_after_mark (p : Provider) (t cfg : string) (e : Env) :
  localStorage e <> None ->
  isExhausted (getTokenStatusStore p e) t = false ->
  exhaustedCount (getTokenStats p cfg (markTokenExhausted p t e)) =
    (exhaustedCount (getTokenStats p cfg e) +
     count_occ String.string_dec (getTokens p (raw cfg) e) t)%nat /\
  (active (getTokenStats p cfg (markTokenExhausted p t e)) +
   count_occ String.string_dec (getTokens p (raw cfg) e) t)%nat =
    active (getTokenStats p cfg e).
Proof.
  intros Hls Ht.
  assert (Hex : exhaustedCount (getTokenStats p cfg (markTokenExhausted p t e)) =
    (exhaustedCount (getTokenStats p cfg e) +
     count_occ String.string_dec (getTokens p (raw cfg) e) t)%nat).
  { unfold getTokenStats. cbn [exhaustedCount]. rewrite getTokens_mark.
    rewrite <- (filter_mark_count _ t _ Ht). f_equal.
    apply filter_ext. intros x. apply isExhausted_mark. exact Hls. }
  split; [exact Hex|].
  pose proof (filter_length_le (fun x => isExhausted (getTokenStatusStore p
                (markTokenExhausted p t e)) x) (getTokens p (raw cfg) e)) as Hle.
  unfold getTokenStats in *. cbn [exhaustedCount active] in *.
  rewrite getTokens_mark in *. lia.
Qed.

End StoreMoreLaws.

(** ** What [getTokens] returns *)

Section TokenListClaims.
Context {J : Json}.

(** Every token [getTokens] returns is not empty, holds no comma, and
    neither starts nor ends with a white space character; so joining the
    tokens with commas and parsing them again gives the same list. *)
Theorem getTokens_well_formed (p : Provider) (ri : RawInput) (e : Env) :
  (forall t, In t (getTokens p ri e) ->
     t <> EmptyString /\ JsString.includes t "," = false /\
     startsClean t = true /\ endsClean t = true) /\
  getTokens p (raw (JsString.join (getTokens p ri e))) e = getTokens p ri e.
Proof.
  assert (Hwf : forall t, In t (getTokens p ri e) -> wellFormedToken t = true).
  { intros t Ht. pose proof (getTokens_truthy p ri e t Ht) as Hne.
    unfold getTokens in Ht.
    destruct (match ri with
              | undefined => _
              | null => None
              | raw s => Some s
              end) as [input|]; [|destruct Ht].
    destruct (JsString.falsy input); [destruct Ht|].
    apply filter_In in Ht as [Ht _]. apply in_map_iff in Ht as (x & <- & Hx).
    pose proof (TokenListFacts.split_pieces_no_comma input) as Hall.
    rewrite List.Forall_forall in Hall. specialize (Hall x Hx).
    destruct (TokenListFacts.trim_Trimmed x) as (_ & _ & _ & _ & _ & Hs & He).
    unfold wellFormedToken. rewrite Hne, (TokenListFacts.trim_no_comma x Hall), Hs, He.
    reflexivity. }
  split.
  - intros t Ht. specialize (Hwf t Ht). unfold wellFormedToken in Hwf.
    rewrite !andb_true_iff, !negb_true_iff in Hwf. destruct Hwf as [[[H1 H2] H3] H4].
    split; [now apply JsStringFacts.falsy_false|]. now split; [|split].
  - apply getTokens_join. apply List.Forall_forall. exact Hwf.
Qed.

(** An input made of commas and white space only configures no token, like
    [null] and like a missing [localStorage]. *)
Theorem getTokens_blank (p : Provider) (e : Env) :
  (forall cfg, blank cfg = true -> getTokens p (raw cfg) e = []) /\
  getTokens p null e = [] /\
  (localStorage e = None -> getTokens p undefined e = []) /\
  (forall cfg, configured p e = Some cfg -> blank cfg = true ->
               getTokens p undefined e = [] /\ getNextAvailableToken p e = None).
Proof.
  assert (Hblank : forall cfg e', blank cfg = true ->
                                  getTokens p (raw cfg) e' = []).
  { intros cfg e' Hb. unfold getTokens. destruct (JsString.falsy cfg); [reflexivity|].
    apply filter_none. intros t Ht. apply in_map_iff in Ht as (x & <- & Hx).
    pose proof (TokenListFacts.split_blank cfg Hb) as Hall.
    rewrite List.Forall_forall in Hall.
    now rewrite (TokenListFacts.trim_allWhiteSpace x (Hall x Hx)). }
  split; [intros cfg; apply Hblank|]. split; [reflexivity|]. split.
  - intros Hls. unfold getTokens. now rewrite Hls.
  - intros cfg Hcfg Hb.
    assert (Htok : getTokens p undefined e = []).
    { rewrite <- (getTokens_configured p cfg e Hcfg). now apply Hblank. }
    split; [exact Htok|]. unfold getNextAvailableToken. now rewrite Htok.
Qed.

End TokenListClaims.

(** ** What a call of the wrapper keeps *)

Section RunMore.
Context {J : Json} {T S : Type}.
Variable p : Provider.
Variable operation : Operation T S.

Lemma mark_clock (q : Provider) (t : string) (e : Env) :
  now (markTokenExhausted q t e) = now e /\
  timezoneOffset (markTokenExhausted q t e) = timezoneOffset e.
Proof.
  unfold markTokenExhausted, saveTokenStatusStore.
  destruct (localStorage e); split; reflexivity.
Qed.

Lemma loop_frame (budget : nat) :
  forall (a : nat) (last : option Error) (inv : list (option string)) (e : Env) (s : S),
  let r := retryLoop p operation budget a last inv e s in
  (forall q ri, getTokens q ri (envAfter r) = getTokens q ri e) /\
  (forall q, q <> p -> getTokenStatusStore q (envAfter r) = getTokenStatusStore q e) /\
  now (envAfter r) = now e /\
  timezoneOffset (envAfter r) = timezoneOffset e.
Proof.
  induction budget as [|b IH]; intros a last inv e s; cbv zeta; cbn [retryLoop].
  - simpl. auto.
  - destruct (getNextAvailableToken p e) as [t|]; [|simpl; auto].
    destruct (operation (Some t) s) as [[v|err] s']; [simpl; auto|].
    destruct (isQuotaError p err && negb (JsString.falsy t)); [|simpl; auto].
    destruct (IH (Datatypes.S a) (Some err) (inv ++ [Some t])%list
                 (markTokenExhausted p t e) s') as (Htk & Hother & Hnow & Htz).
    destruct (mark_clock p t e) as [Hn Hz].
    split; [|split; [|split]].
    + intros q ri. rewrite Htk. apply getTokens_mark.
    + intros q Hq. rewrite (Hother q Hq). apply load_save_other. congruence.
    + congruence.
    + congruence.
Qed.

(** A call of the wrapper changes neither the token list of any service, nor
    the record of another service, nor the clock: whatever the operation
    does, the only thing written is the record of the wrapper's own
    service. *)
Theorem runWithRetry_frame (e : Env) (s : S) :
  (forall q ri, getTokens q ri (envAfter (runWithRetry p operation e s)) = getTokens q ri e) /\
  (forall q, q <> p ->
     getTokenStatusStore q (envAfter (runWithRetry p operation e s)) =
     getTokenStatusStore q e) /\
  now (envAfter (runWithRetry p operation e s)) = now e /\
  timezoneOffset (envAfter (runWithRetry p operation e s)) = timezoneOffset e.
Proof.
  unfold runWithRetry.
  destruct (Nat.eqb (length (getTokens p undefined e)) 0).
  - destruct (TOKEN_REQUIRED_KEY p); [simpl; auto|].
    destruct (operation None s). simpl. auto.
  - apply loop_frame.
Qed.

Context {JL : JsonLaws J}.

Lemma pending_available (e : Env) (t : string) (rest : list string) :
  pendingTokens p e = t :: rest -> localStorage e <> None.
Proof.
  intros Hp. assert (Hne : getTokens p undefined e <> []).
  { intros H. unfold pendingTokens in Hp. rewrite H in Hp. discriminate. }
  destruct (getTokens_available p e Hne) as [ls Hls]. congruence.
Qed.

End RunMore.

(** ** The wrapper while time passes *)

Section LiveRuns.
Context {J : Json} {T S : Type}.
Variable p : Provider.

Lemma load_window (e e' : Env) :
  localStorage e' = localStorage e -> getDateString p e' = getDateString p e ->
  getTokenStatusStore p e' = getTokenStatusStore p e.
Proof. intros H1 H2. unfold getTokenStatusStore, defaultStore. now rewrite H1, H2. Qed.

Lemma tokens_window (ri : RawInput) (e e' : Env) :
  localStorage e' = localStorage e -> getTokens p ri e' = getTokens p ri e.
Proof. intros H. unfold getTokens. now rewrite H. Qed.

Lemma pending_window (e e' : Env) :
  localStorage e' = localStorage e -> getDateString p e' = getDateString p e ->
  pendingTokens p e' = pendingTokens p e.
Proof.
  intros H1 H2. unfold pendingTokens.
  now rewrite (load_window e e' H1 H2), (tokens_window undefined e e' H1).
Qed.

(** With an operation during which nothing changes, the loop is the loop of
    the frozen environment. *)
Lemma live_frozen (operation : Operation T S) (budget : nat) :
  forall a last inv e s,
  retryLoopLive p (frozen operation) budget a last inv e s =
  retryLoop p operation budget a last inv e s.
Proof.
  induction budget as [|b IH]; intros a last inv e s; [reflexivity|].
  simpl. destruct (getNextAvailableToken p e) as [t|]; [|reflexivity].
  unfold frozen at 1. destruct (operation (Some t) s) as [[v|err] s']; [reflexivity|].
  destruct (isQuotaError p err && negb (JsString.falsy t)); [apply IH | reflexivity].
Qed.

Lemma run_live_frozen (operation : Operation T S) (e : Env) (s : S) :
  runWithRetryLive p (frozen operation) e s = runWithRetry p operation e s.
Proof.
  unfold runWithRetryLive, runWithRetry.
  destruct (Nat.eqb (length (getTokens p undefined e)) 0); [|apply live_frozen].
  destruct (TOKEN_REQUIRED_KEY p); [reflexivity|].
  unfold frozen. now destruct (operation None s).
Qed.

Variable operation : LiveOperation T S.

Lemma live_none (budget a : nat) (last : option Error) (inv : list (option string))
    (e : Env) (s : S) :
  pendingTokens p e = [] ->
  retryLoopLive p operation (Datatypes.S budget) a last inv e s =
  mkRun (Rejected (newError (QUOTA_ERROR_KEY p))) (Datatypes.S a) inv e s.
Proof. intros H. simpl. rewrite next_pending, H. reflexivity. Qed.

Lemma live_resolved (budget a : nat) (last : option Error) (inv : list (option string))
    (e e' : Env) (s s' : S) (t : string) (rest : list string) (value : T) :
  pendingTokens p e = t :: rest ->
  operation (Some t) e s = (Resolved value, e', s') ->
  retryLoopLive p operation (Datatypes.S budget) a last inv e s =
  mkRun (Resolved value) (Datatypes.S a) (inv ++ [Some t])%list e' s'.
Proof. intros H Hop. simpl. rewrite next_pending, H. simpl. rewrite Hop. reflexivity. Qed.

Lemma live_quota (budget a : nat) (last : option Error) (inv : list (option string))
    (e e' : Env) (s s' : S) (t : string) (rest : list string) (error : Error) :
  pendingTokens p e = t :: rest ->
  operation (Some t) e s = (Rejected error, e', s') ->
  isQuotaError p error = true ->
  retryLoopLive p operation (Datatypes.S budget) a last inv e s =
  retryLoopLive p operation budget (Datatypes.S a) (Some error) (inv ++ [Some t])%list
                (markTokenExhausted p t e') s'.
Proof.
  intros H Hop Hq. simpl. rewrite next_pending, H. simpl. rewrite Hop, Hq.
  assert (Hin : In t (getTokens p undefined e)).
  { eapply proj1. apply filter_In. unfold pendingTokens in H. rewrite H. now left. }
  rewrite (getTokens_truthy _ _ _ _ Hin). reflexivity.
Qed.

Lemma live_hard (budget a : nat) (last : option Error) (inv : list (option string))
    (e e' : Env) (s s' : S) (t : string) (rest : list string) (error : Error) :
  pendingTokens p e = t :: rest ->
  operation (Some t) e s = (Rejected error, e', s') ->
  isQuotaError p error = false ->
  retryLoopLive p operation (Datatypes.S budget) a last inv e s =
  mkRun (Rejected error) (Datatypes.S a) (inv ++ [Some t])%list e' s'.
Proof. intros H Hop Hq. simpl. rewrite next_pending, H. simpl. rewrite Hop, Hq. reflexivity. Qed.

Context {JL : JsonLaws J}.
Variable day : string.
Hypothesis Hstore : keepsStorage operation.
Hypothesis Hday : settlesOn p operation day.

(** What the two hypotheses give for one settled operation. *)
Lemma settled_window (token : option string) (e e' : Env) (s s' : S) (r : Outcome T) :
  getDateString p e = day ->
  operation token e s = (r, e', s') ->
  localStorage e' = localStorage e /\ getDateString p e' = day /\
  getTokenStatusStore p e' = getTokenStatusStore p e /\
  pendingTokens p e' = pendingTokens p e.
Proof.
  intros He Hop.
  pose proof (Hstore token e s) as H1. pose proof (Hday token e s) as H2.
  rewrite Hop in H1, H2. unfold settledEnv in H1, H2. simpl in H1, H2.
  assert (H3 : getDateString p e' = getDateString p e) by congruence.
  split; [exact H1|]. split; [exact H2|].
  split; [now apply load_window | now apply pending_window].
Qed.

Lemma live_marks (budget : nat) :
  forall (a : nat) (last : option Error) (inv : list (option string)) (e : Env) (s : S),
  getDateString p e = day ->
  let r := retryLoopLive p operation budget a last inv e s in
  exists new,
    invoked r = (inv ++ map Some new)%list /\
    NoDup new /\
    (forall t, In t new -> In t (pendingTokens p e)) /\
    (forall x, isExhausted (getTokenStatusStore p e) x = true ->
               isExhausted (getTokenStatusStore p (envAfter r)) x = true) /\
    (forall x, isExhausted (getTokenStatusStore p (envAfter r)) x = true ->
               isExhausted (getTokenStatusStore p e) x = true \/ In x new).
Proof.
  induction budget as [|b IH]; intros a last inv e s He; cbv zeta.
  - exists []. simpl. rewrite app_nil_r.
    split; [reflexivity|]. split; [constructor|]. split; [intros t []|]. auto.
  - destruct (pendingTokens p e) as [|t rest] eqn:Hp.
    + rewrite live_none by exact Hp. exists []. simpl. rewrite app_nil_r.
      split; [reflexivity|]. split; [constructor|]. split; [intros t []|]. auto.
    + destruct (operation (Some t) e s) as [[[v|err] e1] s'] eqn:Hop;
        destruct (settled_window _ _ _ _ _ _ He Hop) as (Hs1 & Hd1 & Hload & Hpend).
      * rewrite (live_resolved _ _ _ _ _ _ _ _ _ _ _ Hp Hop).
        exists [t]. simpl. rewrite Hload.
        split; [reflexivity|]. split; [apply NoDup_singleton|].
        split; [intros u [<-|[]]; now left|]. auto.
      * destruct (isQuotaError p err) eqn:Hq.
        -- rewrite (live_quota _ _ _ _ _ _ _ _ _ _ _ Hp Hop Hq).
           assert (Hls : localStorage e1 <> None).
           { rewrite Hs1. exact (pending_available p e t rest Hp). }
           destruct (IH (Datatypes.S a) (Some err) (inv ++ [Some t])%list
                        (markTokenExhausted p t e1) s')
             as (new & Hinv & Hnd & Hsub & Hmono & Hnew).
           { now rewrite getDateString_mark. }
           rewrite pending_mark, Hpend, Hp in Hsub by exact Hls.
           exists (t :: new). split; [|split; [|split; [|split]]].
           ++ rewrite Hinv. simpl. now rewrite <- app_assoc.
           ++ apply NoDup_cons. split; [|exact Hnd].
              rewrite list_elem_of_In. intros Hin. apply Hsub in Hin.
              apply filter_In in Hin as [_ Hin]. rewrite String.eqb_refl in Hin.
              discriminate.
           ++ intros u [<-|Hu]; [now left|].
              apply Hsub in Hu. apply filter_In in Hu as [Hu _]. exact Hu.
           ++ intros x Hx. apply Hmono. rewrite isExhausted_mark by exact Hls.
              rewrite Hload, Hx. apply orb_true_r.
           ++ intros x Hx. apply Hnew in Hx as [Hx|Hx]; [|right; now right].
              rewrite isExhausted_mark, Hload in Hx by exact Hls.
              apply orb_true_iff in Hx as [Hx|Hx]; [|now left].
              apply String.eqb_eq in Hx. right. now left.
        -- rewrite (live_hard _ _ _ _ _ _ _ _ _ _ _ Hp Hop Hq).
           exists [t]. simpl. rewrite Hload.
           split; [reflexivity|]. split; [apply NoDup_singleton|].
           split; [intros u [<-|[]]; now left|]. auto.
Qed.

Lemma live_outcome (budget : nat) :
  forall (a : nat) (last : option Error) (inv : list (option string)) (e : Env) (s : S),
  getDateString p e = day ->
  (length (pendingTokens p e) < budget)%nat ->
  match outcome (retryLoopLive p operation budget a last inv e s) with
  | Resolved value =>
      exists t e0 s0 e1 s1, In t (pendingTokens p e) /\
                            operation (Some t) e0 s0 = (Resolved value, e1, s1)
  | Rejected error =>
      error = newError (QUOTA_ERROR_KEY p) \/
      exists t e0 s0 e1 s1, In t (pendingTokens p e) /\
                            operation (Some t) e0 s0 = (Rejected error, e1, s1) /\
                            isQuotaError p error = false
  end.
Proof.
  induction budget as [|b IH]; intros a last inv e s He Hlen; [lia|].
  destruct (pendingTokens p e) as [|t rest] eqn:Hp.
  - rewrite live_none by exact Hp. simpl. now left.
  - destruct (operation (Some t) e s) as [[[v|err] e1] s'] eqn:Hop;
      destruct (settled_window _ _ _ _ _ _ He Hop) as (Hs1 & Hd1 & Hload & Hpend).
    + rewrite (live_resolved _ _ _ _ _ _ _ _ _ _ _ Hp Hop). simpl.
      exists t, e, s, e1, s'. split; [now left | exact Hop].
    + destruct (isQuotaError p err) eqn:Hq.
      * rewrite (live_quota _ _ _ _ _ _ _ _ _ _ _ Hp Hop Hq).
        assert (Hls : localStorage e1 <> None).
        { rewrite Hs1. exact (pending_available p e t rest Hp). }
        pose proof (pending_mark p t e1 Hls) as Hp'. rewrite Hpend, Hp in Hp'. simpl in Hp'.
        rewrite String.eqb_refl in Hp'. simpl in Hp'.
        pose proof (filter_length_le (fun x => negb (String.eqb x t)) rest) as Hle.
        specialize (IH (Datatypes.S a) (Some err) (inv ++ [Some t])%list
                       (markTokenExhausted p t e1) s').
        rewrite Hp' in IH. simpl in Hlen.
        specialize (IH ltac:(now rewrite getDateString_mark) ltac:(lia)).
        destruct (outcome _) as [v|err'].
        -- destruct IH as (u & e0 & s0 & e2 & s1 & Hu & Hop'). exists u, e0, s0, e2, s1.
           split; [right; now apply filter_In in Hu | exact Hop'].
        -- destruct IH as [IH|(u & e0 & s0 & e2 & s1 & Hu & Hop' & Hq')]; [now left|].
           right. exists u, e0, s0, e2, s1.
           split; [right; now apply filter_In in Hu | auto].
      * rewrite (live_hard _ _ _ _ _ _ _ _ _ _ _ Hp Hop Hq). simpl.
        right. exists t, e, s, e1, s'. split; [now left | auto].
Qed.



End LiveRuns.

(** * Properties of the service calls *)

(** ** Image sizes *)

Ltac ratio_cases ratio :=
  destruct (String.eqb ratio "16:9") eqn:?H169;
  [| destruct (String.eqb ratio "4:3") eqn:?H43;
     [| destruct (String.eqb ratio "3:2") eqn:?H32;
        [| destruct (String.eqb ratio "9:16") eqn:?H916;
           [| destruct (String.eqb ratio "3:4") eqn:?H34;
              [| destruct (String.eqb ratio "2:3") eqn:?H23 ]]]]].

(** The three size tables agree, and for every ratio text the HD size is
    twice the standard size in both directions. *)
Theorem hd_doubles (ratio : string) :
  (forall enableHD, getZImageDimensions ratio enableHD = getDimensions ratio enableHD) /\
  width (getDimensions ratio true) = 2 * width (getDimensions ratio false) /\
  height (getDimensions ratio true) = 2 * height (getDimensions ratio false).
Proof.
  split; [intros []; reflexivity|].
  unfold getDimensions. ratio_cases ratio; split; reflexivity.
Qed.

(** For each of the seven ratios a:b the tables name, the size has that
    ratio exactly (width * b = height * a), standard and HD; every other
    ratio text gets the square size. *)
Theorem named_ratio_kept (ratio : string) (enableHD : bool) :
  (forall a b, In (ratio, a, b) namedRatios ->
     width (getDimensions ratio enableHD) * b = height (getDimensions ratio enableHD) * a) /\
  ((forall a b, ~ In (ratio, a, b) namedRatios) ->
     getDimensions ratio enableHD =
     {| width := if enableHD then 2048 else 1024;
        height := if enableHD then 2048 else 1024 |}).
Proof.
  split.
  - intros a b Hin. unfold namedRatios in Hin. simpl in Hin.
    destruct Hin as [H|[H|[H|[H|[H|[H|[H|[]]]]]]]]; injection H as <- <- <-;
      destruct enableHD; reflexivity.
  - intros Hno. unfold getDimensions.
    assert (Hne : forall r a b, In (r, a, b) namedRatios -> String.eqb ratio r = false).
    { intros r a b Hin. apply String.eqb_neq. intros ->. exact (Hno a b Hin). }
    rewrite (Hne "16:9" 16 9), (Hne "4:3" 4 3), (Hne "3:2" 3 2), (Hne "9:16" 9 16),
            (Hne "3:4" 3 4), (Hne "2:3" 2 3) by (unfold namedRatios; simpl; tauto).
    destruct enableHD; reflexivity.
Qed.

(** ** Request headers *)

(** [getAuthHeaders] always sets the content type; it sets [Authorization]
    exactly when the token is a non-empty string, to [Bearer] and the token,
    so that two non-empty tokens with the same headers are the same token. *)
Lemma getAuthHeaders_authorization (token : option string) :
  getAuthHeaders token !! "Content-Type" = Some "application/json" /\
  getAuthHeaders token !! "Authorization" =
    match truthyText token with
    | Some t => Some ("Bearer " ++ t)
    | None => None
    end /\
  (forall other, getAuthHeaders token = getAuthHeaders other ->
                 truthyText token = truthyText other).
Proof.
  assert (Hauth : forall tok, getAuthHeaders tok !! "Authorization" =
                    match truthyText tok with
                    | Some t => Some ("Bearer " ++ t)
                    | None => None
                    end).
  { intros [t|]; unfold getAuthHeaders, truthyText; [|reflexivity].
    destruct (JsString.falsy t); [reflexivity|]. apply lookup_insert_eq. }
  split; [|split; [apply Hauth|]].
  - destruct token as [t|]; unfold getAuthHeaders; [|reflexivity].
    destruct (JsString.falsy t); [reflexivity|].
    rewrite lookup_insert_ne by discriminate. reflexivity.
  - intros other Heq.
    pose proof (Hauth token) as H1. pose proof (Hauth other) as H2.
    rewrite Heq, H2 in H1.
    destruct (truthyText token), (truthyText other); try discriminate; [|reflexivity].
    cbv [String.append] in H1. injection H1 as H1. now rewrite H1.
Qed.

(** ** Server-sent events *)

Section SseFacts.
Context {V : Type}.
Variable parse : string -> option V.

Lemma decisive_split (line : string) :
  decisiveEvent line = completeEvent line || errorEvent line.
Proof.
  unfold decisiveEvent, completeEvent, errorEvent.
  destruct (JsText.startsWith line "event:"); reflexivity.
Qed.

Lemma extractLoop_event_other (flag : bool) (line : string) (rest : list string) :
  JsText.startsWith line "event:" = true ->
  decisiveEvent line = false ->
  extractLoop parse flag (line :: rest) = extractLoop parse false rest.
Proof.
  unfold decisiveEvent. intros Hev Hd. rewrite Hev in Hd. simpl in Hd.
  apply orb_false_elim in Hd as [Hc He]. simpl. now rewrite Hev, Hc, He.
Qed.

Lemma extractLoop_complete (flag : bool) (line : string) (rest : list string) :
  completeEvent line = true ->
  extractLoop parse flag (line :: rest) = extractLoop parse true rest.
Proof.
  unfold completeEvent. intros H. apply andb_true_iff in H as [Hev Hc].
  simpl. now rewrite Hev, Hc.
Qed.

Lemma extractLoop_error (flag : bool) (line : string) (rest : list string) :
  errorEvent line = true ->
  extractLoop parse flag (line :: rest) = Thrown (newError "error_quota_exhausted").
Proof.
  unfold errorEvent. intros H. apply andb_true_iff in H as [Hev He].
  simpl. rewrite Hev, He.
  destruct (String.eqb (eventName line) "complete") eqn:Hc; [|reflexivity].
  apply String.eqb_eq in Hc. apply String.eqb_eq in He. congruence.
Qed.

Lemma extractLoop_data (line : string) (rest : list string) :
  dataLine line = true ->
  extractLoop parse true (line :: rest) =
  Returned (parse (JsString.trim (JsText.substringFrom 5 line))).
Proof.
  unfold dataLine. intros H. apply andb_true_iff in H as [Hev Hd].
  apply negb_true_iff in Hev. simpl. rewrite Hev, Hd. simpl.
  now destruct (parse _).
Qed.

(** While no complete event has been seen, lines that are neither a complete
    nor an error event are passed over. *)
Lemma extractLoop_skip (pre rest : list string) :
  (forall l, In l pre -> decisiveEvent l = false) ->
  extractLoop parse false (pre ++ rest) = extractLoop parse false rest.
Proof.
  induction pre as [|l pre IH]; intros H; [reflexivity|].
  assert (Hl : decisiveEvent l = false) by (apply H; now left).
  assert (Hpre : forall x, In x pre -> decisiveEvent x = false)
    by (intros x Hx; apply H; now right).
  change ((l :: pre) ++ rest)%list with (l :: (pre ++ rest))%list.
  destruct (JsText.startsWith l "event:") eqn:Hev.
  - rewrite (extractLoop_event_other false l _ Hev Hl). now apply IH.
  - simpl. rewrite Hev, andb_false_r. now apply IH.
Qed.

(** A stream with no complete event and no error event gives [null],
    whatever data lines it holds. *)
Lemma extract_idle_lines (sseStream : string) :
  (forall l, In l (JsText.splitOn JsText.LF sseStream) -> decisiveEvent l = false) ->
  extractCompleteEventData parse sseStream = Returned None.
Proof.
  intros H. unfold extractCompleteEventData.
  rewrite <- (app_nil_r (JsText.splitOn JsText.LF sseStream)).
  now rewrite extractLoop_skip.
Qed.

Lemma extractLoop_thrown (lines : list string) :
  forall flag error,
  extractLoop parse flag lines = Thrown error ->
  error = newError "error_quota_exhausted" /\
  exists l, In l lines /\ errorEvent l = true.
Proof.
  induction lines as [|l lines IH]; intros flag error H; [discriminate|].
  simpl in H.
  destruct (JsText.startsWith l "event:") eqn:Hev.
  - destruct (String.eqb (eventName l) "complete") eqn:Hc.
    + destruct (IH _ _ H) as [He (x & Hx & Hxe)]. split; [exact He|].
      exists x. split; [now right | exact Hxe].
    + destruct (String.eqb (eventName l) "error") eqn:Herr.
      * injection H as <-. split; [reflexivity|]. exists l. split; [now left|].
        unfold errorEvent. now rewrite Hev, Herr.
      * destruct (IH _ _ H) as [He (x & Hx & Hxe)]. split; [exact He|].
        exists x. split; [now right | exact Hxe].
  - destruct (JsText.startsWith l "data:" && flag).
    + destruct (parse _); discriminate.
    + destruct (IH _ _ H) as [He (x & Hx & Hxe)]. split; [exact He|].
      exists x. split; [now right | exact Hxe].
Qed.

(** The only error [extractCompleteEventData] throws is
    [error_quota_exhausted], which the Hugging Face wrapper classifies as a
    quota error; it throws it only for a stream that holds an error event. *)
Theorem extract_throws_quota (sseStream : string) (error : Error) :
  extractCompleteEventData parse sseStream = Thrown error ->
  error = newError "error_quota_exhausted" /\
  isQuotaError HuggingFace error = true /\
  exists l, In l (JsText.splitOn JsText.LF sseStream) /\ errorEvent l = true.
Proof.
  intros H. apply extractLoop_thrown in H as [-> Hl].
  split; [reflexivity|]. split; [reflexivity | exact Hl].
Qed.

(** A data line right after the first complete event decides the result,
    when no error event comes before: the result is what [JSON.parse] makes
    of the trimmed text after [data:], or [null] when [JSON.parse] throws.
    The lines after it are not read. *)
Lemma extract_complete_lines (sseStream : string) (pre post : list string)
    (event data : string) :
  JsText.splitOn JsText.LF sseStream = (pre ++ event :: data :: post)%list ->
  (forall l, In l pre -> decisiveEvent l = false) ->
  completeEvent event = true ->
  dataLine data = true ->
  extractCompleteEventData parse sseStream =
  Returned (parse (JsString.trim (JsText.substringFrom 5 data))).
Proof.
  intros Hlines Hpre Hev Hd. unfold extractCompleteEventData.
  rewrite Hlines, (extractLoop_skip _ _ Hpre), (extractLoop_complete _ _ _ Hev).
  now apply extractLoop_data.
Qed.

(** An error event that comes before any complete event makes
    [extractCompleteEventData] throw, whatever follows it. *)
Lemma extract_error_lines (sseStream : string) (pre post : list string) (event : string) :
  JsText.splitOn JsText.LF sseStream = (pre ++ event :: post)%list ->
  (forall l, In l pre -> decisiveEvent l = false) ->
  errorEvent event = true ->
  extractCompleteEventData parse sseStream = Thrown (newError "error_quota_exhausted").
Proof.
  intros Hlines Hpre Hev. unfold extractCompleteEventData.
  rewrite Hlines, (extractLoop_skip _ _ Hpre). now apply extractLoop_error.
Qed.

(** A complete event counts for the next lines only: when another event
    follows it (one that is neither complete nor error), the stream is read
    as if the complete event had not been there. *)
Lemma extract_reset_lines (sseStream : string) (pre post : list string)
    (event other : string) :
  JsText.splitOn JsText.LF sseStream = (pre ++ event :: other :: post)%list ->
  (forall l, In l pre -> decisiveEvent l = false) ->
  completeEvent event = true ->
  JsText.startsWith other "event:" = true ->
  decisiveEvent other = false ->
  extractCompleteEventData parse sseStream = extractLoop parse false post.
Proof.
  intros Hlines Hpre Hev Hother Hd. unfold extractCompleteEventData.
  rewrite Hlines, (extractLoop_skip _ _ Hpre), (extractLoop_complete _ _ _ Hev).
  now apply extractLoop_event_other.
Qed.

(** A stream with no complete event and no error event gives [null],
    whatever data lines it holds. *)
Theorem idle_stream_gives_null (text : string) :
  idleStream text -> extractCompleteEventData parse text = Returned None.
Proof. apply extract_idle_lines. Qed.

(** When the first complete or error event of a stream is an error event,
    [extractCompleteEventData] throws [error_quota_exhausted], whatever
    follows that event. *)
Theorem error_stream_throws (text : string) :
  errorStream text ->
  extractCompleteEventData parse text = Thrown (newError "error_quota_exhausted").
Proof.
  intros (pre & event & post & Hlines & Hpre & Hev).
  exact (extract_error_lines text pre post event Hlines Hpre Hev).
Qed.

(** When the first complete or error event of a stream is a complete event
    with a data line right after it, the result is what [JSON.parse] makes of
    the trimmed text after [data:], and [null] when [JSON.parse] throws; the
    lines after the data line are not read. *)
Theorem complete_stream_gives_data (text payload : string) :
  completeStream text payload ->
  extractCompleteEventData parse text = Returned (parse payload).
Proof.
  intros (pre & event & data & post & Hlines & Hpre & Hev & Hd & <-).
  exact (extract_complete_lines text pre post event data Hlines Hpre Hev Hd).
Qed.

End SseFacts.

(** ** Calls of the Hugging Face spaces *)

Section RunSteps.
Context {J : Json} {T S : Type}.
Variable p : Provider.
Variable operation : Operation T S.

Lemma run_exhausted (e : Env) (s : S) :
  getTokens p undefined e <> [] ->
  pendingTokens p e = [] ->
  runWithRetry p operation e s =
  mkRun (Rejected (newError (QUOTA_ERROR_KEY p))) 1 [] e s.
Proof.
  intros Hne Hp. rewrite (run_nonempty p operation e s Hne), Nat.add_1_r.
  now apply loop_none.
Qed.

Lemma run_first_resolved (e : Env) (s s' : S) (t : string) (rest : list string) (value : T) :
  pendingTokens p e = t :: rest ->
  operation (Some t) s = (Resolved value, s') ->
  runWithRetry p operation e s = mkRun (Resolved value) 1 [Some t] e s'.
Proof.
  intros Hp Hop.
  assert (Hne : getTokens p undefined e <> []).
  { intros H. unfold pendingTokens in Hp. rewrite H in Hp. discriminate. }
  rewrite (run_nonempty p operation e s Hne), Nat.add_1_r.
  now rewrite (loop_resolved p operation _ _ _ _ _ _ _ _ _ _ Hp Hop).
Qed.

Lemma run_first_hard (e : Env) (s s' : S) (t : string) (rest : list string) (error : Error) :
  pendingTokens p e = t :: rest ->
  operation (Some t) s = (Rejected error, s') ->
  isQuotaError p error = false ->
  runWithRetry p operation e s = mkRun (Rejected error) 1 [Some t] e s'.
Proof.
  intros Hp Hop Hq.
  assert (Hne : getTokens p undefined e <> []).
  { intros H. unfold pendingTokens in Hp. rewrite H in Hp. discriminate. }
  rewrite (run_nonempty p operation e s Hne), Nat.add_1_r.
  now rewrite (loop_hard p operation _ _ _ _ _ _ _ _ _ _ Hp Hop Hq).
Qed.

End RunSteps.

Section SpaceFacts.
Context {J : Json} {V R S : Type}.
Variable space : Space V R S.

Lemma upscalerOperation_rejects (token : option string) (s s' : S) (error : Error) :
  upscalerOperation space token s = (Rejected error, s') ->
  error = newError "error_upscale_failed".
Proof.
  unfold upscalerOperation. destruct (spaceCall space token s) as [[v|err] s1]; congruence.
Qed.

(** [upscaler] never changes token: whatever goes wrong in its operation, a
    quota error of the stream included, is replaced by
    [error_upscale_failed], which is not a quota error; so the wrapper makes
    at most one attempt and marks no token. *)
Theorem upscaler_never_rotates (e : Env) (s : S) :
  envAfter (upscaler space e s) = e /\
  (attempts (upscaler space e s) <= 1)%nat /\
  (length (invoked (upscaler space e s)) <= 1)%nat /\
  (forall error, outcome (upscaler space e s) = Rejected error ->
     error = newError "error_upscale_failed" \/
     (error = newError "error_quota_exhausted" /\ invoked (upscaler space e s) = [])).
Proof.
  unfold upscaler, runWithTokenRetry.
  destruct (getTokens HuggingFace undefined e) as [|t0 l] eqn:Htok.
  - unfold runWithRetry. rewrite Htok. simpl.
    destruct (upscalerOperation space None s) as [[v|err] s'] eqn:Hop; simpl.
    + repeat split; try lia. intros error H. discriminate.
    + repeat split; try lia. intros error [= <-]. left.
      now apply upscalerOperation_rejects in Hop.
  - assert (Hne : getTokens HuggingFace undefined e <> []) by (rewrite Htok; discriminate).
    destruct (pendingTokens HuggingFace e) as [|t rest] eqn:Hp.
    + rewrite (run_exhausted HuggingFace _ e s Hne Hp). simpl.
      repeat split; try lia. intros error [= <-]. now right.
    + destruct (upscalerOperation space (Some t) s) as [[v|err] s'] eqn:Hop.
      * rewrite (run_first_resolved HuggingFace _ e s s' t rest v Hp Hop). simpl.
        repeat split; try lia. intros error H. discriminate.
      * pose proof (upscalerOperation_rejects _ _ _ _ Hop) as ->.
        rewrite (run_first_hard HuggingFace _ e s s' t rest _ Hp Hop eq_refl). simpl.
        repeat split; try lia. intros error [= <-]. now left.
Qed.

Lemma generate_error_stream (token text : string) :
  answersWith space token text ->
  errorStream text ->
  quotaFails HuggingFace (generateOperation space) token.
Proof.
  intros Hans (pre & event & post & Hlines & Hpre & Hev) s.
  destruct (Hans s) as (id & s1 & s2 & Hpost & Hget).
  exists (newError "error_quota_exhausted"), s2. split; [|reflexivity].
  unfold generateOperation, spaceCall. rewrite Hpost, Hget.
  now rewrite (extract_error_lines _ text pre post event Hlines Hpre Hev).
Qed.

Lemma generate_complete_stream (token text payload : string) (data : V) (value : R) :
  answersWith space token text ->
  completeStream text payload ->
  parseData space payload = Some data ->
  truthyData space data = true ->
  buildResult space data = Resolved value ->
  succeedsWith (generateOperation space) token value.
Proof.
  intros Hans (pre & event & d & post & Hlines & Hpre & Hev & Hd & Hpay) Hparse Htruthy Hbuild s.
  destruct (Hans s) as (id & s1 & s2 & Hpost & Hget).
  exists s2. unfold generateOperation, spaceCall. rewrite Hpost, Hget.
  rewrite (extract_complete_lines _ text pre post event d Hlines Hpre Hev Hd).
  now rewrite Hpay, Hparse, Htruthy, Hbuild.
Qed.

Context {JL : JsonLaws J}.

(** An error event in the stream changes token: when the first pending token
    gets a stream with an error event and the second a stream with a complete
    event and usable data, a generator marks the first token exhausted and
    returns the image made with the second, after two attempts. *)
Theorem generator_rotates_on_error_event (e : Env) (s : S) (t1 t2 : string)
    (rest : list string) (text1 text2 payload : string) (data : V) (value : R) :
  pendingTokens HuggingFace e = t1 :: t2 :: rest ->
  answersWith space t1 text1 ->
  errorStream text1 ->
  answersWith space t2 text2 ->
  completeStream text2 payload ->
  parseData space payload = Some data ->
  truthyData space data = true ->
  buildResult space data = Resolved value ->
  outcome (generateZImage space e s) = Resolved value /\
  attempts (generateZImage space e s) = 2%nat /\
  invoked (generateZImage space e s) = [Some t1; Some t2] /\
  isExhausted (getTokenStatusStore HuggingFace (envAfter (generateZImage space e s))) t1 = true.
Proof.
  intros Hp Hans1 Herr Hans2 Hcomp Hparse Htruthy Hbuild.
  pose proof (generate_error_stream t1 text1 Hans1 Herr) as Hq.
  pose proof (generate_complete_stream t2 text2 payload data value
                Hans2 Hcomp Hparse Htruthy Hbuild) as Hs.
  destruct (run_quota_prefix HuggingFace (generateOperation space) e s [t1] rest t2 value)
    as (Ho & _ & Hex & _ & Hcount); try assumption.
  { intros u [<-|[]]. exact Hq. }
  destruct Hcount as [Ha Hi]; [apply NoDup_singleton|].
  unfold generateZImage, runWithTokenRetry.
  split; [exact Ho|]. split; [exact Ha|]. split; [exact Hi|].
  apply Hex. left. now left.
Qed.

End SpaceFacts.

Section SpaceAborts.
Context {J : Json} {V R S : Type}.
Variable space : Space V R S.

(** A stream without a complete event is a hard failure: a generator throws
    [error_invalid_response] after one attempt, marks no token and does not
    try the next one. *)
Theorem generator_aborts_on_idle_stream (e : Env) (s : S) (t text : string)
    (rest : list string) :
  pendingTokens HuggingFace e = t :: rest ->
  answersWith space t text ->
  idleStream text ->
  outcome (generateZImage space e s) = Rejected (newError "error_invalid_response") /\
  attempts (generateZImage space e s) = 1%nat /\
  invoked (generateZImage space e s) = [Some t] /\
  envAfter (generateZImage space e s) = e.
Proof.
  intros Hp Hans Hidle.
  destruct (Hans s) as (id & s1 & s2 & Hpost & Hget).
  assert (Hop : generateOperation space (Some t) s =
                (Rejected (newError "error_invalid_response"), s2)).
  { unfold generateOperation, spaceCall. rewrite Hpost, Hget.
    now rewrite (extract_idle_lines _ text Hidle). }
  unfold generateZImage, runWithTokenRetry.
  rewrite (run_first_hard HuggingFace _ e s s2 t rest _ Hp Hop eq_refl). simpl. auto.
Qed.

End SpaceAborts.

(** ** Calls of the Model Scope and Gitee services *)

Section PollFacts.
Context {S : Type}.
Variable api : MsApi S.
Variables taskId token : string.

Lemma unsettled_spec (taskStatus : TaskStatus) :
  unsettled taskStatus = true ->
  bool_decide (task_status taskStatus = Some "SUCCEED") = false /\
  bool_decide (task_status taskStatus = Some "FAILED") = false /\
  bool_decide (task_status taskStatus = Some "CANCELED") = false.
Proof.
  unfold unsettled. rewrite !andb_true_iff, !negb_true_iff. tauto.
Qed.

(** Checks answered with an unsettled status only use up the budget. *)
Lemma pollLoop_unsettled (n : nat) (s s1 : S) :
  unsettledChecks api taskId token n s s1 ->
  forall budget checks slept,
  (n <= budget)%nat ->
  pollLoop api budget checks slept taskId token s =
  pollLoop api (budget - n) (checks + n) (slept + 2000 * Z.of_nat n) taskId token s1.
Proof.
  induction 1 as [s|n s s1 s2 st Hcheck Hun Hrest IH]; intros budget checks slept Hle.
  - rewrite Nat.sub_0_r, Nat.add_0_r. f_equal. lia.
  - destruct budget as [|b]; [lia|].
    cbn [pollLoop]. rewrite Hcheck.
    destruct (unsettled_spec st Hun) as (H1 & H2 & H3). rewrite H1, H2, H3. simpl orb. cbv iota.
    rewrite (IH b (Datatypes.S checks) (slept + 2000)) by lia.
    f_equal; lia.
Qed.

Lemma poll_times_out_lemma (s s' : S) :
  unsettledChecks api taskId token 60 s s' ->
  pollLoop api 60 0 0 taskId token s =
    mkPolling (Rejected (newError "error_api_connection")) 60 120000 s'.
Proof.
  intros H. rewrite (pollLoop_unsettled 60 s s' H 60%nat 0%nat 0) by lia. reflexivity.
Qed.

(** When the task stays pending or running, the sixtieth check is the last
    one: after 60 checks and 120 seconds of sleep [generateMSImage] gives up
    with [error_api_connection], which is not a quota error for the Model
    Scope wrapper. *)
Theorem poll_times_out (s s' : S) :
  unsettledChecks api taskId token 60 s s' ->
  pollLoop api 60 0 0 taskId token s =
    mkPolling (Rejected (newError "error_api_connection")) 60 120000 s' /\
  isQuotaError ModelScope (newError "error_api_connection") = false.
Proof.
  intros H. split; [now apply poll_times_out_lemma | reflexivity].
Qed.

(** When the task succeeds at the check after [n] unsettled ones (n < 60)
    and the answer holds an image, polling returns that image after n+1
    checks and 2(n+1) seconds of sleep. *)
Theorem poll_returns_image (n : nat) (s s1 s2 : S) (taskStatus : TaskStatus)
    (imageUrl : string) :
  unsettledChecks api taskId token n s s1 ->
  (n < 60)%nat ->
  checkTaskStatus api taskId token s1 = (Resolved (Some taskStatus), s2) ->
  task_status taskStatus = Some "SUCCEED" ->
  truthyText (output_image taskStatus) = Some imageUrl ->
  pollLoop api 60 0 0 taskId token s =
    mkPolling (Resolved imageUrl) (n + 1) (2000 * (Z.of_nat n + 1)) s2.
Proof.
  intros Hun Hn Hcheck Hst Himg.
  rewrite (pollLoop_unsettled n s s1 Hun 60%nat 0%nat 0) by lia.
  destruct (60 - n)%nat as [|b] eqn:Hb; [lia|].
  cbn [pollLoop]. rewrite Hcheck, Hst, Himg.
  rewrite bool_decide_eq_true_2 by reflexivity.
  f_equal; lia.
Qed.

(** When the first settled answer (after [n] unsettled ones, n < 60) is a
    failed or canceled task, or a succeeded task without an image, polling
    stops there with [error_invalid_response], which is not a quota error
    for the Model Scope wrapper. *)
Theorem poll_rejects_failed_task (n : nat) (s s1 s2 : S) (taskStatus : TaskStatus) :
  unsettledChecks api taskId token n s s1 ->
  (n < 60)%nat ->
  checkTaskStatus api taskId token s1 = (Resolved (Some taskStatus), s2) ->
  task_status taskStatus = Some "FAILED" \/
  task_status taskStatus = Some "CANCELED" \/
  (task_status taskStatus = Some "SUCCEED" /\ truthyText (output_image taskStatus) = None) ->
  pollLoop api 60 0 0 taskId token s =
    mkPolling (Rejected (newError "error_invalid_response")) (n + 1)
              (2000 * (Z.of_nat n + 1)) s2 /\
  isQuotaError ModelScope (newError "error_invalid_response") = false.
Proof.
  intros Hun Hn Hcheck Hst. split; [|reflexivity].
  rewrite (pollLoop_unsettled n s s1 Hun 60%nat 0%nat 0) by lia.
  destruct (60 - n)%nat as [|b] eqn:Hb; [lia|].
  cbn [pollLoop]. rewrite Hcheck.
  destruct Hst as [Hst|[Hst|[Hst Himg]]]; rewrite Hst; [| |rewrite Himg];
    simpl; f_equal; lia.
Qed.

End PollFacts.

Section HttpErrors.

Lemma statusMessages_all : forallb statusMessagesAgree (seq 100 500) = true.
Proof. vm_compute. reflexivity. Qed.

Lemma statusMessages (status : nat) :
  (100 <= status <= 599)%nat -> statusMessagesAgree status = true.
Proof.
  intros H. pose proof statusMessages_all as Hall.
  rewrite forallb_forall in Hall. apply Hall. apply in_seq. lia.
Qed.

Lemma apiError_no_message {B : Type} (prefix : string) (messageOf : B -> option string)
    (response : Response B) :
  match json_body response with
  | Resolved None => False
  | Resolved (Some errData) => truthyText (messageOf errData) = None
  | Rejected _ => True
  end ->
  apiError prefix messageOf response = newError (prefix ++ decimal (status_code response)).
Proof.
  unfold apiError. destruct (json_body response) as [[b|]|err]; [intros ->| |];
    (reflexivity || contradiction).
Qed.

(** A task check that is answered with a status that is not ok throws an
    error that the Model Scope wrapper takes for a quota error exactly when
    the status is 429, for every status from 100 to 599. *)
Theorem task_check_quota_only_429 {S : Type} (api : MsApi S) (taskId token : string)
    (s s' : S) (response : Response TaskStatus) :
  fetchTask api taskId token s = (Resolved response, s') ->
  ok response = false ->
  (100 <= status_code response <= 599)%nat ->
  exists error,
    checkTaskStatus api taskId token s = (Rejected error, s') /\
    isQuotaError ModelScope error = Nat.eqb (status_code response) 429.
Proof.
  intros Hfetch Hok Hc.
  pose proof (statusMessages _ Hc) as H1. unfold statusMessagesAgree in H1.
  apply andb_true_iff in H1 as [H1 _]. apply andb_true_iff in H1 as [H1 _].
  apply Bool.eqb_prop in H1.
  eexists. split; [|exact H1]. unfold checkTaskStatus. now rewrite Hfetch, Hok.
Qed.

(** The POST of Model Scope and of Gitee, answered with a status that is not
    ok. When the body has no message, or cannot be read, the error thrown is
    a quota error exactly when the status is 429, for every status from 100
    to 599. When the body is [null], reading its message throws a TypeError,
    which is not a quota error, whatever the status, 429 included. *)
Theorem api_error_quota_only_429 {B : Type} (messageOf : B -> option string)
    (response : Response B) :
  (100 <= status_code response <= 599)%nat ->
  match json_body response with
  | Resolved None =>
      apiError "Model Scope API Error: " messageOf response = nullPropertyError "message" /\
      apiError "Gitee AI API Error: " messageOf response = nullPropertyError "message" /\
      isQuotaError ModelScope (nullPropertyError "message") = false /\
      isQuotaError Gitee (nullPropertyError "message") = false
  | Resolved (Some errData) =>
      truthyText (messageOf errData) = None ->
      isQuotaError ModelScope (apiError "Model Scope API Error: " messageOf response)
        = Nat.eqb (status_code response) 429 /\
      isQuotaError Gitee (apiError "Gitee AI API Error: " messageOf response)
        = Nat.eqb (status_code response) 429
  | Rejected _ =>
      isQuotaError ModelScope (apiError "Model Scope API Error: " messageOf response)
        = Nat.eqb (status_code response) 429 /\
      isQuotaError Gitee (apiError "Gitee AI API Error: " messageOf response)
        = Nat.eqb (status_code response) 429
  end.
Proof.
  intros Hc.
  pose proof (statusMessages _ Hc) as H. unfold statusMessagesAgree in H.
  apply andb_true_iff in H as [H H3]. apply andb_true_iff in H as [_ H2].
  apply Bool.eqb_prop in H2, H3.
  destruct (json_body response) as [[errData|]|err] eqn:Hbody.
  - intros Hno. rewrite !apiError_no_message by (now rewrite Hbody). split; assumption.
  - unfold apiError. rewrite Hbody. repeat split; reflexivity.
  - rewrite !apiError_no_message by (now rewrite Hbody). split; assumption.
Qed.

Lemma quota_message (p : Provider) (m : string) :
  isQuotaError p (newError m) = true ->
  JsString.includes m "429" = true \/
  (exists kw, In kw (keywords p) /\ JsString.includes m kw = true) \/
  m = "error_quota_exhausted".
Proof.
  destruct p; unfold isQuotaError, messageIs, messageIncludes, statusIs429, keywords;
    simpl; rewrite ?orb_false_r, ?orb_true_iff.
  - intros [H|H]; [right; right; now apply String.eqb_eq | now left].
  - intros [[[[H|H]|H]|H]|H]; [now left | ..];
      right; left; eexists; (split; [|exact H]); simpl; tauto.
  - intros [[H|H]|H]; [now left | ..];
      right; left; eexists; (split; [|exact H]); simpl; tauto.
Qed.

(** When the body of an answer that is not ok carries a message, the error
    thrown is that message alone: the status is not in it, so the answer is a
    quota error only if the message says so, also when the status is 429. *)
Theorem body_message_hides_status {B : Type} (prefix : string)
    (messageOf : B -> option string) (response : Response B) (errData : B) (m : string)
    (p : Provider) :
  json_body response = Resolved (Some errData) ->
  truthyText (messageOf errData) = Some m ->
  apiError prefix messageOf response = newError m /\
  isQuotaError p (apiError prefix messageOf response) = isQuotaError p (newError m) /\
  (JsString.includes m "429" = false ->
   (forall kw, In kw (keywords p) -> JsString.includes m kw = false) ->
   m <> "error_quota_exhausted" ->
   isQuotaError p (apiError prefix messageOf response) = false).
Proof.
  intros Hbody Hm.
  assert (Heq : apiError prefix messageOf response = newError m).
  { unfold apiError. now rewrite Hbody, Hm. }
  split; [exact Heq|]. split; [now rewrite Heq|].
  intros H429 Hkw Hne. rewrite Heq.
  destruct (isQuotaError p (newError m)) eqn:Hq; [|reflexivity].
  apply quota_message in Hq. destruct Hq as [Hq|[(kw & Hin & Hq)|Hq]].
  - congruence.
  - rewrite (Hkw kw Hin) in Hq. discriminate.
  - contradiction.
Qed.

End HttpErrors.

Section MsRuns.
Context {J : Json} {S : Type}.
Variable api : MsApi S.

(** A task that never settles costs one attempt: [generateMSImage] throws
    [error_api_connection] after the sixtieth check, and the wrapper neither
    marks the token nor tries the next one. *)
Theorem ms_timeout_aborts (model prompt aspectRatio : string) (seed steps : option Z)
    (enableHD : bool) (random : Z) (e : Env) (s s1 s2 : S) (t taskId : string)
    (rest : list string) (response : Response SubmitBody) (body : SubmitBody) :
  pendingTokens ModelScope e = t :: rest ->
  (forall request, submitTask api request t s = (Resolved response, s1)) ->
  ok response = true ->
  json_body response = Resolved (Some body) ->
  truthyText (task_id body) = Some taskId ->
  unsettledChecks api taskId t 60 s1 s2 ->
  outcome (generateMSImage api model prompt aspectRatio seed steps enableHD random e s)
    = Rejected (newError "error_api_connection") /\
  attempts (generateMSImage api model prompt aspectRatio seed steps enableHD random e s)
    = 1%nat /\
  invoked (generateMSImage api model prompt aspectRatio seed steps enableHD random e s)
    = [Some t] /\
  envAfter (generateMSImage api model prompt aspectRatio seed steps enableHD random e s) = e.
Proof.
  intros Hp Hsubmit Hok Hbody Htask Hun.
  unfold generateMSImage, runWithMsTokenRetry.
  match goal with
  | |- context [runWithRetry ModelScope ?op e s] =>
      assert (Hop : op (Some t) s = (Rejected (newError "error_api_connection"), s2))
  end.
  { unfold msOperation. simpl tokenText. rewrite Hsubmit, Hok, Hbody, Htask. simpl negb.
    cbv iota. cbv zeta.
    rewrite (poll_times_out_lemma api taskId t s1 s2 Hun). reflexivity. }
  rewrite (run_first_hard ModelScope _ e s s2 t rest _ Hp Hop eq_refl). simpl. auto.
Qed.

End MsRuns.

Section PromptFacts.
Context {J : Json} {S : Type}.
Variable chat : string -> string -> S -> Outcome (Response ChatBody) * S.

(** [optimizePromptMS] and [optimizePromptGitee] do not change token on an
    answer that is not ok: whatever its status, 429 included, the error
    thrown is [error_prompt_optimization_failed], after one attempt and with
    no token marked. *)
Theorem optimize_not_ok_aborts (originalPrompt : string) (e : Env)
    (s s' : S) (t : string) (rest : list string) (response : Response ChatBody) :
  chat t originalPrompt s = (Resolved response, s') ->
  ok response = false ->
  (pendingTokens ModelScope e = t :: rest ->
   optimizePromptMS chat originalPrompt e s =
   mkRun (Rejected (newError "error_prompt_optimization_failed")) 1 [Some t] e s') /\
  (pendingTokens Gitee e = t :: rest ->
   optimizePromptGitee chat originalPrompt e s =
   mkRun (Rejected (newError "error_prompt_optimization_failed")) 1 [Some t] e s').
Proof.
  intros Hchat Hok.
  assert (Hop : optimizeOperation chat originalPrompt (Some t) s =
                (Rejected (newError "error_prompt_optimization_failed"), s')).
  { unfold optimizeOperation. simpl tokenText. now rewrite Hchat, Hok. }
  split; intros Hp.
  - exact (run_first_hard ModelScope _ e s s' t rest _ Hp Hop eq_refl).
  - exact (run_first_hard Gitee _ e s s' t rest _ Hp Hop eq_refl).
Qed.

(** The text an optimization returns is the content of the answer, or the
    original prompt when the answer has no content or an empty one; so a
    prompt that is not empty is never optimized into an empty text. *)
Lemma optimize_falls_back (originalPrompt : string) (token : option string) (s s' : S)
    (text : string) :
  optimizeOperation chat originalPrompt token s = (Resolved text, s') ->
  (exists response data,
     chat (tokenText token) originalPrompt s = (Resolved response, s') /\
     ok response = true /\
     json_body response = Resolved (Some data) /\
     text = default originalPrompt (truthyText (content data))) /\
  (originalPrompt <> EmptyString -> text <> EmptyString).
Proof.
  unfold optimizeOperation. intros H.
  destruct (chat (tokenText token) originalPrompt s) as [[response|err] s1] eqn:Hchat;
    [|discriminate].
  destruct (ok response) eqn:Hok; [|discriminate]. simpl in H.
  destruct (json_body response) as [[data|]|err] eqn:Hbody; [|discriminate|discriminate].
  assert (Htext : text = default originalPrompt (truthyText (content data)) /\ s1 = s').
  { destruct (truthyText (content data)); injection H as <- <-; auto. }
  destruct Htext as [-> ->]. split.
  - exists response, data. auto.
  - intros Hne. unfold truthyText.
    destruct (content data) as [c|]; [|exact Hne].
    destruct (JsString.falsy c) eqn:Hc; [exact Hne|].
    simpl. now apply JsStringFacts.falsy_false.
Qed.

End PromptFacts.

(** ** Day keys *)

Section DayKeys.
Context {J : Json}.

(** The day key of Model Scope and Gitee is the UTC date of the instant
    moved by 480 minutes plus the browser's own offset: it is the Beijing
    date in a browser set to UTC, and the plain UTC date, the key of the
    Hugging Face service, in a browser set to Beijing time. *)
Theorem day_key_by_zone (e : Env) :
  getBeijingDateString e = JsDate.isoDate (now e + (timezoneOffset e + 480) * 60000) /\
  (timezoneOffset e = 0 -> getBeijingDateString e = dayAtOffset 8 e) /\
  (timezoneOffset e = -480 -> getBeijingDateString e = getUTCDatesString e).
Proof.
  unfold getBeijingDateString, getUTCDatesString, dayAtOffset.
  split; [f_equal; lia|]. split; intros ->; f_equal; lia.
Qed.

Lemma getTokens_storage (p : Provider) (ri : RawInput) (e e' : Env) :
  localStorage e' = localStorage e -> getTokens p ri e' = getTokens p ri e.
Proof. intros H. unfold getTokens. now rewrite H. Qed.

Context {JL : JsonLaws J}.

(** The marks of one day are gone once the day key changes: at a later
    instant with another day key, the record loaded is the fresh one, and
    every configured token is pending again (a token named like a property
    of [Object.prototype] apart). *)
Theorem marks_expire_with_day (p : Provider) (t : string) (e : Env) (later offset : Z) :
  localStorage e <> None ->
  getDateString p {| localStorage := localStorage (markTokenExhausted p t e);
                     now := later; timezoneOffset := offset |}
    <> getDateString p e ->
  getTokenStatusStore p {| localStorage := localStorage (markTokenExhausted p t e);
                           now := later; timezoneOffset := offset |}
    = defaultStore p {| localStorage := localStorage (markTokenExhausted p t e);
                        now := later; timezoneOffset := offset |} /\
  (forall x, In x (getTokens p undefined e) ->
             existsb (String.eqb x) objectPrototype = false ->
             In x (pendingTokens p {| localStorage := localStorage (markTokenExhausted p t e);
                                      now := later; timezoneOffset := offset |})).
Proof.
  intros Hls Hday.
  set (e' := {| localStorage := localStorage (markTokenExhausted p t e);
                now := later; timezoneOffset := offset |}) in *.
  destruct (localStorage e) as [ls|] eqn:Hstore; [|contradiction].
  assert (Hload : getTokenStatusStore p e' = defaultStore p e').
  { apply (load_other_day p e'
             (<[TOKEN_STATUS_KEY p :=
                  JSON_stringify
                    {| date := date (getTokenStatusStore p e);
                       exhausted := setExhausted t (exhausted (getTokenStatusStore p e)) |}]> ls)
             (JSON_stringify
                {| date := date (getTokenStatusStore p e);
                   exhausted := setExhausted t (exhausted (getTokenStatusStore p e)) |})
             {| date := date (getTokenStatusStore p e);
                exhausted := setExhausted t (exhausted (getTokenStatusStore p e)) |}).
    - unfold e'. simpl. now rewrite (mark_env p t e ls Hstore).
    - apply lookup_insert_eq.
    - apply JSON_parse_stringify.
    - simpl. rewrite load_date. congruence. }
  split; [exact Hload|].
  intros x Hx Hproto. unfold pendingTokens. apply filter_In. split.
  - rewrite (getTokens_storage p undefined (markTokenExhausted p t e) e') by reflexivity.
    now rewrite getTokens_mark.
  - rewrite Hload. unfold isExhausted, defaultStore. cbn [exhausted].
    rewrite lookup_empty, Hproto. reflexivity.
Qed.

End DayKeys.

(** * The further properties on sample inputs *)

Section MoreSamples.
Local Existing Instance BitJson.codec.
Local Existing Instance BitJson_laws.

Lemma failedStream_error : errorStream Scenario.failedStream.
Proof.
  exists ["event: heartbeat"; "data: null"], "event: error", ["data: null"].
  split; [reflexivity|]. split; [|reflexivity].
  intros l [<-|[<-|[]]]; reflexivity.
Qed.

Lemma doneStream_complete :
  completeStream Scenario.doneStream "[{url: 'https://space/file.png'}]".
Proof.
  exists ["event: generating"; "data: null"], "event: complete",
         "data: [{url: 'https://space/file.png'}]", [].
  split; [reflexivity|]. split; [|repeat split; reflexivity].
  intros l [<-|[<-|[]]]; reflexivity.
Qed.

Lemma cutStream_idle : idleStream Scenario.cutStream.
Proof. intros l [<-|[<-|[]]]; reflexivity. Qed.

Lemma space_answers_t1 : answersWith Scenario.space "t1" Scenario.failedStream.
Proof. intros s. exists "e1", s, s. split; reflexivity. Qed.

Lemma space_answers_t2 : answersWith Scenario.space "t2" Scenario.doneStream.
Proof. intros s. exists "e1", s, s. split; reflexivity. Qed.

Lemma space_answers_t3 : answersWith Scenario.space "t3" Scenario.cutStream.
Proof. intros s. exists "e1", s, s. split; reflexivity. Qed.

Lemma never_ready (withImage : bool) (taskId token : string) (n s : nat) :
  unsettledChecks (Scenario.modelScope 0 withImage) taskId token n s (n + s)%nat.
Proof.
  revert s. induction n as [|n IH]; intros s.
  - apply unsettled_none.
  - apply (unsettled_more _ _ _ n s (Datatypes.S s) (Datatypes.S n + s)%nat
             {| task_status := Some "RUNNING";
                output_image := if withImage then Some "https://ms/image.png" else None |}).
    + reflexivity.
    + reflexivity.
    + replace (Datatypes.S n + s)%nat with (n + Datatypes.S s)%nat by lia. apply IH.
Qed.

Lemma ready_at_third (withImage : bool) :
  unsettledChecks (Scenario.modelScope 3 withImage) "task-1" "t" 2 0%nat 2%nat.
Proof.
  apply (unsettled_more _ _ _ 1 0%nat 1%nat 2%nat
           {| task_status := Some "RUNNING";
              output_image := if withImage then Some "https://ms/image.png" else None |});
    [reflexivity | reflexivity |].
  apply (unsettled_more _ _ _ 0 1%nat 2%nat 2%nat
           {| task_status := Some "RUNNING";
              output_image := if withImage then Some "https://ms/image.png" else None |});
    [reflexivity | reflexivity |].
  apply unsettled_none.
Qed.

Lemma markTokenExhausted_other_provider_witness :
  getTokenStatusStore Gitee (markTokenExhausted ModelScope "t" (Scenario.allServices "a,b"))
  = getTokenStatusStore Gitee (Scenario.allServices "a,b") /\
  getTokens Gitee undefined (markTokenExhausted ModelScope "t" (Scenario.allServices "a,b"))
  = getTokens Gitee undefined (Scenario.allServices "a,b") /\
  getNextAvailableToken Gitee (markTokenExhausted ModelScope "t" (Scenario.allServices "a,b"))
  = getNextAvailableToken Gitee (Scenario.allServices "a,b") /\
  getTokenStats Gitee "t" (markTokenExhausted ModelScope "t" (Scenario.allServices "a,b"))
  = getTokenStats Gitee "t" (Scenario.allServices "a,b").
Proof.
  apply (markTokenExhausted_other_provider ModelScope Gitee "t" "t" (Scenario.allServices "a,b")).
  discriminate.
Defined.

Lemma marked_token_not_selected_witness :
  getNextAvailableToken ModelScope
    (markTokenExhausted ModelScope "a" (Sample.browser ModelScope "a,b")) <> Some "a" /\
  (forall u, u <> "a" ->
     isExhausted (getTokenStatusStore ModelScope
                    (markTokenExhausted ModelScope "a" (Sample.browser ModelScope "a,b"))) u =
     isExhausted (getTokenStatusStore ModelScope (Sample.browser ModelScope "a,b")) u) /\
  getNextAvailableToken ModelScope
    (markTokenExhausted ModelScope "a" (Sample.browser ModelScope "a,b")) =
    head (List.filter (fun x => negb (String.eqb x "a"))
                      (pendingTokens ModelScope (Sample.browser ModelScope "a,b"))).
Proof.
  apply (marked_token_not_selected ModelScope "a" (Sample.browser ModelScope "a,b")).
  discriminate.
Defined.

Lemma markTokenExhausted_comm_witness :
  getTokenStatusStore ModelScope
    (markTokenExhausted ModelScope "a"
       (markTokenExhausted ModelScope "b" (Sample.browser ModelScope "a,b,c"))) =
  getTokenStatusStore ModelScope
    (markTokenExhausted ModelScope "b"
       (markTokenExhausted ModelScope "a" (Sample.browser ModelScope "a,b,c"))) /\
  getNextAvailableToken ModelScope
    (markTokenExhausted ModelScope "a"
       (markTokenExhausted ModelScope "b" (Sample.browser ModelScope "a,b,c"))) =
  getNextAvailableToken ModelScope
    (markTokenExhausted ModelScope "b"
       (markTokenExhausted ModelScope "a" (Sample.browser ModelScope "a,b,c"))).
Proof.
  destruct (markTokenExhausted_comm (JL := BitJson_laws) ModelScope ModelScope ModelScope
              "a" "b" "a,b,c" (Sample.browser ModelScope "a,b,c")) as (H1 & _ & H2 & _).
  split; [exact H1 | exact H2].
Defined.

Lemma getTokenStats_after_mark_witness :
  exhaustedCount (getTokenStats ModelScope "a,a,b"
                    (markTokenExhausted ModelScope "a" (Sample.browser ModelScope "a,a,b"))) =
    (exhaustedCount (getTokenStats ModelScope "a,a,b" (Sample.browser ModelScope "a,a,b")) +
     count_occ String.string_dec
       (getTokens ModelScope (raw "a,a,b") (Sample.browser ModelScope "a,a,b")) "a")%nat /\
  (active (getTokenStats ModelScope "a,a,b"
             (markTokenExhausted ModelScope "a" (Sample.browser ModelScope "a,a,b"))) +
   count_occ String.string_dec
     (getTokens ModelScope (raw "a,a,b") (Sample.browser ModelScope "a,a,b")) "a")%nat =
    active (getTokenStats ModelScope "a,a,b" (Sample.browser ModelScope "a,a,b")).
Proof.
  apply (getTokenStats_after_mark ModelScope "a" "a,a,b" (Sample.browser ModelScope "a,a,b")).
  - discriminate.
  - reflexivity.
Defined.

Lemma slowRateLimited_keepsStorage : keepsStorage Scenario.slowRateLimited.
Proof. intros token e s. reflexivity. Qed.

Lemma slowRateLimited_settlesOn :
  settlesOn ModelScope Scenario.slowRateLimited "2026-11-03".
Proof. intros token e s. reflexivity. Qed.

(** The two hypotheses on the operation are needed. With the tokens a and b,
    when the call made with b settles a day later, the mark of a, written
    under the day before, is dropped by the write of the mark of b: a is
    selected and invoked a second time, and the call ends at the [throw]
    after the loop, with the last quota error. *)
Lemma midnight_reinvokes :
  invoked (runWithRetryLive ModelScope Scenario.overMidnight
             (Sample.browser ModelScope "a,b") tt) = [Some "a"; Some "b"; Some "a"] /\
  attempts (runWithRetryLive ModelScope Scenario.overMidnight
              (Sample.browser ModelScope "a,b") tt) = 3%nat /\
  outcome (runWithRetryLive ModelScope Scenario.overMidnight
             (Sample.browser ModelScope "a,b") tt)
  = Rejected (newError "Model Scope API Error: 429") /\
  isExhausted (getTokenStatusStore ModelScope
                 (envAfter (runWithRetryLive ModelScope Scenario.overMidnight
                              (Sample.browser ModelScope "a,b") tt))) "b" = true.
Proof. repeat split; vm_compute; reflexivity. Qed.



Lemma marks_expire_with_day_witness :
  getTokenStatusStore ModelScope
    {| localStorage := localStorage (markTokenExhausted ModelScope "a"
                                       (Sample.browser ModelScope "a,b"));
       now := Sample.evening + 86400000; timezoneOffset := 0 |} =
  defaultStore ModelScope
    {| localStorage := localStorage (markTokenExhausted ModelScope "a"
                                       (Sample.browser ModelScope "a,b"));
       now := Sample.evening + 86400000; timezoneOffset := 0 |} /\
  forall x, In x (getTokens ModelScope undefined (Sample.browser ModelScope "a,b")) ->
            existsb (String.eqb x) objectPrototype = false ->
            In x (pendingTokens ModelScope
                    {| localStorage := localStorage (markTokenExhausted ModelScope "a"
                                                       (Sample.browser ModelScope "a,b"));
                       now := Sample.evening + 86400000; timezoneOffset := 0 |}).
Proof.
  apply (marks_expire_with_day ModelScope "a" (Sample.browser ModelScope "a,b")
           (Sample.evening + 86400000) 0).
  - discriminate.
  - vm_compute. discriminate.
Defined.

Lemma idle_stream_gives_null_witness :
  extractCompleteEventData (parseData Scenario.space) Scenario.cutStream = Returned None.
Proof.
  apply (idle_stream_gives_null (parseData Scenario.space) Scenario.cutStream).
  exact cutStream_idle.
Defined.

Lemma error_stream_throws_witness :
  extractCompleteEventData (parseData Scenario.space) Scenario.failedStream
  = Thrown (newError "error_quota_exhausted").
Proof.
  apply (error_stream_throws (parseData Scenario.space) Scenario.failedStream).
  exact failedStream_error.
Defined.

Lemma complete_stream_gives_data_witness :
  extractCompleteEventData (parseData Scenario.space) Scenario.doneStream
  = Returned (parseData Scenario.space "[{url: 'https://space/file.png'}]").
Proof.
  apply (complete_stream_gives_data (parseData Scenario.space) Scenario.doneStream
           "[{url: 'https://space/file.png'}]").
  exact doneStream_complete.
Defined.

Lemma extract_throws_quota_witness :
  newError "error_quota_exhausted" = newError "error_quota_exhausted" /\
  isQuotaError HuggingFace (newError "error_quota_exhausted") = true /\
  exists l, In l (JsText.splitOn JsText.LF Scenario.failedStream) /\ errorEvent l = true.
Proof.
  apply (extract_throws_quota (parseData Scenario.space) Scenario.failedStream
           (newError "error_quota_exhausted")).
  reflexivity.
Defined.

Lemma generator_rotates_on_error_event_witness :
  outcome (generateZImage Scenario.space (Sample.browser HuggingFace "t1,t2") tt)
  = Resolved "[{url: 'https://space/file.png'}]" /\
  attempts (generateZImage Scenario.space (Sample.browser HuggingFace "t1,t2") tt) = 2%nat /\
  invoked (generateZImage Scenario.space (Sample.browser HuggingFace "t1,t2") tt)
  = [Some "t1"; Some "t2"] /\
  isExhausted (getTokenStatusStore HuggingFace
                 (envAfter (generateZImage Scenario.space
                              (Sample.browser HuggingFace "t1,t2") tt))) "t1" = true.
Proof.
  apply (generator_rotates_on_error_event Scenario.space (Sample.browser HuggingFace "t1,t2") tt
           "t1" "t2" [] Scenario.failedStream Scenario.doneStream
           "[{url: 'https://space/file.png'}]" "[{url: 'https://space/file.png'}]"
           "[{url: 'https://space/file.png'}]").
  - reflexivity.
  - exact space_answers_t1.
  - exact failedStream_error.
  - exact space_answers_t2.
  - exact doneStream_complete.
  - reflexivity.
  - reflexivity.
  - reflexivity.
Defined.

Lemma generator_aborts_on_idle_stream_witness :
  outcome (generateZImage Scenario.space (Sample.browser HuggingFace "t3,t2") tt)
  = Rejected (newError "error_invalid_response") /\
  attempts (generateZImage Scenario.space (Sample.browser HuggingFace "t3,t2") tt) = 1%nat /\
  invoked (generateZImage Scenario.space (Sample.browser HuggingFace "t3,t2") tt)
  = [Some "t3"] /\
  envAfter (generateZImage Scenario.space (Sample.browser HuggingFace "t3,t2") tt)
  = Sample.browser HuggingFace "t3,t2".
Proof.
  apply (generator_aborts_on_idle_stream Scenario.space (Sample.browser HuggingFace "t3,t2") tt
           "t3" Scenario.cutStream ["t2"]).
  - reflexivity.
  - exact space_answers_t3.
  - exact cutStream_idle.
Defined.

Lemma poll_times_out_witness :
  pollLoop (Scenario.modelScope 0 true) 60 0 0 "task-1" "t" 0%nat =
    mkPolling (Rejected (newError "error_api_connection")) 60 120000 60%nat /\
  isQuotaError ModelScope (newError "error_api_connection") = false.
Proof.
  apply (poll_times_out (Scenario.modelScope 0 true) "task-1" "t" 0%nat 60%nat).
  exact (never_ready true "task-1" "t" 60 0%nat).
Defined.

Lemma poll_returns_image_witness :
  pollLoop (Scenario.modelScope 3 true) 60 0 0 "task-1" "t" 0%nat =
    mkPolling (Resolved "https://ms/image.png") (2 + 1) (2000 * (Z.of_nat 2 + 1)) 3%nat.
Proof.
  apply (poll_returns_image (Scenario.modelScope 3 true) "task-1" "t" 2 0%nat 2%nat 3%nat
           {| task_status := Some "SUCCEED"; output_image := Some "https://ms/image.png" |}
           "https://ms/image.png").
  - exact (ready_at_third true).
  - lia.
  - reflexivity.
  - reflexivity.
  - reflexivity.
Defined.

Lemma poll_rejects_failed_task_witness :
  pollLoop (Scenario.modelScope 3 false) 60 0 0 "task-1" "t" 0%nat =
    mkPolling (Rejected (newError "error_invalid_response")) (2 + 1)
              (2000 * (Z.of_nat 2 + 1)) 3%nat /\
  isQuotaError ModelScope (newError "error_invalid_response") = false.
Proof.
  apply (poll_rejects_failed_task (Scenario.modelScope 3 false) "task-1" "t" 2 0%nat 2%nat 3%nat
           {| task_status := Some "SUCCEED"; output_image := None |}).
  - exact (ready_at_third false).
  - lia.
  - reflexivity.
  - right. right. split; reflexivity.
Defined.

Lemma task_check_quota_only_429_witness :
  exists error,
    checkTaskStatus Scenario.unavailable "task-1" "t" 0%nat = (Rejected error, 0%nat) /\
    isQuotaError ModelScope error = Nat.eqb 503 429.
Proof.
  apply (task_check_quota_only_429 Scenario.unavailable "task-1" "t" 0%nat 0%nat
           {| ok := false; status_code := 503;
              json_body := Rejected (newError "Unexpected token") |}).
  - reflexivity.
  - reflexivity.
  - cbn [status_code]. lia.
Defined.

Lemma api_error_quota_only_429_witness :
  (isQuotaError ModelScope
     (apiError "Model Scope API Error: " submit_message Scenario.throttledNoBody)
     = Nat.eqb (status_code Scenario.throttledNoBody) 429 /\
   isQuotaError Gitee (apiError "Gitee AI API Error: " submit_message Scenario.throttledNoBody)
     = Nat.eqb (status_code Scenario.throttledNoBody) 429) /\
  isQuotaError ModelScope
    (apiError "Model Scope API Error: " submit_message Scenario.throttledNull) = false.
Proof.
  split.
  - apply (api_error_quota_only_429 submit_message Scenario.throttledNoBody).
    cbn [status_code Scenario.throttledNoBody]. lia.
  - destruct (api_error_quota_only_429 submit_message Scenario.throttledNull)
      as (H1 & _ & H2 & _).
    + cbn [status_code Scenario.throttledNull]. lia.
    + rewrite H1. exact H2.
Defined.

Lemma body_message_hides_status_witness :
  apiError "Model Scope API Error: " submit_message Scenario.throttled
  = newError "Too many requests" /\
  isQuotaError ModelScope (apiError "Model Scope API Error: " submit_message Scenario.throttled)
  = isQuotaError ModelScope (newError "Too many requests") /\
  (JsString.includes "Too many requests" "429" = false ->
   (forall kw, In kw (keywords ModelScope) ->
               JsString.includes "Too many requests" kw = false) ->
   "Too many requests" <> "error_quota_exhausted" ->
   isQuotaError ModelScope
     (apiError "Model Scope API Error: " submit_message Scenario.throttled) = false).
Proof.
  apply (body_message_hides_status "Model Scope API Error: " submit_message Scenario.throttled
           {| submit_message := Some "Too many requests"; task_id := None |}
           "Too many requests" ModelScope).
  - reflexivity.
  - reflexivity.
Defined.

Lemma ms_timeout_aborts_witness :
  outcome (generateMSImage (Scenario.modelScope 0 true) "Tongyi-MAI/Z-Image-Turbo" "a cat"
             "16:9" None None false 7 (Scenario.allServices "a,b") 0%nat)
  = Rejected (newError "error_api_connection") /\
  attempts (generateMSImage (Scenario.modelScope 0 true) "Tongyi-MAI/Z-Image-Turbo" "a cat"
              "16:9" None None false 7 (Scenario.allServices "a,b") 0%nat) = 1%nat /\
  invoked (generateMSImage (Scenario.modelScope 0 true) "Tongyi-MAI/Z-Image-Turbo" "a cat"
             "16:9" None None false 7 (Scenario.allServices "a,b") 0%nat) = [Some "t"] /\
  envAfter (generateMSImage (Scenario.modelScope 0 true) "Tongyi-MAI/Z-Image-Turbo" "a cat"
              "16:9" None None false 7 (Scenario.allServices "a,b") 0%nat)
  = Scenario.allServices "a,b".
Proof.
  apply (ms_timeout_aborts (Scenario.modelScope 0 true) "Tongyi-MAI/Z-Image-Turbo" "a cat"
           "16:9" None None false 7 (Scenario.allServices "a,b") 0%nat 0%nat 60%nat
           "t" "task-1" []
           {| ok := true; status_code := 200;
              json_body := Resolved (Some {| submit_message := None; task_id := Some "task-1" |}) |}
           {| submit_message := None; task_id := Some "task-1" |}).
  - reflexivity.
  - reflexivity.
  - reflexivity.
  - reflexivity.
  - reflexivity.
  - exact (never_ready true "task-1" "t" 60 0%nat).
Defined.

Lemma optimize_not_ok_aborts_witness :
  optimizePromptMS Scenario.busyChat "a cat" (Scenario.allServices "a,b") tt =
    mkRun (Rejected (newError "error_prompt_optimization_failed")) 1 [Some "t"]
          (Scenario.allServices "a,b") tt /\
  optimizePromptGitee Scenario.busyChat "a cat" (Scenario.allServices "a,b") tt =
    mkRun (Rejected (newError "error_prompt_optimization_failed")) 1 [Some "t"]
          (Scenario.allServices "a,b") tt.
Proof.
  destruct (optimize_not_ok_aborts Scenario.busyChat "a cat" (Scenario.allServices "a,b")
              tt tt "t" []
              {| ok := false; status_code := 429;
                 json_body := Resolved (Some {| content := None |}) |}) as [H1 H2].
  - reflexivity.
  - reflexivity.
  - split; [apply H1 | apply H2]; reflexivity.
Defined.

End MoreSamples.
